(** * agentframework: the tool-calling loop, the middleware chains, the
      streaming merge, the session mode lock and the option overlay

    A shallow embedding of the Go package [agentframework]: the loop of
    [invokeFunctions], the three [chain..Middleware] functions,
    [ChatResponseFromUpdates], the mode operations of [Session],
    [MergeChatOptions] and [Agent.prepareChatOptions], together with the
    properties the specification states about them.

    Conventions of the embedding.
    - Go [string] is [string]; a Go [int] is [Z]. The only arithmetic on an
      [int] in the code modelled here is [consecutiveErrors++], which needs
      2^63 tool calls in one run to wrap around.
    - A nil slice and an empty slice are both the empty list: the code only
      ever tests [len(..) == 0] on the slices modelled here.
    - A Go value of type [any] is an [Any].
    - [context.Context] and the [slog] calls are left out: the functions
      modelled here never branch on them.
    - Code that calls back into closures (the backend client, a tool's
      [Invoke], middleware) threads an explicit [World]. *)

From Stdlib Require Import String List ZArith Bool Lia.
From stdpp Require Import base option list strings gmap.
Import ListNotations.
Local Open Scope string_scope.
Local Open Scope list_scope.

(* ===================================================================== *)
(** * Part I. Definitions                                                 *)
(* ===================================================================== *)

(** ** Content and messages *)

(** A dynamically typed Go value, as far as this package looks into one:
    it stores strings (error texts) and passes everything else along. *)
Inductive Any : Type :=
| AnyNil
| AnyString (s : string)
| AnyInt (n : Z)
| AnyBool (b : bool)
| AnyOpaque (tag : nat).

Record UsageDetails : Type := mkUsage {
  InputTokens : Z;
  OutputTokens : Z;
  TotalTokens : Z
}.

Definition zeroUsage : UsageDetails := mkUsage 0 0 0.

(** The sealed [Content] interface: one constructor per concrete type. *)
Inductive Content : Type :=
| TextContent (Text : string)
| TextReasoningContent (Text : string)
| DataContent (URI MediaType : string)
| URIContent (URI MediaType : string)
| ErrorContent (Message ErrorCode : string) (Details : Any)
| FunctionCallContent (CallID Name Arguments : string)
| FunctionResultContent (CallID : string) (Result : Any)
| UsageContent (Usage : UsageDetails)
| HostedFileContent (FileID : string)
| HostedVectorStoreContent (VectorStoreID : string)
| CodeInterpreterCallContent (CallID Code : string)
| CodeInterpreterResultContent (CallID Output : string)
| ImageGenCallContent (CallID Prompt : string)
| ImageGenResultContent (CallID URI : string)
| MCPServerCallContent (CallID Name Arguments : string)
| MCPServerResultContent (CallID : string) (Result : Any)
| ApprovalRequestContent (CallID Name Arguments : string)
| ApprovalResponseContent (CallID : string) (Approved : bool) (Reason : string).

Definition Contents : Type := list Content.

Definition Role : Type := string.
Definition RoleUser : Role := "user".
Definition RoleAssistant : Role := "assistant".
Definition RoleSystem : Role := "system".
Definition RoleTool : Role := "tool".

Definition FinishReason : Type := string.
Definition FinishReasonStop : FinishReason := "stop".
Definition FinishReasonLength : FinishReason := "length".
Definition FinishReasonToolCalls : FinishReason := "tool_calls".
Definition FinishReasonContentFilter : FinishReason := "content_filter".

Record Message : Type := mkMessage {
  msgRole : Role;
  msgContents : Contents;
  msgAuthorName : string;
  msgMessageID : string;
  msgExtra : gmap string Any;
  msgRaw : Any
}.

(** [Message{Role: r, Contents: cs}]: the other fields keep their zero value. *)
Definition messageOf (r : Role) (cs : Contents) : Message :=
  mkMessage r cs "" "" ∅ AnyNil.

Definition NewUserMessage (text : string) : Message :=
  messageOf RoleUser [TextContent text].

Definition NewAssistantMessage (text : string) : Message :=
  messageOf RoleAssistant [TextContent text].

Definition NewSystemMessage (text : string) : Message :=
  messageOf RoleSystem [TextContent text].

Definition NewToolMessage (callID : string) (result : Any) : Message :=
  messageOf RoleTool [FunctionResultContent callID result].

(** [s == ""] *)
Definition isEmpty (s : string) : bool :=
  match s with
  | EmptyString => true
  | String _ _ => false
  end.

(** [Message.Text]: the texts of the [TextContent] items, concatenated. *)
Fixpoint contentsText (cs : Contents) : string :=
  match cs with
  | [] => ""
  | TextContent t :: rest => String.append t (contentsText rest)
  | _ :: rest => contentsText rest
  end.

Definition messageText (m : Message) : string := contentsText (msgContents m).

(** ** Responses and updates *)

Record ChatResponse : Type := mkChatResponse {
  Messages : list Message;
  ResponseID : string;
  ConversationID : string;
  ModelID : string;
  CreatedAt : string;
  respFinishReason : FinishReason;
  Usage : UsageDetails;
  Extra : gmap string Any;
  Raw : Any
}.

(** [&ChatResponse{}] *)
Definition emptyResponse : ChatResponse :=
  mkChatResponse [] "" "" "" "" "" zeroUsage ∅ AnyNil.

(** [ChatResponse.Text] *)
Definition responseText (r : ChatResponse) : string :=
  fold_right (fun m acc => String.append (messageText m) acc) "" (Messages r).

Record ChatResponseUpdate : Type := mkUpdate {
  updContents : Contents;
  updRole : Role;
  updResponseID : string;
  updConversationID : string;
  updModelID : string;
  updFinishReason : FinishReason;
  updUsage : UsageDetails;
  updRaw : Any
}.

(** *** [mergeContentDeltas] *)

(** The closure [flush]: it acts on the two captured variables [merged] and
    [textBuf]. *)
Definition flush (st : Contents * string) : Contents * string :=
  let (merged, textBuf) := st in
  if (0 <? String.length textBuf)%nat
  then (merged ++ [TextContent textBuf], "")
  else (merged, textBuf).

(** One turn of [for _, c := range cs]. *)
Definition mergeStep (st : Contents * string) (c : Content) : Contents * string :=
  match c with
  | TextContent t => (fst st, String.append (snd st) t)
  | _ => let (merged, textBuf) := flush st in (merged ++ [c], textBuf)
  end.

Definition mergeContentDeltas (cs : Contents) : Contents :=
  match cs with
  | [] => []
  | _ => fst (flush (fold_left mergeStep cs ([], "")))
  end.

(** *** [ChatResponseFromUpdates] *)

(** The body of [for _, u := range updates]: the loop state is the response
    under construction and [allContents]. The last [if] of the Go loop has an
    empty body. *)
Definition absorbUpdate (st : ChatResponse * Contents) (u : ChatResponseUpdate)
  : ChatResponse * Contents :=
  let (resp, allContents) := st in
  let allContents := allContents ++ updContents u in
  let rid := if isEmpty (updResponseID u) then ResponseID resp else updResponseID u in
  let cid := if isEmpty (updConversationID u) then ConversationID resp
             else updConversationID u in
  let mid := if isEmpty (updModelID u) then ModelID resp else updModelID u in
  let fin := if isEmpty (updFinishReason u) then respFinishReason resp
             else updFinishReason u in
  let usg := if (0 <? TotalTokens (updUsage u))%Z then updUsage u else Usage resp in
  (mkChatResponse (Messages resp) rid cid mid (CreatedAt resp) fin usg
     (Extra resp) (Raw resp),
   allContents).

Definition ChatResponseFromUpdates (updates : list ChatResponseUpdate) : ChatResponse :=
  let (resp, allContents) := fold_left absorbUpdate updates (emptyResponse, []) in
  let merged := mergeContentDeltas allContents in
  if (0 <? length merged)%nat then
    let role :=
      match updates with
      | u0 :: _ => if isEmpty (updRole u0) then RoleAssistant else updRole u0
      | [] => RoleAssistant
      end in
    mkChatResponse [messageOf role merged] (ResponseID resp) (ConversationID resp)
      (ModelID resp) (CreatedAt resp) (respFinishReason resp) (Usage resp)
      (Extra resp) (Raw resp)
  else resp.

(** *** The merge as the specification words it

    The definitions of this block follow the wording of the specification
    (section 4.5); the theorems of Part II compare them with the code above. *)

(** The last element of [l] that satisfies [keep], or [d] when none does. *)
Definition lastSuch {A : Type} (keep : A -> bool) (d : A) (l : list A) : A :=
  List.last (List.filter keep l) d.

Definition nonEmpty (s : string) : bool := negb (isEmpty s).

Definition hasTotal (u : UsageDetails) : bool := (0 <? TotalTokens u)%Z.

Definition isTextItem (c : Content) : bool :=
  match c with TextContent _ => true | _ => false end.

(** A text item put in front of an already collapsed sequence: it joins the
    text item that follows it, if any, and an empty text leaves no item. *)
Definition consText (t : string) (r : Contents) : Contents :=
  match r with
  | TextContent t' :: r' => TextContent (String.append t t') :: r'
  | _ => if isEmpty t then r else TextContent t :: r
  end.

(** Every maximal run of adjacent text items becomes one text item holding
    the concatenation of the run; other items are kept as they are. *)
Fixpoint collapseRuns (cs : Contents) : Contents :=
  match cs with
  | [] => []
  | TextContent t :: rest => consText t (collapseRuns rest)
  | c :: rest => c :: collapseRuns rest
  end.

(** The same with the reading "a run always leaves exactly one text item". *)
Fixpoint collapseRunsKeepEmpty (cs : Contents) : Contents :=
  match cs with
  | [] => []
  | TextContent t :: rest =>
      match collapseRunsKeepEmpty rest with
      | TextContent t' :: r' => TextContent (String.append t t') :: r'
      | r => TextContent t :: r
      end
  | c :: rest => c :: collapseRunsKeepEmpty rest
  end.

(** "the first update that specifies one (default: assistant role)" *)
Definition firstSpecifiedRole (updates : list ChatResponseUpdate) : Role :=
  List.hd RoleAssistant (List.filter nonEmpty (List.map updRole updates)).

(** The role the code takes: that of the update at index 0. *)
Definition leadingRole (updates : list ChatResponseUpdate) : Role :=
  match updates with
  | u0 :: _ => if isEmpty (updRole u0) then RoleAssistant else updRole u0
  | [] => RoleAssistant
  end.

(** All content items of a response, in document order. *)
Definition responseContents (r : ChatResponse) : Contents :=
  List.concat (List.map msgContents (Messages r)).

(** A complete response fed back into the merge as one update: its content
    items, the role of its first message and its scalar fields. *)
Definition updateOfResponse (r : ChatResponse) : ChatResponseUpdate :=
  mkUpdate (responseContents r)
    (match Messages r with m :: _ => msgRole m | [] => "" end)
    (ResponseID r) (ConversationID r) (ModelID r) (respFinishReason r)
    (Usage r) (Raw r).

(** ** Errors *)

(** The sentinel errors of the package. *)
Inductive Sentinel : Type :=
| ErrAgent | ErrExecution | ErrInitialization | ErrSession
| ErrSessionModeLocked | ErrChatClient | ErrService | ErrContentFilter
| ErrInvalidRequest | ErrInvalidResponse | ErrAuth | ErrTool
| ErrToolExecution | ErrMiddleware.

Definition sentinel_eqb (a b : Sentinel) : bool :=
  match a, b with
  | ErrAgent, ErrAgent | ErrExecution, ErrExecution
  | ErrInitialization, ErrInitialization | ErrSession, ErrSession
  | ErrSessionModeLocked, ErrSessionModeLocked | ErrChatClient, ErrChatClient
  | ErrService, ErrService | ErrContentFilter, ErrContentFilter
  | ErrInvalidRequest, ErrInvalidRequest | ErrInvalidResponse, ErrInvalidResponse
  | ErrAuth, ErrAuth | ErrTool, ErrTool | ErrToolExecution, ErrToolExecution
  | ErrMiddleware, ErrMiddleware => true
  | _, _ => false
  end.

(** The sentinel a sentinel was built from with [fmt.Errorf("%w: ..", parent)]. *)
Definition parentOf (s : Sentinel) : option Sentinel :=
  match s with
  | ErrExecution | ErrInitialization | ErrSession => Some ErrAgent
  | ErrSessionModeLocked => Some ErrSession
  | ErrContentFilter | ErrInvalidRequest | ErrInvalidResponse | ErrAuth => Some ErrService
  | ErrToolExecution => Some ErrTool
  | ErrAgent | ErrChatClient | ErrService | ErrTool | ErrMiddleware => None
  end.

(** [errors.Is(s, target)] for a sentinel [s]; the chains have length at most 3. *)
Definition sentinelIs (s target : Sentinel) : bool :=
  sentinel_eqb s target
  || match parentOf s with
     | Some p =>
         sentinel_eqb p target
         || match parentOf p with
            | Some q => sentinel_eqb q target
            | None => false
            end
     | None => false
     end.

(** An error made outside the functions modelled here (by the backend, a
    tool or a middleware): the text of its [Error()] and the sentinels that
    [errors.Is] finds in it. *)
Record ForeignError : Type := mkForeign {
  foreignText : string;
  foreignIs : list Sentinel
}.

(** The errors the modelled functions return. Each of the package's own
    errors is [fmt.Errorf("%w: ..", sentinel, data)]; the constructor keeps
    the data instead of the formatted text. *)
Inductive GoError : Type :=
| Foreign (e : ForeignError)
| UnknownTool (name : string)
| MaxConsecutiveErrorsReached (count : Z)
| MaxIterationsReached (maxIterations : Z)
| CannotSwitchToServiceMode
| CannotSwitchToLocalMode.

(** [errors.Is(err, target)] *)
Definition errorsIs (err : GoError) (target : Sentinel) : bool :=
  match err with
  | Foreign e => existsb (fun s => sentinelIs s target) (foreignIs e)
  | UnknownTool _ | MaxConsecutiveErrorsReached _ => sentinelIs ErrToolExecution target
  | MaxIterationsReached _ => sentinelIs ErrExecution target
  | CannotSwitchToServiceMode | CannotSwitchToLocalMode =>
      sentinelIs ErrSessionModeLocked target
  end.

(** ** Sessions *)

(** A [MessageStore] interface value: [None] is the nil interface, [Some r]
    a reference to a store object. *)
Definition MessageStore : Type := option nat.

(** The fields of [Session] its mode operations read or write. Every method
    holds [mu] for its whole body, so a method is one atomic step. *)
Record Session : Type := mkSession {
  sessID : string;
  serviceID : string;
  store : MessageStore;
  modeLocked : bool
}.

(** [NewSession()] with the generated id [id] and no option. *)
Definition NewSession (id : string) : Session := mkSession id "" None false.

(** The option [WithSessionStore(store)] applied by [NewSession]. *)
Definition WithSessionStore (st : MessageStore) (s : Session) : Session :=
  mkSession (sessID s) (serviceID s) st (modeLocked s).

Definition isNil (st : MessageStore) : bool :=
  match st with None => true | Some _ => false end.

Definition SetServiceID (id : string) (s : Session) : Session * option GoError :=
  if modeLocked s && negb (isNil (store s))
  then (s, Some CannotSwitchToServiceMode)
  else (mkSession (sessID s) id (store s) true, None).

Definition SetStore (st : MessageStore) (s : Session) : Session * option GoError :=
  if modeLocked s && negb (isEmpty (serviceID s))
  then (s, Some CannotSwitchToLocalMode)
  else (mkSession (sessID s) (serviceID s) st true, None).

(** A mode-setting operation, and a sequence of them run on one session. *)
Inductive ModeOp : Type :=
| OpSetServiceID (id : string)
| OpSetStore (st : MessageStore).

Definition applyOp (op : ModeOp) (s : Session) : Session * option GoError :=
  match op with
  | OpSetServiceID id => SetServiceID id s
  | OpSetStore st => SetStore st s
  end.

(** The session after [ops], with the error each operation returned. *)
Fixpoint runOps (ops : list ModeOp) (s : Session)
  : Session * list (ModeOp * option GoError) :=
  match ops with
  | [] => (s, [])
  | op :: rest =>
      let (s1, r) := applyOp op s in
      let (s2, rs) := runOps rest s1 in
      (s2, (op, r) :: rs)
  end.

Definition isModeLockedError (r : option GoError) : bool :=
  match r with
  | Some e => errorsIs e ErrSessionModeLocked
  | None => false
  end.

(** The session is locked and holds a local store. *)
Definition lockedLocal (s : Session) : bool :=
  modeLocked s && negb (isNil (store s)).

(** The session is locked and holds a service id. *)
Definition lockedService (s : Session) : bool :=
  modeLocked s && negb (isEmpty (serviceID s)).

(** The operation passes a real store, respectively a real service id. *)
Definition properOp (op : ModeOp) : bool :=
  match op with
  | OpSetServiceID id => negb (isEmpty id)
  | OpSetStore st => negb (isNil st)
  end.

Definition isSetServiceID (op : ModeOp) : bool :=
  match op with OpSetServiceID _ => true | OpSetStore _ => false end.

Definition isSetStore (op : ModeOp) : bool :=
  match op with OpSetStore _ => true | OpSetServiceID _ => false end.

(** ** Tools and chat options *)

Definition ApprovalMode : Type := string.
Definition ApprovalNever : ApprovalMode := "never".
Definition ApprovalAlways : ApprovalMode := "always".

Definition ToolChoice : Type := string.

(** A [float64] is only stored and copied: it is kept as its 64 bits. *)
Definition Float64 : Type := Z.

(** ["\n"] *)
Definition newline : string := String (Ascii.ascii_of_nat 10) EmptyString.

Section WithWorld.

(** Everything the closures of a run can read or change: the backend's
    state, the variables captured by tools and middleware. *)
Context {World : Type}.

(** A value of the [Tool] interface, by the results of its methods.
    [toolInvoke] fails with the error the Go method returns. *)
Record Tool : Type := mkTool {
  toolName : string;
  toolDescription : string;
  toolParameters : string;
  toolInvoke : string -> World -> World * (Any + ForeignError);
  toolDeclarationOnly : bool;
  toolApproval : ApprovalMode
}.

(** [ChatOptions]; a nil pointer field is [None], [ResponseFormat == nil] is
    [AnyNil]. *)
Record ChatOptions : Type := mkChatOptions {
  optModelID : string;
  optTemperature : option Float64;
  optTopP : option Float64;
  optMaxTokens : option Z;
  optStop : list string;
  optSeed : option Z;
  optFrequencyPenalty : option Float64;
  optPresencePenalty : option Float64;
  optTools : list Tool;
  optToolChoice : ToolChoice;
  optResponseFormat : Any;
  optMetadata : gmap string string;
  optUser : string;
  optInstructions : string;
  optConversationID : string;
  optStore : option bool;
  optExtra : gmap string Any
}.

(** [&ChatOptions{}] *)
Definition emptyOptions : ChatOptions :=
  mkChatOptions "" None None None [] None None None [] "" AnyNil ∅ "" "" "" None ∅.

Definition anyIsNil (v : Any) : bool :=
  match v with AnyNil => true | _ => false end.

(** [if over != zero { merged = over }] for the three kinds of field. *)
Definition overlayString (base over : string) : string :=
  if isEmpty over then base else over.

Definition overlayPtr {A : Type} (base over : option A) : option A :=
  match over with Some _ => over | None => base end.

Definition overlayAny (base over : Any) : Any :=
  if anyIsNil over then base else over.

(** The instruction block of [MergeChatOptions], and the same shape in
    [prepareChatOptions]. *)
Definition concatInstructions (first second : string) : string :=
  if isEmpty second then first
  else if isEmpty first then second
  else String.append first (String.append newline second).

(** The tool block of [MergeChatOptions]: [byName], then the two loops that
    fill [tools] and [seen]. *)
Definition indexByName (m : gmap string Tool) (ts : list Tool) : gmap string Tool :=
  fold_left (fun m t => <[toolName t := t]> m) ts m.

Definition keepBase (byName : gmap string Tool)
    (st : list Tool * gmap string bool) (t : Tool) : list Tool * gmap string bool :=
  match byName !! toolName t with
  | Some t' => (fst st ++ [t'], <[toolName t := true]> (snd st))
  | None => st
  end.

Definition addUnseen (seen : gmap string bool) (tools : list Tool) (t : Tool)
  : list Tool :=
  if default false (seen !! toolName t) then tools else tools ++ [t].

Definition mergeTools (base over : list Tool) : list Tool :=
  if (0 <? length over)%nat then
    let byName := indexByName (indexByName ∅ base) over in
    let (tools, seen) := fold_left (keepBase byName) base ([], ∅) in
    fold_left (addUnseen seen) over tools
  else base.

(** The two map blocks: the override's keys are written over the base's. *)
Definition mergeMap {V : Type} (base over : gmap string V) : gmap string V :=
  if (0 <? size over)%nat then over ∪ base else base.

Definition MergeChatOptions (base override : option ChatOptions) : ChatOptions :=
  match base, override with
  | None, None => emptyOptions
  | None, Some o => o
  | Some b, None => b
  | Some b, Some o =>
      mkChatOptions
        (overlayString (optModelID b) (optModelID o))
        (overlayPtr (optTemperature b) (optTemperature o))
        (overlayPtr (optTopP b) (optTopP o))
        (overlayPtr (optMaxTokens b) (optMaxTokens o))
        (if (0 <? length (optStop o))%nat then optStop o else optStop b)
        (overlayPtr (optSeed b) (optSeed o))
        (overlayPtr (optFrequencyPenalty b) (optFrequencyPenalty o))
        (overlayPtr (optPresencePenalty b) (optPresencePenalty o))
        (mergeTools (optTools b) (optTools o))
        (overlayString (optToolChoice b) (optToolChoice o))
        (overlayAny (optResponseFormat b) (optResponseFormat o))
        (mergeMap (optMetadata b) (optMetadata o))
        (overlayString (optUser b) (optUser o))
        (concatInstructions (optInstructions b) (optInstructions o))
        (overlayString (optConversationID b) (optConversationID o))
        (overlayPtr (optStore b) (optStore o))
        (mergeMap (optExtra b) (optExtra o))
  end.

(** ** Preparing the options of a run *)

(** The fields of [Agent] and of [runConfig] that [prepareChatOptions]
    reads. *)
Record Agent : Type := mkAgent {
  agentInstructions : string;
  agentTools : list Tool;
  agentDefaultOptions : option ChatOptions
}.

Record runConfig : Type := mkRunConfig {
  runTools : list Tool;
  runOptions : option ChatOptions
}.

Definition withTools (o : ChatOptions) (ts : list Tool) : ChatOptions :=
  mkChatOptions (optModelID o) (optTemperature o) (optTopP o) (optMaxTokens o)
    (optStop o) (optSeed o) (optFrequencyPenalty o) (optPresencePenalty o)
    ts (optToolChoice o) (optResponseFormat o) (optMetadata o) (optUser o)
    (optInstructions o) (optConversationID o) (optStore o) (optExtra o).

Definition withInstructions (o : ChatOptions) (i : string) : ChatOptions :=
  mkChatOptions (optModelID o) (optTemperature o) (optTopP o) (optMaxTokens o)
    (optStop o) (optSeed o) (optFrequencyPenalty o) (optPresencePenalty o)
    (optTools o) (optToolChoice o) (optResponseFormat o) (optMetadata o) (optUser o)
    i (optConversationID o) (optStore o) (optExtra o).

Definition prepareChatOptions (a : Agent) (cfg : runConfig) : ChatOptions :=
  let opts := MergeChatOptions (agentDefaultOptions a) (runOptions cfg) in
  let allTools := agentTools a ++ runTools cfg in
  let opts := if (0 <? length allTools)%nat then withTools opts allTools else opts in
  if isEmpty (agentInstructions a) then opts
  else if isEmpty (optInstructions opts)
       then withInstructions opts (agentInstructions a)
       else withInstructions opts
              (String.append (agentInstructions a)
                 (String.append newline (optInstructions opts))).

(** The overlay as the specification words it: the non-empty instruction
    blocks joined by a newline, and "de-duplicated by name". *)
Fixpoint joinWith (sep : string) (blocks : list string) : string :=
  match blocks with
  | [] => ""
  | [b] => b
  | b :: rest => String.append b (String.append sep (joinWith sep rest))
  end.

Definition joinLines (blocks : list string) : string :=
  joinWith newline (List.filter nonEmpty blocks).

Definition orEmpty (o : option ChatOptions) : ChatOptions :=
  match o with Some x => x | None => emptyOptions end.

(** "taken from the per-call override when it is set and from the agent
    default otherwise" *)
Definition preferSet {A : Type} (set : A -> bool) (over base : A) : A :=
  if set over then over else base.

Definition isSet {A : Type} (p : option A) : bool :=
  match p with Some _ => true | None => false end.

Definition hasItems {A : Type} (l : list A) : bool :=
  match l with [] => false | _ :: _ => true end.

Definition notNil (v : Any) : bool := negb (anyIsNil v).

End WithWorld.

(** ** Middleware *)

Record AgentResponse : Type := mkAgentResponse {
  arMessages : list Message;
  arResponseID : string;
  arAgentID : string;
  arUsage : UsageDetails;
  arExtra : gmap string Any;
  arRaw : Any
}.

Section Pipelines.

Context {World : Type}.

(** A Go function [func(ctx, args..) (R, error)] that may read and change
    the world. *)
Definition Effect (R : Type) : Type := World -> World * (R + GoError).

Record AgentRequest : Type := mkAgentRequest {
  reqMessages : list Message;
  reqSession : option Session;
  reqOptions : option (@ChatOptions World)
}.

Definition AgentHandler : Type := AgentRequest -> Effect AgentResponse.
Definition AgentMiddleware : Type := AgentHandler -> AgentHandler.

Definition ChatHandler : Type :=
  list Message -> option (@ChatOptions World) -> Effect ChatResponse.
Definition ChatMiddleware : Type := ChatHandler -> ChatHandler.

Definition FunctionHandler : Type :=
  @Tool World -> string -> World -> World * (Any + ForeignError).
Definition FunctionMiddleware : Type := FunctionHandler -> FunctionHandler.

(** [for i := len(mws) - 1; i >= 0; i-- { handler = mws[i](handler) }], with
    [n = i + 1] turns left. The three chain functions have this one body, at
    three handler types. *)
Fixpoint chainFrom {H : Type} (mws : list (H -> H)) (n : nat) (handler : H) : H :=
  match n with
  | O => handler
  | S i =>
      match mws !! i with
      | Some mw => chainFrom mws i (mw handler)
      | None => chainFrom mws i handler
      end
  end.

Definition chainAgentMiddleware (handler : AgentHandler) (mws : list AgentMiddleware)
  : AgentHandler := chainFrom mws (length mws) handler.

Definition chainChatMiddleware (handler : ChatHandler) (mws : list ChatMiddleware)
  : ChatHandler := chainFrom mws (length mws) handler.

Definition chainFunctionMiddleware (handler : FunctionHandler)
    (mws : list FunctionMiddleware) : FunctionHandler :=
  chainFrom mws (length mws) handler.

(** The nesting the specification writes: [m0(m1(...mn(core)...))]. *)
Definition nest {H : Type} (mws : list (H -> H)) (core : H) : H :=
  fold_right (fun mw h => mw h) core mws.

(** What the three handler types share: a handler is called with arguments
    in a world and leaves a world and a result. *)
Class Pipeline (H Args Res : Type) : Type := {
  call : H -> Args -> World -> World * Res;
  make : (Args -> World -> World * Res) -> H;
  call_make : forall f a w, call (make f) a w = f a w
}.

#[export] Instance agentPipeline
  : Pipeline AgentHandler AgentRequest (AgentResponse + GoError) :=
  {| call := fun h a w => h a w;
     make := fun f => f;
     call_make := fun _ _ _ => eq_refl |}.

#[export] Instance chatPipeline
  : Pipeline ChatHandler (list Message * option (@ChatOptions World))
      (ChatResponse + GoError) :=
  {| call := fun h a w => h (fst a) (snd a) w;
     make := fun f => fun ms o w => f (ms, o) w;
     call_make := fun f a w =>
       match a as p return f (fst p, snd p) w = f p w with
       | (ms, o) => eq_refl
       end |}.

#[export] Instance functionPipeline
  : Pipeline FunctionHandler (@Tool World * string) (Any + ForeignError) :=
  {| call := fun h a w => h (fst a) (snd a) w;
     make := fun f => fun t s w => f (t, s) w;
     call_make := fun f a w =>
       match a as p return f (fst p, snd p) w = f p w with
       | (t, s) => eq_refl
       end |}.

(** A middleware with a pre-hook and a post-hook, as in the execution-order
    test: it runs [pre], calls [next], runs [post] and hands the result of
    [next] back. *)
Definition hooked {H Args Res : Type} `{Pipeline H Args Res}
    (hooks : (World -> World) * (World -> World)) : H -> H :=
  fun next =>
    make (fun a w =>
            let (w1, r) := call next a (fst hooks w) in
            (snd hooks w1, r)).

(** The pre-hooks of a list, run first to last; its post-hooks, run last to
    first. *)
Definition runPre (hooks : list ((World -> World) * (World -> World))) (w : World)
  : World := fold_left (fun w h => fst h w) hooks w.

Definition runPost (hooks : list ((World -> World) * (World -> World))) (w : World)
  : World := fold_right (fun h w => snd h w) w hooks.

End Pipelines.

(** ** The function-invocation loop *)

Record InvocationConfig : Type := mkConfig {
  MaxIterations : Z;
  MaxConsecutiveErrors : Z;
  TerminateOnUnknown : bool;
  IncludeDetailedErrors : bool
}.

Definition DefaultInvocationConfig : InvocationConfig := mkConfig 40 3 false false.

(** The first two statements of [invokeFunctions]. *)
Definition withDefaults (config : InvocationConfig) : InvocationConfig :=
  mkConfig
    (if (MaxIterations config <=? 0)%Z then 40%Z else MaxIterations config)
    (if (MaxConsecutiveErrors config <=? 0)%Z then 3%Z else MaxConsecutiveErrors config)
    (TerminateOnUnknown config)
    (IncludeDetailedErrors config).

Record functionCall : Type := mkCall {
  callID : string;
  callName : string;
  callArguments : string
}.

Definition callsOfContents (cs : Contents) : list functionCall :=
  flat_map (fun c =>
              match c with
              | FunctionCallContent id name args => [mkCall id name args]
              | _ => []
              end) cs.

Definition extractFunctionCalls (resp : ChatResponse) : list functionCall :=
  flat_map (fun m => callsOfContents (msgContents m)) (Messages resp).

(** [resp.Messages = append(resp.Messages, Message{..ApprovalRequestContent..})] *)
Definition withApprovalRequest (resp : ChatResponse) (c : functionCall) : ChatResponse :=
  mkChatResponse
    (Messages resp ++
       [messageOf RoleAssistant
          [ApprovalRequestContent (callID c) (callName c) (callArguments c)]])
    (ResponseID resp) (ConversationID resp) (ModelID resp) (CreatedAt resp)
    (respFinishReason resp) (Usage resp) (Extra resp) (Raw resp).

(** What a run does that an observer outside can count: the calls to the
    backend and the tool invocations, in order. The log is not a variable of
    the Go code. *)
Inductive Event : Type :=
| BackendCall (messages : list Message)
| ToolInvocation (name arguments : string).

Definition isBackendCall (e : Event) : bool :=
  match e with BackendCall _ => true | ToolInvocation _ _ => false end.

Definition isToolInvocation (e : Event) : bool :=
  match e with ToolInvocation _ _ => true | BackendCall _ => false end.

Definition backendCalls (log : list Event) : nat :=
  length (List.filter isBackendCall log).

Definition toolInvocations (log : list Event) : nat :=
  length (List.filter isToolInvocation log).

Section Loop.

Context {World : Type}.

(** [ChatClient.Response] *)
Definition ChatClient : Type :=
  list Message -> @ChatOptions World -> World -> World * (ChatResponse + ForeignError).

Definition invokeToolWithMiddleware (tool : @Tool World) (args : string)
    (mws : list (@FunctionMiddleware World)) : World -> World * (Any + ForeignError) :=
  let handler : FunctionHandler := fun t a => toolInvoke t a in
  chainFunctionMiddleware handler mws tool args.

(** [toolMap]: a later tool of the same name replaces an earlier one. *)
Definition buildToolMap (tools : list (@Tool World)) : gmap string (@Tool World) :=
  fold_left (fun m t => <[toolName t := t]> m) tools ∅.

(** The variables of the loop that outlive one iteration, the world and the
    log. *)
Record LoopState : Type := mkLoopState {
  messages : list Message;
  consecutiveErrors : Z;
  world : World;
  log : list Event
}.

(** How the processing of one response's calls ends. *)
Inductive BatchOutcome : Type :=
| Completed (resultMessages : list Message) (errors : Z) (w : World) (l : list Event)
| ReturnedEarly (resp : ChatResponse) (errors : Z) (w : World) (l : list Event)
| Failed (err : GoError) (errors : Z) (w : World) (l : list Event).

Variable config : InvocationConfig.
Variable fnMiddleware : list (@FunctionMiddleware World).
Variable toolMap : gmap string (@Tool World).

(** The body of [for _, call := range calls] on the calls still to do. *)
Fixpoint processCalls (resp : ChatResponse) (calls : list functionCall)
    (resultMessages : list Message) (errors : Z) (w : World) (l : list Event)
  : BatchOutcome :=
  match calls with
  | [] => Completed resultMessages errors w l
  | call :: rest =>
      match toolMap !! callName call with
      | None =>
          if TerminateOnUnknown config
          then Failed (UnknownTool (callName call)) errors w l
          else processCalls resp rest
                 (resultMessages ++
                    [NewToolMessage (callID call) (AnyString "error: unknown tool")])
                 (errors + 1)%Z w l
      | Some tool =>
          if String.eqb (toolApproval tool) ApprovalAlways
          then ReturnedEarly (withApprovalRequest resp call) errors w l
          else if toolDeclarationOnly tool
          then ReturnedEarly resp errors w l
          else
            let (w1, r) :=
              invokeToolWithMiddleware tool (callArguments call) fnMiddleware w in
            let l1 := l ++ [ToolInvocation (callName call) (callArguments call)] in
            match r with
            | inr invokeErr =>
                let errors1 := (errors + 1)%Z in
                if (MaxConsecutiveErrors config <=? errors1)%Z
                then Failed (MaxConsecutiveErrorsReached errors1) errors1 w1 l1
                else
                  let errMsg :=
                    if IncludeDetailedErrors config
                    then foreignText invokeErr
                    else "error invoking tool" in
                  processCalls resp rest
                    (resultMessages ++ [NewToolMessage (callID call) (AnyString errMsg)])
                    errors1 w1 l1
            | inl result =>
                processCalls resp rest
                  (resultMessages ++ [NewToolMessage (callID call) result])
                  0%Z w1 l1
            end
      end
  end.

(** The three ways a call is dispatched, read off the registry. *)
Definition requiresApproval (t : @Tool World) : bool :=
  String.eqb (toolApproval t) ApprovalAlways.

Definition isUnknown (c : functionCall) : bool :=
  match toolMap !! callName c with None => true | Some _ => false end.

Definition isNormalName (name : string) : bool :=
  match toolMap !! name with
  | Some t => negb (requiresApproval t) && negb (toolDeclarationOnly t)
  | None => false
  end.

Definition isNormal (c : functionCall) : bool := isNormalName (callName c).

(** The event is the invocation of a registered tool that needs no approval
    and is not declaration-only. *)
Definition invokesNormalTool (ev : Event) : bool :=
  match ev with
  | ToolInvocation name _ => isNormalName name
  | BackendCall _ => false
  end.


Definition outcomeLog (o : BatchOutcome) : list Event :=
  match o with
  | Completed _ _ _ l | ReturnedEarly _ _ _ l | Failed _ _ _ l => l
  end.

Variable client : ChatClient.
Variable opts : @ChatOptions World.

(** How [invokeFunctions] returns: the pair it returns, and the loop
    variables, the world and the log at that point. *)
Record Exit : Type := mkExit {
  returned : ChatResponse + GoError;
  finalState : LoopState
}.

(** One turn of [for iteration := 0; iteration < config.MaxIterations;
    iteration++]: the next loop state, or the return. *)
Definition iteration (st : LoopState) : LoopState + Exit :=
  let (w1, r) := client (messages st) opts (world st) in
  let l1 := log st ++ [BackendCall (messages st)] in
  match r with
  | inr err =>
      inr (mkExit (inr (Foreign err))
             (mkLoopState (messages st) (consecutiveErrors st) w1 l1))
  | inl resp =>
      let calls := extractFunctionCalls resp in
      if (length calls =? 0)%nat
      then inr (mkExit (inl resp)
                  (mkLoopState (messages st) (consecutiveErrors st) w1 l1))
      else
        match processCalls resp calls [] (consecutiveErrors st) w1 l1 with
        | Failed err errors w2 l2 =>
            inr (mkExit (inr err) (mkLoopState (messages st) errors w2 l2))
        | ReturnedEarly resp' errors w2 l2 =>
            inr (mkExit (inl resp') (mkLoopState (messages st) errors w2 l2))
        | Completed resultMessages errors w2 l2 =>
            inl (mkLoopState (messages st ++ Messages resp ++ resultMessages)
                   errors w2 l2)
        end
  end.

(** The loop with [n] iterations left. *)
Fixpoint iterations (n : nat) (st : LoopState) : Exit :=
  match n with
  | O => mkExit (inr (MaxIterationsReached (MaxIterations config))) st
  | S n' =>
      match iteration st with
      | inl st' => iterations n' st'
      | inr e => e
      end
  end.

(** The loop state at the start of iteration [i] (counted from 0), if the
    loop gets there. *)
Fixpoint stateBefore (i : nat) (st : LoopState) : option LoopState :=
  match i with
  | O => Some st
  | S j =>
      match stateBefore j st with
      | Some st' =>
          match iteration st' with
          | inl st'' => Some st''
          | inr _ => None
          end
      | None => None
      end
  end.


(** A backend that, whatever it is sent, asks for at least one call, all
    of them to names that are not registered. *)
Definition asksUnknownTools : Prop :=
  forall msgs w, exists w1 resp,
    client msgs opts w = (w1, inl resp)
    /\ extractFunctionCalls resp <> []
    /\ forallb (isUnknown) (extractFunctionCalls resp) = true.

End Loop.

Definition invokeFunctions {World : Type} (client : @ChatClient World)
    (msgs : list Message) (opts : @ChatOptions World) (config : InvocationConfig)
    (fnMiddleware : list (@FunctionMiddleware World)) (w : World) : @Exit World :=
  let config := withDefaults config in
  let toolMap := buildToolMap (optTools opts) in
  iterations config fnMiddleware toolMap client opts
    (Z.to_nat (MaxIterations config))
    (mkLoopState msgs 0%Z w []).

(** The loop state [invokeFunctions] starts from, and the state at the
    start of its iteration [i]. *)
Definition initialState {World : Type} (msgs : list Message) (w : World)
  : @LoopState World := mkLoopState msgs 0%Z w [].

Definition stateAt {World : Type} (client : @ChatClient World)
    (msgs : list Message) (opts : @ChatOptions World) (config : InvocationConfig)
    (fnMiddleware : list (@FunctionMiddleware World)) (w : World) (i : nat)
  : option (@LoopState World) :=
  stateBefore (withDefaults config) fnMiddleware (buildToolMap (optTools opts))
    client opts i (initialState msgs w).

(** ** Concrete inputs used in Part II *)

Definition textUpdate (role : Role) (text : string) : ChatResponseUpdate :=
  mkUpdate [TextContent text] role "" "" "" "" zeroUsage AnyNil.

(** The three updates of [TestChatResponseFromUpdates]. *)
Definition helloUpdates : list ChatResponseUpdate :=
  [ mkUpdate [TextContent "Hello, "] RoleAssistant "resp-1" "" "" "" zeroUsage AnyNil;
    mkUpdate [TextContent "world!"] "" "" "" "" "" zeroUsage AnyNil;
    mkUpdate [] "" "" "" "" FinishReasonStop (mkUsage 5 3 8) AnyNil ].

(** Two updates of which only the second names a role. *)
Definition lateRoleUpdates : list ChatResponseUpdate :=
  [ textUpdate "" "a"; textUpdate RoleUser "b" ].

(** The two recording middleware of [TestChainMiddleware_ExecutionOrder]: the
    world is the slice [order]. *)
Definition recording (name : string) : (list string -> list string) * (list string -> list string) :=
  (fun order => order ++ [String.append name "-before"],
   fun order => order ++ [String.append name "-after"]).

Definition recordingCore : @AgentHandler (list string) :=
  fun _ order => (order ++ ["core"], inl (mkAgentResponse [] "" "" zeroUsage ∅ AnyNil)).

(** A tool that does nothing, for the examples that only look at names. *)
Definition plainTool {World : Type} (name description : string) : @Tool World :=
  mkTool name description "{}" (fun _ w => (w, inl AnyNil)) false "".

(** An agent and a run that both bring a tool named [search]. *)
Definition searchAgent : @Agent unit :=
  mkAgent "You are helpful." [plainTool "search" "agent default"] None.

Definition searchRun : @runConfig unit :=
  mkRunConfig [plainTool "search" "per call"] None.

(** *** Runs of the loop

    The world of these runs is the number of backend calls made so far, as
    the [callCount] of the tests' mock client. *)

(** [{"a":3,"b":4}] *)
Definition quoteChar : string := String (Ascii.ascii_of_nat 34) EmptyString.

Definition addArguments : string :=
  String.concat ""
    ["{"; quoteChar; "a"; quoteChar; ":3,"; quoteChar; "b"; quoteChar; ":4}"].

Definition requestOf (calls : list functionCall) : ChatResponse :=
  mkChatResponse
    [messageOf RoleAssistant
       (List.map (fun c => FunctionCallContent (callID c) (callName c) (callArguments c))
          calls)]
    "" "" "" "" "" zeroUsage ∅ AnyNil.

Definition answerOf (text : string) : ChatResponse :=
  mkChatResponse [NewAssistantMessage text] "" "" "" "" "" zeroUsage ∅ AnyNil.

(** The tool [add] of [TestAgent_WithToolInvocation], on the arguments of
    that test. *)
Definition addTool : @Tool nat :=
  mkTool "add" "Adds two numbers" "{}"
    (fun args n =>
       if String.eqb args addArguments
       then (n, inl (AnyInt 7))
       else (n, inr (mkForeign "invalid arguments" [ErrToolExecution])))
    false "".

(** A tool that fails whenever it is invoked. *)
Definition flakyTool : @Tool nat :=
  mkTool "flaky" "Always fails" "{}"
    (fun _ n => (n, inr (mkForeign "boom" [])))
    false ApprovalNever.

(** A tool that needs approval and a declaration-only tool. *)
Definition deployTool : @Tool nat :=
  mkTool "deploy" "Does risky things" "{}"
    (fun _ n => (n, inl AnyNil)) false ApprovalAlways.

Definition lookupTool : @Tool nat :=
  mkTool "lookup" "Declaration only" "{}"
    (fun _ n => (n, inr (mkForeign "tool is declaration-only and cannot be invoked"
                           [ErrToolExecution])))
    true "".

Definition toolOptions (tools : list (@Tool nat)) : @ChatOptions nat :=
  withTools emptyOptions tools.

(** The backend of [TestAgent_WithToolInvocation]: a call to [add] first,
    the answer afterwards. *)
Definition calcClient : @ChatClient nat :=
  fun _ _ n =>
    (S n,
     inl (if (n =? 0)%nat
          then requestOf [mkCall "call-1" "add" addArguments]
          else answerOf "The answer is 7.")).

(** A backend that asks for the same calls at every turn. *)
Definition insistingClient (calls : list functionCall) : @ChatClient nat :=
  fun _ _ n => (S n, inl (requestOf calls)).

Definition askMessages : list Message := [NewUserMessage "What is 3+4?"].

(* ===================================================================== *)
(** * Part I, continued. The rest of the package                          *)
(* ===================================================================== *)

(** ** Text accessors and agent responses *)

(** [ChatResponseUpdate.Text] *)
Definition updateText (u : ChatResponseUpdate) : string :=
  contentsText (updContents u).

(** [AgentResponse.Text] *)
Definition agentResponseText (r : AgentResponse) : string :=
  fold_right (fun m acc => String.append (messageText m) acc) "" (arMessages r).

Record AgentResponseUpdate : Type := mkAgentUpdate {
  auContents : Contents;
  auRole : Role;
  auAgentID : string;
  auResponseID : string;
  auUsage : UsageDetails;
  auRaw : Any
}.

(** [AgentResponseUpdate.Text] *)
Definition agentUpdateText (u : AgentResponseUpdate) : string :=
  contentsText (auContents u).

(** [&AgentResponse{}] *)
Definition emptyAgentResponse : AgentResponse :=
  mkAgentResponse [] "" "" zeroUsage ∅ AnyNil.

(** The body of the loop of [AgentResponseFromUpdates]. *)
Definition absorbAgentUpdate (st : AgentResponse * Contents) (u : AgentResponseUpdate)
  : AgentResponse * Contents :=
  let (resp, allContents) := st in
  let allContents := allContents ++ auContents u in
  let aid := if isEmpty (auAgentID u) then arAgentID resp else auAgentID u in
  let rid := if isEmpty (auResponseID u) then arResponseID resp else auResponseID u in
  let usg := if (0 <? TotalTokens (auUsage u))%Z then auUsage u else arUsage resp in
  (mkAgentResponse (arMessages resp) rid aid usg (arExtra resp) (arRaw resp),
   allContents).

Definition AgentResponseFromUpdates (updates : list AgentResponseUpdate)
  : AgentResponse :=
  let (resp, allContents) := fold_left absorbAgentUpdate updates (emptyAgentResponse, []) in
  let merged := mergeContentDeltas allContents in
  if (0 <? length merged)%nat then
    let role :=
      match updates with
      | u0 :: _ => if isEmpty (auRole u0) then RoleAssistant else auRole u0
      | [] => RoleAssistant
      end in
    mkAgentResponse [messageOf role merged] (arResponseID resp) (arAgentID resp)
      (arUsage resp) (arExtra resp) (arRaw resp)
  else resp.

(** The function [Agent.RunStream] maps over the backend's stream; [agentID]
    is [a.id]. *)
Definition toAgentUpdate (agentID : string) (u : ChatResponseUpdate)
  : AgentResponseUpdate :=
  mkAgentUpdate (updContents u) (updRole u) agentID (updResponseID u)
    (updUsage u) (updRaw u).

(** The [AgentResponse] the handler of [Agent.buildHandler] makes of the
    chat response; [agentID] is [a.id]. *)
Definition agentResponseOf (agentID : string) (r : ChatResponse) : AgentResponse :=
  mkAgentResponse (Messages r) (ResponseID r) agentID (Usage r) (Extra r) (Raw r).

(** ** Content types *)

Definition ContentType : Type := string.
Definition ContentTypeText : ContentType := "text".
Definition ContentTypeTextReasoning : ContentType := "reasoning".
Definition ContentTypeData : ContentType := "data".
Definition ContentTypeURI : ContentType := "uri".
Definition ContentTypeError : ContentType := "error".
Definition ContentTypeFunctionCall : ContentType := "functionCall".
Definition ContentTypeFunctionResult : ContentType := "functionResult".
Definition ContentTypeUsage : ContentType := "usage".
Definition ContentTypeHostedFile : ContentType := "hostedFile".
Definition ContentTypeHostedVectorStore : ContentType := "hostedVectorStore".
Definition ContentTypeCodeInterpreterCall : ContentType := "codeInterpreterToolCall".
Definition ContentTypeCodeInterpreterResult : ContentType := "codeInterpreterToolResult".
Definition ContentTypeImageGenCall : ContentType := "imageGenerationToolCall".
Definition ContentTypeImageGenResult : ContentType := "imageGenerationToolResult".
Definition ContentTypeMCPServerCall : ContentType := "mcpServerToolCall".
Definition ContentTypeMCPServerResult : ContentType := "mcpServerToolResult".
Definition ContentTypeApprovalRequest : ContentType := "functionApprovalRequest".
Definition ContentTypeApprovalResponse : ContentType := "functionApprovalResponse".

(** The method [Type] of the eighteen content types. *)
Definition contentType (c : Content) : ContentType :=
  match c with
  | TextContent _ => ContentTypeText
  | TextReasoningContent _ => ContentTypeTextReasoning
  | DataContent _ _ => ContentTypeData
  | URIContent _ _ => ContentTypeURI
  | ErrorContent _ _ _ => ContentTypeError
  | FunctionCallContent _ _ _ => ContentTypeFunctionCall
  | FunctionResultContent _ _ => ContentTypeFunctionResult
  | UsageContent _ => ContentTypeUsage
  | HostedFileContent _ => ContentTypeHostedFile
  | HostedVectorStoreContent _ => ContentTypeHostedVectorStore
  | CodeInterpreterCallContent _ _ => ContentTypeCodeInterpreterCall
  | CodeInterpreterResultContent _ _ => ContentTypeCodeInterpreterResult
  | ImageGenCallContent _ _ => ContentTypeImageGenCall
  | ImageGenResultContent _ _ => ContentTypeImageGenResult
  | MCPServerCallContent _ _ _ => ContentTypeMCPServerCall
  | MCPServerResultContent _ _ => ContentTypeMCPServerResult
  | ApprovalRequestContent _ _ _ => ContentTypeApprovalRequest
  | ApprovalResponseContent _ _ _ => ContentTypeApprovalResponse
  end.

(** [AgentResponse.UserInputRequests] *)
Definition UserInputRequests (r : AgentResponse) : list Content :=
  flat_map (fun m =>
              List.filter (fun c => String.eqb (contentType c) ContentTypeApprovalRequest)
                (msgContents m))
    (arMessages r).

(** ** Messages *)

(** The loop of [PrependInstructions] that looks for a system message. *)
Definition hasSystemMessage (msgs : list Message) : bool :=
  existsb (fun m => String.eqb (msgRole m) RoleSystem) msgs.

Definition PrependInstructions (msgs : list Message) (instructions : string)
  : list Message :=
  if isEmpty instructions then msgs
  else if hasSystemMessage msgs then msgs
  else NewSystemMessage instructions :: msgs.

(** The shape of the content sequence [mergeContentDeltas] returns: no text
    item is empty and no two text items are adjacent. *)
Fixpoint collapsed (cs : Contents) : bool :=
  match cs with
  | [] => true
  | TextContent t :: rest =>
      negb (isEmpty t)
      && match rest with TextContent _ :: _ => false | _ => true end
      && collapsed rest
  | _ :: rest => collapsed rest
  end.

(** ** The tool merge of [MergeChatOptions], without maps *)

Section ToolMergeSpec.

Context {World : Type}.

Definition hasName (name : string) (ts : list (@Tool World)) : bool :=
  existsb (fun t => String.eqb (toolName t) name) ts.

(** The last tool of [ts] that is named [name]. *)
Fixpoint lastNamed (name : string) (ts : list (@Tool World)) : option (@Tool World) :=
  match ts with
  | [] => None
  | t :: rest =>
      match lastNamed name rest with
      | Some x => Some x
      | None => if String.eqb (toolName t) name then Some t else None
      end
  end.

(** The tool [t], replaced by the last tool of its name in [l] if there is
    one. *)
Definition latest (l : list (@Tool World)) (t : @Tool World) : @Tool World :=
  default t (lastNamed (toolName t) l).

(** Each base tool, in place, replaced by the last tool of its name among the
    base tools followed by the override tools; then the override tools whose
    name no base tool has. With no override tool, the base tools as they
    are. *)
Definition replaceAndAppend (base over : list (@Tool World)) : list (@Tool World) :=
  match over with
  | [] => base
  | _ =>
      List.map (fun t => default t (lastNamed (toolName t) (base ++ over))) base
      ++ List.filter (fun t => negb (hasName (toolName t) base)) over
  end.

End ToolMergeSpec.

(** ** Reading a run of the loop *)

(** The message is the tool message that answers the call: tool role, one
    function-result item with the call's id. *)
Definition answers (c : functionCall) (m : Message) : Prop :=
  exists result,
    m = mkMessage "tool" [FunctionResultContent (callID c) result] "" "" ∅ AnyNil.

(** What a run that starts from [msgs] may log: a backend call that sends
    [msgs] followed by more, or the invocation of a registered tool that
    needs no approval and is not declaration-only. *)
Definition allowedEvent {World : Type} (toolMap : gmap string (@Tool World))
    (msgs : list Message) (ev : Event) : Prop :=
  match ev with
  | BackendCall ms => exists more, ms = msgs ++ more
  | ToolInvocation name _ =>
      exists t, toolMap !! name = Some t
                /\ requiresApproval t = false
                /\ toolDeclarationOnly t = false
  end.

(** ** The in-memory store and the update of the session *)

(** The [InMemoryStore] objects of the program: a reference is a key, the
    object is its [messages]. *)
Abbreviation Stores := (gmap nat (list Message)).

(** [s.messages] of the object behind [r]. *)
Definition storedMessages (r : nat) (h : Stores) : list Message :=
  default [] (h !! r).

(** [NewInMemoryStore()]: a new object, with no message. *)
Definition NewInMemoryStore (h : Stores) : Stores * nat :=
  let r := fresh (dom h) in (<[r := []]> h, r).

(** [InMemoryStore.ListMessages]: a copy of the messages, and no error. *)
Definition ListMessages (r : nat) (h : Stores) : list Message + ForeignError :=
  inl (storedMessages r h).

(** [InMemoryStore.AddMessages] *)
Definition AddMessages (r : nat) (msgs : list Message) (h : Stores)
  : Stores * option ForeignError :=
  (<[r := storedMessages r h ++ msgs]> h, None).

(** The two [AddMessages] calls that end [updateSession]. *)
Definition persist (r : nat) (request : list Message) (resp : ChatResponse)
    (h : Stores) : Stores * option GoError :=
  match AddMessages r request h with
  | (h1, Some err) => (h1, Some (Foreign err))
  | (h1, None) =>
      match AddMessages r (Messages resp) h1 with
      | (h2, Some err) => (h2, Some (Foreign err))
      | (h2, None) => (h2, None)
      end
  end.

(** [Agent.updateSession], for an agent with no store factory
    ([a.messageStoreFactory == nil]) and sessions whose stores are in-memory
    stores: the stores and the session it leaves, and the error. *)
Definition updateSession (session : Session) (request : list Message)
    (resp : ChatResponse) (h : Stores) : Stores * Session * option GoError :=
  match store session with
  | Some r =>
      let (h1, err) := persist r request resp h in (h1, session, err)
  | None =>
      if negb (isEmpty (ConversationID resp))
      then
        let (s1, err) := SetServiceID (ConversationID resp) session in (h, s1, err)
      else
        let (h1, r) := NewInMemoryStore h in
        match SetStore (Some r) session with
        | (s1, Some err) => (h1, s1, Some err)
        | (s1, None) =>
            let (h2, err) := persist r request resp h1 in (h2, s1, err)
        end
  end.

(** The session is in at most one mode, and a service id locks it. *)
Definition oneMode (s : Session) : bool :=
  (isNil (store s) || isEmpty (serviceID s))
  && (isEmpty (serviceID s) || modeLocked s).

(** The messages a later [ListMessages] of the session's store returns. *)
Definition history (s : Session) (h : Stores) : list Message :=
  match store s with
  | Some r => storedMessages r h
  | None => []
  end.

(** ** Session ids *)

(** One digit of [%x]. *)
Definition hexDigit (n : Z) : string :=
  match n with
  | 0 => "0" | 1 => "1" | 2 => "2" | 3 => "3" | 4 => "4" | 5 => "5" | 6 => "6"
  | 7 => "7" | 8 => "8" | 9 => "9" | 10 => "a" | 11 => "b" | 12 => "c"
  | 13 => "d" | 14 => "e" | _ => "f"
  end%Z.

(** [%x] of a byte, and of a byte slice: two digits per byte. *)
Definition hexByte (b : Z) : string :=
  String.append (hexDigit (b / 16)) (hexDigit (b mod 16)).

Definition hexBytes (bs : list Z) : string :=
  fold_right (fun b s => String.append (hexByte b) s) "" bs.

(** [b[i:j]] *)
Definition slice (i j : nat) (b : list Z) : list Z := take (j - i) (drop i b).

(** [newUUID], on the 16 bytes [rand.Read] left in [b]. *)
Definition newUUID (random : list Z) : string :=
  let b := random in
  let b := <[6%nat := Z.lor (Z.land (nth 6 b 0%Z) 15) 64]> b in
  let b := <[8%nat := Z.lor (Z.land (nth 8 b 0%Z) 63) 128]> b in
  (hexBytes (slice 0 4 b) ++ "-" ++ hexBytes (slice 4 6 b) ++ "-"
   ++ hexBytes (slice 6 8 b) ++ "-" ++ hexBytes (slice 8 10 b) ++ "-"
   ++ hexBytes (slice 10 16 b))%string.

(** The character at index [i], as a string. *)
Definition charAt (i : nat) (s : string) : string := substring i 1 s.

Definition isHexDigit (c : string) : bool :=
  existsb (String.eqb c)
    ["0"; "1"; "2"; "3"; "4"; "5"; "6"; "7"; "8"; "9"; "a"; "b"; "c"; "d"; "e"; "f"].

Definition isByte (b : Z) : Prop := (0 <= b < 256)%Z.

(** ** Function tools *)

Section FunctionTools.

Context {World : Type}.

(** [strconv.Quote], the [%q] of [ToolError.Error]. *)
Variable quoted : string -> string.

(** [FunctionTool]; [ftFn = None] is a nil [fn]. *)
Record FunctionTool : Type := mkFunctionTool {
  ftName : string;
  ftDescription : string;
  ftParameters : string;
  ftFn : option (string -> World -> World * (Any + ForeignError));
  ftDeclarationOnly : bool;
  ftApprovalMode : ApprovalMode;
  ftMaxInvocations : Z
}.

(** The options of the package. The fields of [FunctionTool] are not
    exported, so these are the options a caller can pass. *)
Inductive ToolOption : Type :=
| WithApprovalRequired
| WithDeclarationOnly
| WithMaxInvocations (n : Z).

Definition applyToolOption (t : FunctionTool) (opt : ToolOption) : FunctionTool :=
  match opt with
  | WithApprovalRequired =>
      mkFunctionTool (ftName t) (ftDescription t) (ftParameters t) (ftFn t)
        (ftDeclarationOnly t) ApprovalAlways (ftMaxInvocations t)
  | WithDeclarationOnly =>
      mkFunctionTool (ftName t) (ftDescription t) (ftParameters t) (ftFn t)
        true (ftApprovalMode t) (ftMaxInvocations t)
  | WithMaxInvocations n =>
      mkFunctionTool (ftName t) (ftDescription t) (ftParameters t) (ftFn t)
        (ftDeclarationOnly t) (ftApprovalMode t) n
  end.

Definition NewTool (name description parameters : string)
    (fn : option (string -> World -> World * (Any + ForeignError)))
    (opts : list ToolOption) : FunctionTool :=
  fold_left applyToolOption opts
    (mkFunctionTool name description parameters fn false "" 0%Z).

(** [(&ToolError{ToolName, Message, Err: ErrToolExecution})], by its text and
    what [errors.Is] finds in it. *)
Definition ToolError (toolName message : string) : ForeignError :=
  mkForeign (String.append "tool "
               (String.append (quoted toolName) (String.append ": " message)))
    [ErrToolExecution].

(** [FunctionTool.Invoke] *)
Definition Invoke (t : FunctionTool) (args : string) (w : World)
  : World * (Any + ForeignError) :=
  match ftFn t with
  | None =>
      (w, inr (ToolError (ftName t) "tool is declaration-only and cannot be invoked"))
  | Some fn => fn args w
  end.

(** The [Tool] interface value a [*FunctionTool] is. *)
Definition asTool (t : FunctionTool) : @Tool World :=
  mkTool (ftName t) (ftDescription t) (ftParameters t) (Invoke t)
    (ftDeclarationOnly t) (ftApprovalMode t).

Definition isApprovalOption (opt : ToolOption) : bool :=
  match opt with WithApprovalRequired => true | _ => false end.

Definition isDeclarationOption (opt : ToolOption) : bool :=
  match opt with WithDeclarationOnly => true | _ => false end.

End FunctionTools.

(** [strconv.Quote] of a string that needs no escape. *)
Definition plainQuote (s : string) : string :=
  String.append quoteChar (String.append s quoteChar).

(** ** Sessions made by the agent *)

(** [Agent.NewSession], for an agent with no store factory; [random] is what
    [rand.Read] leaves for the id. The context provider it attaches is not
    part of the [Session] fields modelled here. *)
Definition AgentNewSession (random : list Z) (h : Stores) : Stores * Session :=
  let (h1, r) := NewInMemoryStore h in
  (h1, WithSessionStore (Some r) (NewSession (newUUID random))).

(* ===================================================================== *)
(** * Part II. Properties                                                 *)
(* ===================================================================== *)

(** ** Strings *)

#[local] Arguments String.append : simpl nomatch.

Lemma append_empty_r (s : string) : String.append s "" = s.
Proof. induction s as [|c s IH]; simpl; [reflexivity | now rewrite IH]. Qed.

Lemma append_assoc (a b c : string) :
  String.append (String.append a b) c = String.append a (String.append b c).
Proof. induction a as [|x a IH]; simpl; [reflexivity | now rewrite IH]. Qed.

Lemma isEmpty_true (s : string) : isEmpty s = true -> s = "".
Proof. destruct s; simpl; [reflexivity | discriminate]. Qed.

Lemma isEmpty_append (a b : string) :
  isEmpty (String.append a b) = isEmpty a && isEmpty b.
Proof. destruct a; reflexivity. Qed.

Lemma length_positive (s : string) : (0 <? String.length s)%nat = negb (isEmpty s).
Proof. destruct s; reflexivity. Qed.

(** ** The merge of streaming updates *)

Lemma consText_empty (r : Contents) : consText "" r = r.
Proof. destruct r as [|[] r]; reflexivity. Qed.

Lemma consText_append (a b : string) (r : Contents) :
  consText (String.append a b) r = consText a (consText b r).
Proof.
  destruct r as [|c r].
  - simpl. rewrite isEmpty_append.
    destruct (isEmpty b) eqn:Eb.
    + apply isEmpty_true in Eb. subst b. rewrite append_empty_r, andb_true_r.
      reflexivity.
    + rewrite andb_false_r. reflexivity.
  - destruct c; simpl;
      try (rewrite isEmpty_append;
           destruct (isEmpty b) eqn:Eb;
           [ apply isEmpty_true in Eb; subst b;
             rewrite append_empty_r, andb_true_r; reflexivity
           | rewrite andb_false_r; reflexivity ]).
    now rewrite append_assoc.
Qed.

Lemma flush_consText (m : Contents) (b : string) :
  flush (m, b) = (m ++ consText b [], "").
Proof.
  unfold flush. rewrite length_positive. simpl.
  destruct (isEmpty b) eqn:Eb; simpl.
  - apply isEmpty_true in Eb. subst b. now rewrite app_nil_r.
  - reflexivity.
Qed.

(** The loop of [mergeContentDeltas], from any state of its two variables. *)
Lemma mergeLoop_collapse (cs : Contents) :
  forall (m : Contents) (b : string),
    fst (flush (fold_left mergeStep cs (m, b))) = m ++ consText b (collapseRuns cs).
Proof.
  induction cs as [|c cs IH]; intros m b.
  - simpl fold_left. rewrite flush_consText. reflexivity.
  - simpl fold_left.
    destruct c;
      try (unfold mergeStep; rewrite flush_consText, IH, consText_empty;
           simpl collapseRuns; rewrite <- !app_assoc; simpl;
           destruct (isEmpty b) eqn:Eb; simpl;
           [ apply isEmpty_true in Eb; subst b; reflexivity | reflexivity ]).
    simpl mergeStep. rewrite IH. simpl collapseRuns.
    now rewrite consText_append.
Qed.

(** The code and the structural definition agree. *)
Lemma mergeContentDeltas_collapse (cs : Contents) :
  mergeContentDeltas cs = collapseRuns cs.
Proof.
  destruct cs as [|c cs]; [reflexivity|].
  unfold mergeContentDeltas. rewrite mergeLoop_collapse.
  simpl app. apply consText_empty.
Qed.

Lemma collapse_consText_app (t : string) (r b : Contents) :
  collapseRuns (consText t r ++ b) = consText t (collapseRuns (r ++ b)).
Proof.
  destruct r as [|c r].
  - simpl. destruct (isEmpty t) eqn:Et; simpl.
    + apply isEmpty_true in Et. subst t. now rewrite consText_empty.
    + reflexivity.
  - destruct c; simpl;
      try (destruct (isEmpty t) eqn:Et; simpl;
           [ apply isEmpty_true in Et; subst t; reflexivity
           | rewrite Et; reflexivity ]).
    now rewrite consText_append.
Qed.

Lemma collapse_app_l (a b : Contents) :
  collapseRuns (collapseRuns a ++ b) = collapseRuns (a ++ b).
Proof.
  induction a as [|c a IH]; [reflexivity|].
  destruct c; simpl; try (now rewrite IH).
  now rewrite collapse_consText_app, IH.
Qed.

Lemma collapse_idem (a : Contents) : collapseRuns (collapseRuns a) = collapseRuns a.
Proof.
  pose proof (collapse_app_l a []) as H. now rewrite !app_nil_r in H.
Qed.

Lemma collapse_app_r (a b : Contents) :
  collapseRuns (a ++ collapseRuns b) = collapseRuns (a ++ b).
Proof.
  induction a as [|c a IH]; simpl; [apply collapse_idem|].
  destruct c; simpl; now rewrite IH.
Qed.

Lemma collapse_app (a b : Contents) :
  collapseRuns (collapseRuns a ++ collapseRuns b) = collapseRuns (a ++ b).
Proof. now rewrite collapse_app_l, collapse_app_r. Qed.

(** *** Last value wins *)

Lemma last_cons {A : Type} (x d : A) (l : list A) :
  List.last (x :: l) d = List.last l x.
Proof.
  revert x d. induction l as [|y l IH]; intros x d; [reflexivity|].
  change (List.last (x :: y :: l) d) with (List.last (y :: l) d).
  now rewrite !IH.
Qed.

Lemma lastSuch_cons {A : Type} (keep : A -> bool) (d x : A) (l : list A) :
  lastSuch keep d (x :: l) = lastSuch keep (if keep x then x else d) l.
Proof.
  unfold lastSuch. simpl. destruct (keep x); [apply last_cons | reflexivity].
Qed.

Lemma lastSuch_app {A : Type} (keep : A -> bool) (d : A) (l1 l2 : list A) :
  lastSuch keep d (l1 ++ l2) = lastSuch keep (lastSuch keep d l1) l2.
Proof.
  revert d. induction l1 as [|x l1 IH]; intros d; [reflexivity|].
  simpl app. rewrite !lastSuch_cons. apply IH.
Qed.

(** The result is the default or an element that passes the test. *)
Lemma lastSuch_cases {A : Type} (keep : A -> bool) (d : A) (l : list A) :
  (lastSuch keep d l = d /\ List.filter keep l = [])
  \/ keep (lastSuch keep d l) = true.
Proof.
  revert d. induction l as [|x l IH]; intros d; [left; split; reflexivity|].
  rewrite lastSuch_cons. simpl. destruct (keep x) eqn:Ex.
  - right. destruct (IH x) as [[-> _]|H]; assumption.
  - destruct (IH d) as [H|H]; [left; exact H | right; exact H].
Qed.

Lemma lastSuch_default {A : Type} (keep : A -> bool) (d e : A) (l : list A) :
  keep d = false ->
  lastSuch keep e l = if keep (lastSuch keep d l) then lastSuch keep d l else e.
Proof.
  intros Hd. revert e. induction l as [|x l IH]; intros e.
  - unfold lastSuch. simpl. now rewrite Hd.
  - rewrite !lastSuch_cons. destruct (keep x) eqn:Ex.
    + destruct (lastSuch_cases keep x l) as [[-> _]|H]; [now rewrite Ex|].
      now rewrite H.
    + apply IH.
Qed.

(** Merging the two partial results, or the whole list: the same value. *)
Lemma lastSuch_split {A : Type} (keep : A -> bool) (d : A) (l1 l2 : list A) :
  keep d = false ->
  lastSuch keep d [lastSuch keep d l1; lastSuch keep d l2]
  = lastSuch keep d (l1 ++ l2).
Proof.
  intros Hd. rewrite lastSuch_app.
  rewrite (lastSuch_default keep d (lastSuch keep d l1) l2 Hd).
  rewrite !lastSuch_cons. unfold lastSuch at 1. simpl.
  destruct (keep (lastSuch keep d l2)) eqn:E2; [reflexivity|].
  destruct (lastSuch_cases keep d l1) as [[-> _]|H]; [now rewrite Hd|].
  now rewrite H.
Qed.

Lemma lastSuch_single {A : Type} (keep : A -> bool) (d : A) (l : list A) :
  keep d = false ->
  lastSuch keep d [lastSuch keep d l] = lastSuch keep d l.
Proof.
  intros Hd. rewrite lastSuch_cons. unfold lastSuch at 1. simpl.
  destruct (lastSuch_cases keep d l) as [[-> _]|H]; [now rewrite Hd|].
  now rewrite H.
Qed.

(** The loop of [ChatResponseFromUpdates], from any state. *)
Lemma absorb_fold (us : list ChatResponseUpdate) :
  forall (resp : ChatResponse) (cs : Contents),
    fold_left absorbUpdate us (resp, cs) =
    (mkChatResponse (Messages resp)
       (lastSuch nonEmpty (ResponseID resp) (List.map updResponseID us))
       (lastSuch nonEmpty (ConversationID resp) (List.map updConversationID us))
       (lastSuch nonEmpty (ModelID resp) (List.map updModelID us))
       (CreatedAt resp)
       (lastSuch nonEmpty (respFinishReason resp) (List.map updFinishReason us))
       (lastSuch hasTotal (Usage resp) (List.map updUsage us))
       (Extra resp) (Raw resp),
     cs ++ List.concat (List.map updContents us)).
Proof.
  induction us as [|u us IH]; intros resp cs.
  - simpl. rewrite app_nil_r. destruct resp; reflexivity.
  - simpl fold_left. rewrite IH. simpl.
    rewrite !lastSuch_cons, <- app_assoc. unfold nonEmpty, hasTotal.
    repeat match goal with |- context [isEmpty ?s] => destruct (isEmpty s) end;
      destruct (0 <? TotalTokens (updUsage u))%Z; reflexivity.
Qed.

Lemma responseContents_merge (us : list ChatResponseUpdate) :
  responseContents (ChatResponseFromUpdates us)
  = collapseRuns (List.concat (List.map updContents us)).
Proof.
  unfold ChatResponseFromUpdates. rewrite absorb_fold.
  rewrite mergeContentDeltas_collapse. simpl app.
  destruct (collapseRuns (List.concat (List.map updContents us))) as [|c m];
    simpl; [reflexivity|].
  unfold responseContents. simpl. now rewrite app_nil_r.
Qed.

(** What [collapseRuns] keeps: the text, and the other items in order. *)
Lemma collapseRuns_text (cs : Contents) :
  contentsText (collapseRuns cs) = contentsText cs.
Proof.
  induction cs as [|c cs IH]; [reflexivity|].
  destruct c; simpl; try exact IH.
  rewrite <- IH. destruct (collapseRuns cs) as [|[] r]; simpl;
    try (destruct (isEmpty Text) eqn:E;
         [apply isEmpty_true in E; subst; reflexivity | reflexivity]).
  now rewrite append_assoc.
Qed.

Lemma collapseRuns_others (cs : Contents) :
  List.filter (fun c => negb (isTextItem c)) (collapseRuns cs)
  = List.filter (fun c => negb (isTextItem c)) cs.
Proof.
  induction cs as [|c cs IH]; [reflexivity|].
  destruct c; simpl; try (now rewrite IH).
  rewrite <- IH. destruct (collapseRuns cs) as [|[] r]; simpl;
    try (destruct (isEmpty Text); reflexivity).
Qed.

(** The response [ChatResponseFromUpdates] builds, field by field. *)
Lemma merge_fields (updates : list ChatResponseUpdate) :
  ChatResponseFromUpdates updates =
    mkChatResponse
      (match collapseRuns (List.concat (List.map updContents updates)) with
       | [] => []
       | merged => [messageOf (leadingRole updates) merged]
       end)
      (lastSuch nonEmpty "" (List.map updResponseID updates))
      (lastSuch nonEmpty "" (List.map updConversationID updates))
      (lastSuch nonEmpty "" (List.map updModelID updates))
      ""
      (lastSuch nonEmpty "" (List.map updFinishReason updates))
      (lastSuch hasTotal zeroUsage (List.map updUsage updates))
      ∅ AnyNil.
Proof.
  unfold ChatResponseFromUpdates. rewrite absorb_fold.
  rewrite mergeContentDeltas_collapse. simpl app.
  destruct (collapseRuns (List.concat (List.map updContents updates)));
    reflexivity.
Qed.

(** C5 (as amended). For every sequence of updates, [ChatResponseFromUpdates]
    returns: the content items of all updates in arrival order with every run
    of adjacent text items collapsed into one text item (a run whose text is
    empty leaves none), in a single message whose role is that of the update
    at index 0 when it names one and assistant otherwise -- or no message at
    all when no content is left; for response id, conversation id, model id
    and finish reason the last non-empty value; for the usage that of the last
    update whose total is positive. The three updates of the example give one
    message, the text "Hello, world!", finish reason stop and 8 total
    tokens. *)
Theorem ChatResponseFromUpdates_merges (updates : list ChatResponseUpdate) :
  ChatResponseFromUpdates updates =
    mkChatResponse
      (match collapseRuns (List.concat (List.map updContents updates)) with
       | [] => []
       | merged => [messageOf (leadingRole updates) merged]
       end)
      (lastSuch nonEmpty "" (List.map updResponseID updates))
      (lastSuch nonEmpty "" (List.map updConversationID updates))
      (lastSuch nonEmpty "" (List.map updModelID updates))
      ""
      (lastSuch nonEmpty "" (List.map updFinishReason updates))
      (lastSuch hasTotal zeroUsage (List.map updUsage updates))
      ∅ AnyNil
  /\ (Messages (ChatResponseFromUpdates helloUpdates)
        = [messageOf RoleAssistant [TextContent "Hello, world!"]]
      /\ responseText (ChatResponseFromUpdates helloUpdates) = "Hello, world!"
      /\ respFinishReason (ChatResponseFromUpdates helloUpdates) = FinishReasonStop
      /\ TotalTokens (Usage (ChatResponseFromUpdates helloUpdates)) = 8%Z).
Proof.
  split; [apply merge_fields | repeat split; reflexivity].
Qed.

(** C5, the sentence as written fails: the role is not that of the first
    update that names one. Of two text updates only the second names a role
    (user); the merged message is an assistant message. *)
Lemma ChatResponseFromUpdates_role_not_first_specified :
  Messages (ChatResponseFromUpdates lateRoleUpdates)
    = [messageOf RoleAssistant [TextContent "ab"]]
  /\ firstSpecifiedRole lateRoleUpdates = RoleUser
  /\ Messages (ChatResponseFromUpdates lateRoleUpdates)
     <> [messageOf (firstSpecifiedRole lateRoleUpdates)
           (collapseRunsKeepEmpty
              (List.concat (List.map updContents lateRoleUpdates)))].
Proof.
  split; [reflexivity|]. split; [reflexivity|].
  vm_compute. discriminate.
Qed.

Lemma leadingRole_nonEmpty (us : list ChatResponseUpdate) :
  isEmpty (leadingRole us) = false.
Proof.
  destruct us as [|u us]; [reflexivity|].
  simpl. destruct (isEmpty (updRole u)) eqn:E; [reflexivity | exact E].
Qed.

(** C6. The merge is idempotent on a complete response: a response that is the
    result of a merge, fed back as a one-element sequence, merges to itself,
    and a single update whose content is already collapsed keeps its content
    items as they are. It is associative: for
    every sequence and every split point [k], merging the merge of the first
    [k] updates with the merge of the rest gives the content items, response
    id, conversation id, model id, finish reason and usage of the merge of the
    whole sequence. *)
Theorem merge_idempotent_associative (updates : list ChatResponseUpdate) (k : nat) :
  let whole := ChatResponseFromUpdates updates in
  let left := ChatResponseFromUpdates (firstn k updates) in
  let right := ChatResponseFromUpdates (skipn k updates) in
  let both := ChatResponseFromUpdates [updateOfResponse left; updateOfResponse right] in
  ChatResponseFromUpdates [updateOfResponse whole] = whole
  /\ mergeContentDeltas (responseContents whole) = responseContents whole
  /\ (forall u, collapseRuns (updContents u) = updContents u ->
                responseContents (ChatResponseFromUpdates [u]) = updContents u)
  /\ responseContents both = responseContents whole
  /\ ResponseID both = ResponseID whole
  /\ ConversationID both = ConversationID whole
  /\ ModelID both = ModelID whole
  /\ respFinishReason both = respFinishReason whole
  /\ Usage both = Usage whole.
Proof.
  intros whole left right both.
  assert (Hsplit : forall (A : Type) (f : ChatResponseUpdate -> A),
             List.map f updates
             = List.map f (firstn k updates) ++ List.map f (skipn k updates)).
  { intros A f. now rewrite <- List.map_app, firstn_skipn. }
  split; [|split; [|split; [|split]]].
  - subst whole.
    rewrite (merge_fields [updateOfResponse (ChatResponseFromUpdates updates)]).
    simpl List.map. simpl List.concat. rewrite app_nil_r.
    rewrite responseContents_merge, collapse_idem.
    rewrite (merge_fields updates). simpl.
    rewrite !lastSuch_single by reflexivity.
    destruct (collapseRuns (List.concat (List.map updContents updates))) eqn:Ec;
      [reflexivity|].
    simpl. now rewrite leadingRole_nonEmpty.
  - subst whole. rewrite mergeContentDeltas_collapse, responseContents_merge.
    apply collapse_idem.
  - intros u Hu. rewrite responseContents_merge. simpl. now rewrite app_nil_r.
  - subst both. rewrite responseContents_merge. simpl List.map. simpl List.concat.
    rewrite app_nil_r. subst left right whole. rewrite !responseContents_merge.
    rewrite collapse_app, <- List.concat_app, <- Hsplit. reflexivity.
  - subst both left right whole.
    rewrite (merge_fields
               [updateOfResponse (ChatResponseFromUpdates (firstn k updates));
                updateOfResponse (ChatResponseFromUpdates (skipn k updates))]).
    rewrite (merge_fields (firstn k updates)), (merge_fields (skipn k updates)),
      (merge_fields updates).
    simpl. rewrite !lastSuch_split by reflexivity.
    rewrite <- !Hsplit. repeat split; reflexivity.
Qed.

(** ** Middleware chains *)

Section ChainFacts.

Context {World : Type}.

Lemma nest_snoc {H : Type} (mws : list (H -> H)) (mw : H -> H) (core : H) :
  nest (mws ++ [mw]) core = nest mws (mw core).
Proof. unfold nest. now rewrite fold_right_app. Qed.

(** The countdown loop, stopped with [n] turns left, has wrapped the handler
    in the first [n] middleware. *)
Lemma chainFrom_take {H : Type} (mws : list (H -> H)) (n : nat) :
  n <= length mws ->
  forall handler : H, chainFrom mws n handler = nest (take n mws) handler.
Proof.
  induction n as [|i IH]; intros Hn handler; [reflexivity|].
  destruct (lookup_lt_is_Some_2 mws i) as [mw Hmw]; [lia|].
  simpl chainFrom. rewrite Hmw, (take_S_r _ _ _ Hmw), nest_snoc.
  apply IH. lia.
Qed.

Lemma chainFrom_nest {H : Type} (mws : list (H -> H)) (handler : H) :
  chainFrom mws (length mws) handler = nest mws handler.
Proof. rewrite chainFrom_take by lia. now rewrite firstn_all. Qed.

(** Hooks around a handler: pre-hooks in list order on the way in, post-hooks
    in reverse list order on the way out. *)
Lemma nest_hooked {H Args Res : Type} `{P : @Pipeline World H Args Res}
    (hooks : list ((World -> World) * (World -> World))) (core : H)
    (a : Args) :
  forall w : World,
    call (nest (List.map hooked hooks) core) a w =
    let (w1, r) := call core a (runPre hooks w) in (runPost hooks w1, r).
Proof.
  induction hooks as [|h hooks IH]; intros w.
  - simpl. now destruct (call core a w).
  - simpl List.map. unfold nest. simpl fold_right.
    fold (nest (List.map hooked hooks) core).
    unfold hooked at 1. rewrite call_make, IH.
    change (runPre (h :: hooks) w) with (runPre hooks (fst h w)).
    destruct (call core a (runPre hooks (fst h w))) as [w1 r].
    reflexivity.
Qed.

(** C7. For each of the three pipelines (agent, chat, function): chaining the
    list [m0; ..; mn] around a core handler gives [m0 (m1 (.. (mn core)))],
    chaining the empty list gives the core handler itself, and invoking a
    chain of hook-running middleware runs the pre-hooks in list order, then
    the core handler, then the post-hooks in reverse list order. *)
Theorem chain_first_is_outermost :
  (forall (core : @AgentHandler World) mws,
      chainAgentMiddleware core mws = nest mws core)
  /\ (forall (core : @ChatHandler World) mws,
         chainChatMiddleware core mws = nest mws core)
  /\ (forall (core : @FunctionHandler World) mws,
         chainFunctionMiddleware core mws = nest mws core)
  /\ (forall core : @AgentHandler World, chainAgentMiddleware core [] = core)
  /\ (forall core : @ChatHandler World, chainChatMiddleware core [] = core)
  /\ (forall core : @FunctionHandler World, chainFunctionMiddleware core [] = core)
  /\ (forall hooks (core : @AgentHandler World) req w,
         chainAgentMiddleware core (List.map hooked hooks) req w =
         let (w1, r) := core req (runPre hooks w) in (runPost hooks w1, r))
  /\ (forall hooks (core : @ChatHandler World) msgs o w,
         chainChatMiddleware core (List.map hooked hooks) msgs o w =
         let (w1, r) := core msgs o (runPre hooks w) in (runPost hooks w1, r))
  /\ (forall hooks (core : @FunctionHandler World) tool args w,
         chainFunctionMiddleware core (List.map hooked hooks) tool args w =
         let (w1, r) := core tool args (runPre hooks w) in (runPost hooks w1, r)).
Proof.
  repeat apply conj; intros.
  - apply chainFrom_nest.
  - apply chainFrom_nest.
  - apply chainFrom_nest.
  - reflexivity.
  - reflexivity.
  - reflexivity.
  - unfold chainAgentMiddleware, AgentMiddleware. rewrite chainFrom_nest.
    apply (nest_hooked (P := agentPipeline) hooks core req w).
  - unfold chainChatMiddleware, ChatMiddleware. rewrite chainFrom_nest.
    apply (nest_hooked (P := chatPipeline) hooks core (msgs, o) w).
  - unfold chainFunctionMiddleware, FunctionMiddleware. rewrite chainFrom_nest.
    apply (nest_hooked (P := functionPipeline) hooks core (tool, args) w).
Qed.

End ChainFacts.

(** The trace of the execution-order test, with three middleware. *)
Example chain_execution_order :
  fst (chainAgentMiddleware recordingCore
         (List.map hooked [recording "mw1"; recording "mw2"; recording "mw3"])
         (mkAgentRequest [NewUserMessage "hi"] None None) [])
  = ["mw1-before"; "mw2-before"; "mw3-before"; "core";
     "mw3-after"; "mw2-after"; "mw1-after"].
Proof. reflexivity. Qed.

(** ** The session mode lock *)

Lemma SetStore_keeps_local (st : MessageStore) (s : Session) :
  isNil st = false -> lockedLocal s = true ->
  lockedLocal (fst (SetStore st s)) = true.
Proof.
  unfold lockedLocal, SetStore. intros Hst Hs.
  destruct (modeLocked s && negb (isEmpty (serviceID s))); simpl;
    [exact Hs | now rewrite Hst].
Qed.

Lemma SetServiceID_fails_local (id : string) (s : Session) :
  lockedLocal s = true ->
  SetServiceID id s = (s, Some CannotSwitchToServiceMode).
Proof. unfold lockedLocal, SetServiceID. now intros ->. Qed.

Lemma SetServiceID_keeps_service (id : string) (s : Session) :
  isEmpty id = false -> lockedService s = true ->
  lockedService (fst (SetServiceID id s)) = true.
Proof.
  unfold lockedService, SetServiceID. intros Hid Hs.
  destruct (modeLocked s && negb (isNil (store s))); simpl;
    [exact Hs | now rewrite Hid].
Qed.

Lemma SetStore_fails_service (st : MessageStore) (s : Session) :
  lockedService s = true ->
  SetStore st s = (s, Some CannotSwitchToLocalMode).
Proof. unfold lockedService, SetStore. now intros ->. Qed.

(** Once in local mode, a sequence of proper operations stays there and all
    its attempts at service mode fail. *)
Lemma runOps_local (ops : list ModeOp) :
  forall s : Session,
    forallb properOp ops = true -> lockedLocal s = true ->
    lockedLocal (fst (runOps ops s)) = true
    /\ Forall (fun x => isSetServiceID (fst x) = true ->
                        isModeLockedError (snd x) = true)
         (snd (runOps ops s)).
Proof.
  induction ops as [|op ops IH]; intros s Hp Hs.
  - split; [exact Hs | constructor].
  - simpl in Hp. apply andb_prop in Hp. destruct Hp as [Hop Hops].
    simpl runOps.
    assert (H1 : lockedLocal (fst (applyOp op s)) = true
                 /\ (isSetServiceID op = true ->
                     isModeLockedError (snd (applyOp op s)) = true)).
    { destruct op as [id|st]; simpl.
      - rewrite SetServiceID_fails_local by exact Hs. split; [exact Hs|reflexivity].
      - split; [|discriminate]. apply SetStore_keeps_local; [|exact Hs].
        simpl in Hop. now destruct (isNil st). }
    destruct (applyOp op s) as [s1 r]. simpl in H1. destruct H1 as [Hs1 Hr].
    specialize (IH s1 Hops Hs1). destruct (runOps ops s1) as [s2 rs].
    simpl in *. destruct IH as [Hs2 Hrs]. split; [exact Hs2|].
    constructor; [exact Hr | exact Hrs].
Qed.

(** The same for service mode. *)
Lemma runOps_service (ops : list ModeOp) :
  forall s : Session,
    forallb properOp ops = true -> lockedService s = true ->
    lockedService (fst (runOps ops s)) = true
    /\ Forall (fun x => isSetStore (fst x) = true ->
                        isModeLockedError (snd x) = true)
         (snd (runOps ops s)).
Proof.
  induction ops as [|op ops IH]; intros s Hp Hs.
  - split; [exact Hs | constructor].
  - simpl in Hp. apply andb_prop in Hp. destruct Hp as [Hop Hops].
    simpl runOps.
    assert (H1 : lockedService (fst (applyOp op s)) = true
                 /\ (isSetStore op = true ->
                     isModeLockedError (snd (applyOp op s)) = true)).
    { destruct op as [id|st]; simpl.
      - split; [|discriminate]. apply SetServiceID_keeps_service; [|exact Hs].
        simpl in Hop. now destruct (isEmpty id).
      - rewrite SetStore_fails_service by exact Hs. split; [exact Hs|reflexivity]. }
    destruct (applyOp op s) as [s1 r]. simpl in H1. destruct H1 as [Hs1 Hr].
    specialize (IH s1 Hops Hs1). destruct (runOps ops s1) as [s2 rs].
    simpl in *. destruct IH as [Hs2 Hrs]. split; [exact Hs2|].
    constructor; [exact Hr | exact Hrs].
Qed.

(** What the lock does hold for. Take any session, in any state, and
    mode-setting operations that pass a non-nil store, respectively a
    non-empty service id. Once [SetStore] has succeeded the session is in
    local mode, stays there through every later operation, and every later
    [SetServiceID] fails with the mode-locked kind; once [SetServiceID] has
    succeeded the session is in service mode, stays there, and every later
    [SetStore] fails with the mode-locked kind. *)
Theorem session_mode_lock (s : Session) (first : ModeOp) (later : list ModeOp) :
  properOp first = true ->
  forallb properOp later = true ->
  snd (applyOp first s) = None ->
  let s1 := fst (applyOp first s) in
  match first with
  | OpSetStore _ =>
      lockedLocal s1 = true
      /\ lockedLocal (fst (runOps later s1)) = true
      /\ Forall (fun x => isSetServiceID (fst x) = true ->
                          isModeLockedError (snd x) = true)
           (snd (runOps later s1))
  | OpSetServiceID _ =>
      lockedService s1 = true
      /\ lockedService (fst (runOps later s1)) = true
      /\ Forall (fun x => isSetStore (fst x) = true ->
                          isModeLockedError (snd x) = true)
           (snd (runOps later s1))
  end.
Proof.
  intros Hfirst Hlater Hok s1.
  destruct first as [id|st]; simpl in *.
  - assert (H1 : lockedService s1 = true).
    { subst s1. unfold SetServiceID in *.
      destruct (modeLocked s && negb (isNil (store s))); [discriminate|].
      unfold lockedService. simpl. exact Hfirst. }
    split; [exact H1|]. apply runOps_service; assumption.
  - assert (H1 : lockedLocal s1 = true).
    { subst s1. unfold SetStore in *.
      destruct (modeLocked s && negb (isEmpty (serviceID s))); [discriminate|].
      unfold lockedLocal. simpl. exact Hfirst. }
    split; [exact H1|]. apply runOps_local; assumption.
Qed.

(** The sequence of [TestSessionDualMode_LocallyManaged], continued. *)
Lemma session_mode_lock_witness :
  let s1 := fst (applyOp (OpSetStore (Some 1%nat)) (WithSessionStore (Some 1%nat) (NewSession "s-1"))) in
  lockedLocal s1 = true
  /\ lockedLocal
       (fst (runOps [OpSetServiceID "thread-456"; OpSetStore (Some 2%nat);
                     OpSetServiceID "thread-789"] s1)) = true
  /\ Forall (fun x => isSetServiceID (fst x) = true ->
                      isModeLockedError (snd x) = true)
       (snd (runOps [OpSetServiceID "thread-456"; OpSetStore (Some 2%nat);
                     OpSetServiceID "thread-789"] s1)).
Proof.
  apply (session_mode_lock
           (WithSessionStore (Some 1%nat) (NewSession "s-1"))
           (OpSetStore (Some 1%nat))
           [OpSetServiceID "thread-456"; OpSetStore (Some 2%nat);
            OpSetServiceID "thread-789"]);
    reflexivity.
Defined.

(** C8. The lock does not hold for every sequence of operations, against
    what the comments of [Session] and of [ErrSessionModeLocked] say: a
    session locked into service mode by [SetServiceID("thread-1")] accepts
    [SetServiceID("")], after which [SetStore] returns no error and the
    session is in local mode; a session locked into local mode accepts
    [SetStore(nil)], after which [SetServiceID] returns no error. *)
Lemma session_mode_lock_erased :
  (let s1 := fst (SetServiceID "thread-1" (NewSession "s-1")) in
   let r := runOps [OpSetServiceID ""; OpSetStore (Some 1%nat)] s1 in
   lockedService s1 = true
   /\ List.map snd (snd r) = [None; None]
   /\ lockedService (fst r) = false
   /\ lockedLocal (fst r) = true)
  /\ (let s1 := fst (SetStore (Some 1%nat) (NewSession "s-1")) in
      let r := runOps [OpSetStore None; OpSetServiceID "thread-1"] s1 in
      lockedLocal s1 = true
      /\ List.map snd (snd r) = [None; None]
      /\ lockedLocal (fst r) = false
      /\ lockedService (fst r) = true).
Proof. repeat split; reflexivity. Qed.

(** ** The option overlay *)

Section OverlayFacts.

Context {World : Type}.

Lemma fold_addUnseen_empty (over acc : list (@Tool World)) :
  fold_left (addUnseen ∅) over acc = acc ++ over.
Proof.
  revert acc. induction over as [|t over IH]; intros acc; simpl.
  - now rewrite app_nil_r.
  - unfold addUnseen at 2. rewrite lookup_empty. simpl.
    rewrite IH, <- app_assoc. reflexivity.
Qed.

(** With no base tools the merged list is the override's list as it is, its
    same-named tools included. *)
Lemma mergeTools_nil_l (over : list (@Tool World)) : mergeTools [] over = over.
Proof.
  unfold mergeTools. destruct (0 <? length over)%nat eqn:E.
  - cbn [fold_left]. apply (fold_addUnseen_empty over []).
  - destruct over; [reflexivity | discriminate].
Qed.

(** [MergeChatOptions] with a nil argument read as an empty option set. *)
Lemma MergeChatOptions_orEmpty (base over : option (@ChatOptions World)) :
  let b := orEmpty base in
  let o := orEmpty over in
  let m := MergeChatOptions base over in
  optModelID m = (if nonEmpty (optModelID o) then optModelID o else optModelID b)
  /\ optTemperature m = overlayPtr (optTemperature b) (optTemperature o)
  /\ optTopP m = overlayPtr (optTopP b) (optTopP o)
  /\ optMaxTokens m = overlayPtr (optMaxTokens b) (optMaxTokens o)
  /\ optStop m = (match optStop o with [] => optStop b | _ => optStop o end)
  /\ optSeed m = overlayPtr (optSeed b) (optSeed o)
  /\ optFrequencyPenalty m
     = overlayPtr (optFrequencyPenalty b) (optFrequencyPenalty o)
  /\ optPresencePenalty m
     = overlayPtr (optPresencePenalty b) (optPresencePenalty o)
  /\ optToolChoice m
     = (if nonEmpty (optToolChoice o) then optToolChoice o else optToolChoice b)
  /\ optResponseFormat m
     = (if anyIsNil (optResponseFormat o) then optResponseFormat b
        else optResponseFormat o)
  /\ optUser m = (if nonEmpty (optUser o) then optUser o else optUser b)
  /\ optConversationID m
     = (if nonEmpty (optConversationID o) then optConversationID o
        else optConversationID b)
  /\ optStore m = overlayPtr (optStore b) (optStore o)
  /\ optInstructions m = joinLines [optInstructions b; optInstructions o]
  /\ optTools m = mergeTools (optTools b) (optTools o).
Proof.
  destruct base as [b|], over as [o|]; simpl.
  - unfold overlayString, overlayAny, nonEmpty, concatInstructions, joinLines.
    repeat apply conj; try reflexivity.
    + now destruct (isEmpty (optModelID o)).
    + now destruct (optStop o).
    + now destruct (isEmpty (optToolChoice o)).
    + now destruct (isEmpty (optUser o)).
    + now destruct (isEmpty (optConversationID o)).
    + destruct (optInstructions b), (optInstructions o); reflexivity.
  - unfold joinLines. repeat apply conj; try reflexivity.
    destruct (optInstructions b); reflexivity.
  - unfold joinLines, nonEmpty. repeat apply conj; try reflexivity.
    + now destruct (optModelID o).
    + now destruct (optTemperature o).
    + now destruct (optTopP o).
    + now destruct (optMaxTokens o).
    + now destruct (optStop o).
    + now destruct (optSeed o).
    + now destruct (optFrequencyPenalty o).
    + now destruct (optPresencePenalty o).
    + now destruct (optToolChoice o).
    + now destruct (optResponseFormat o).
    + now destruct (optUser o).
    + now destruct (optConversationID o).
    + now destruct (optStore o).
    + now destruct (optInstructions o).
    + symmetry. apply mergeTools_nil_l.
  - repeat apply conj; reflexivity.
Qed.

(** A field that [prepareChatOptions] does not assign keeps the value
    [MergeChatOptions] gave it. *)
Lemma prepareChatOptions_keeps {A : Type} (field : @ChatOptions World -> A)
    (a : Agent) (cfg : runConfig) :
  (forall o ts, field (withTools o ts) = field o) ->
  (forall o i, field (withInstructions o i) = field o) ->
  field (prepareChatOptions a cfg)
  = field (MergeChatOptions (agentDefaultOptions a) (runOptions cfg)).
Proof.
  intros Ht Hi. unfold prepareChatOptions.
  repeat match goal with
         | |- context [if ?c then _ else _] => destruct c
         end; rewrite ?Hi, ?Ht; reflexivity.
Qed.

(** C9 (as amended). [prepareChatOptions] returns: as tools, the agent's
    tools followed by the per-call tools, every one of them, when there is
    any, and otherwise the tools of the two option sets as [MergeChatOptions]
    merges them; as instructions, the agent's instructions, the default
    options' and the per-call options', those that are not empty, in this
    order and joined by a newline; for every other scalar field (and the stop
    list) the per-call value when it is set (non-nil, non-empty) and the
    agent default otherwise. A missing option set counts as an empty one. *)
Theorem prepareChatOptions_overlay (a : @Agent World) (cfg : @runConfig World) :
  let b := orEmpty (agentDefaultOptions a) in
  let o := orEmpty (runOptions cfg) in
  let opts := prepareChatOptions a cfg in
  optTools opts
  = (match agentTools a ++ runTools cfg with
     | [] => mergeTools (optTools b) (optTools o)
     | all => all
     end)
  /\ optInstructions opts
     = joinLines [agentInstructions a; optInstructions b; optInstructions o]
  /\ optModelID opts = preferSet nonEmpty (optModelID o) (optModelID b)
  /\ optTemperature opts = preferSet isSet (optTemperature o) (optTemperature b)
  /\ optTopP opts = preferSet isSet (optTopP o) (optTopP b)
  /\ optMaxTokens opts = preferSet isSet (optMaxTokens o) (optMaxTokens b)
  /\ optStop opts = preferSet hasItems (optStop o) (optStop b)
  /\ optSeed opts = preferSet isSet (optSeed o) (optSeed b)
  /\ optFrequencyPenalty opts
     = preferSet isSet (optFrequencyPenalty o) (optFrequencyPenalty b)
  /\ optPresencePenalty opts
     = preferSet isSet (optPresencePenalty o) (optPresencePenalty b)
  /\ optToolChoice opts = preferSet nonEmpty (optToolChoice o) (optToolChoice b)
  /\ optResponseFormat opts
     = preferSet notNil (optResponseFormat o) (optResponseFormat b)
  /\ optUser opts = preferSet nonEmpty (optUser o) (optUser b)
  /\ optConversationID opts
     = preferSet nonEmpty (optConversationID o) (optConversationID b)
  /\ optStore opts = preferSet isSet (optStore o) (optStore b).
Proof.
  intros b o opts. subst opts.
  destruct (MergeChatOptions_orEmpty (agentDefaultOptions a) (runOptions cfg))
    as (H1 & H2 & H3 & H4 & H5 & H6 & H7 & H8 & H9 & H10 & H11 & H12 & H13
        & H14 & H15).
  fold b in H1, H2, H3, H4, H5, H6, H7, H8, H9, H10, H11, H12, H13, H14, H15.
  fold o in H1, H2, H3, H4, H5, H6, H7, H8, H9, H10, H11, H12, H13, H14, H15.
  unfold preferSet, notNil, overlayPtr in *.
  repeat apply conj;
    try (rewrite prepareChatOptions_keeps by reflexivity).
  - unfold prepareChatOptions.
    destruct (agentTools a ++ runTools cfg) as [|t ts] eqn:Eall; simpl;
      repeat match goal with
             | |- context [if ?c then _ else _] => destruct c
             end; simpl; try reflexivity; exact H15.
  - unfold prepareChatOptions.
    assert (Hi : forall ts,
               optInstructions
                 (if (0 <? length (agentTools a ++ runTools cfg))%nat
                  then withTools
                         (MergeChatOptions (agentDefaultOptions a) (runOptions cfg)) ts
                  else MergeChatOptions (agentDefaultOptions a) (runOptions cfg))
               = joinLines [optInstructions b; optInstructions o]).
    { intros ts. destruct (0 <? length (agentTools a ++ runTools cfg))%nat;
        simpl; exact H14. }
    destruct (isEmpty (agentInstructions a)) eqn:Ea.
    + rewrite Hi. apply isEmpty_true in Ea. rewrite Ea. reflexivity.
    + destruct (agentInstructions a) as [|c s] eqn:Eq; [discriminate|].
      rewrite !Hi. unfold joinLines.
      destruct (optInstructions b), (optInstructions o); reflexivity.
  - exact H1.
  - rewrite H2. now destruct (optTemperature o).
  - rewrite H3. now destruct (optTopP o).
  - rewrite H4. now destruct (optMaxTokens o).
  - rewrite H5. now destruct (optStop o).
  - rewrite H6. now destruct (optSeed o).
  - rewrite H7. now destruct (optFrequencyPenalty o).
  - rewrite H8. now destruct (optPresencePenalty o).
  - exact H9.
  - rewrite H10. now destruct (anyIsNil (optResponseFormat o)).
  - exact H11.
  - exact H12.
  - rewrite H13. now destruct (optStore o).
Qed.

End OverlayFacts.

(** C9, the sentence as written fails: the tools are not de-duplicated by
    name. An agent whose tool list holds a tool named [search], run with a
    per-call tool of the same name, sends both. *)
Lemma prepareChatOptions_keeps_duplicates :
  List.map toolName (optTools (prepareChatOptions searchAgent searchRun))
    = ["search"; "search"]
  /\ ~ List.NoDup
         (List.map toolName (optTools (prepareChatOptions searchAgent searchRun))).
Proof.
  assert (E : List.map toolName (optTools (prepareChatOptions searchAgent searchRun))
              = ["search"; "search"]) by reflexivity.
  split; [exact E|].
  rewrite E. intros H. apply List.NoDup_cons_iff in H. destruct H as [Hin _].
  apply Hin. left. reflexivity.
Qed.

(** ** The function-invocation loop *)

Section LoopFacts.

Context {World : Type}.
Variable config : InvocationConfig.
Variable fnMiddleware : list (@FunctionMiddleware World).
Variable toolMap : gmap string (@Tool World).

#[local] Abbreviation process := (processCalls config fnMiddleware toolMap).

(** Processing a batch in two parts. *)
Lemma processCalls_app (resp : ChatResponse) (pre rest : list functionCall) :
  forall rm e (w : World) l,
    process resp (pre ++ rest) rm e w l =
    match process resp pre rm e w l with
    | Completed rm1 e1 w1 l1 => process resp rest rm1 e1 w1 l1
    | other => other
    end.
Proof.
  induction pre as [|c pre IH]; intros rm e w l; [reflexivity|].
  simpl app. simpl processCalls.
  destruct (toolMap !! callName c) as [t|].
  - destruct (toolApproval t =? ApprovalAlways)%string; [reflexivity|].
    destruct (toolDeclarationOnly t); [reflexivity|].
    destruct (invokeToolWithMiddleware t (callArguments c) fnMiddleware w)
      as [w1 [result|err]].
    + apply IH.
    + destruct (MaxConsecutiveErrors config <=? e + 1)%Z; [reflexivity|apply IH].
  - destruct (TerminateOnUnknown config); [reflexivity|apply IH].
Qed.

(** *** One call *)

Lemma process_unknown_terminate resp c rest rm e (w : World) l :
  toolMap !! callName c = None ->
  TerminateOnUnknown config = true ->
  process resp (c :: rest) rm e w l = Failed (UnknownTool (callName c)) e w l.
Proof. intros Hc Ht. simpl. now rewrite Hc, Ht. Qed.

Lemma process_unknown_continue resp c rest rm e (w : World) l :
  toolMap !! callName c = None ->
  TerminateOnUnknown config = false ->
  process resp (c :: rest) rm e w l =
  process resp rest
    (rm ++ [NewToolMessage (callID c) (AnyString "error: unknown tool")])
    (e + 1)%Z w l.
Proof. intros Hc Ht. simpl. now rewrite Hc, Ht. Qed.

Lemma process_approval resp c rest rm e (w : World) l t :
  toolMap !! callName c = Some t ->
  requiresApproval t = true ->
  process resp (c :: rest) rm e w l
  = ReturnedEarly (withApprovalRequest resp c) e w l.
Proof. unfold requiresApproval. intros Hc Ha. simpl. now rewrite Hc, Ha. Qed.

Lemma process_declaration_only resp c rest rm e (w : World) l t :
  toolMap !! callName c = Some t ->
  requiresApproval t = false ->
  toolDeclarationOnly t = true ->
  process resp (c :: rest) rm e w l = ReturnedEarly resp e w l.
Proof. unfold requiresApproval. intros Hc Ha Hd. simpl. now rewrite Hc, Ha, Hd. Qed.


Lemma process_failure resp c rest rm e (w w1 : World) l t err :
  toolMap !! callName c = Some t ->
  requiresApproval t = false ->
  toolDeclarationOnly t = false ->
  invokeToolWithMiddleware t (callArguments c) fnMiddleware w = (w1, inr err) ->
  process resp (c :: rest) rm e w l =
  if (MaxConsecutiveErrors config <=? e + 1)%Z
  then Failed (MaxConsecutiveErrorsReached (e + 1)) (e + 1)%Z w1
         (l ++ [ToolInvocation (callName c) (callArguments c)])
  else process resp rest
         (rm ++ [NewToolMessage (callID c)
                   (AnyString (if IncludeDetailedErrors config
                               then foreignText err
                               else "error invoking tool"))])
         (e + 1)%Z w1
         (l ++ [ToolInvocation (callName c) (callArguments c)]).
Proof.
  unfold requiresApproval. intros Hc Ha Hd Hi. simpl. now rewrite Hc, Ha, Hd, Hi.
Qed.

(** *** A batch *)

(** The batch only adds tool invocations to the log. *)
Lemma process_backendCalls resp (calls : list functionCall) :
  forall rm e (w : World) l,
    backendCalls (outcomeLog (process resp calls rm e w l)) = backendCalls l.
Proof.
  assert (Hl : forall l n a,
             backendCalls (l ++ [ToolInvocation n a]) = backendCalls l).
  { intros l n a. unfold backendCalls. rewrite List.filter_app. simpl.
    now rewrite app_nil_r. }
  induction calls as [|c calls IH]; intros rm e w l; [reflexivity|].
  simpl processCalls.
  destruct (toolMap !! callName c) as [t|].
  - destruct (toolApproval t =? ApprovalAlways)%string; [reflexivity|].
    destruct (toolDeclarationOnly t); [reflexivity|].
    destruct (invokeToolWithMiddleware t (callArguments c) fnMiddleware w)
      as [w1 [result|err]].
    + rewrite IH. apply Hl.
    + destruct (MaxConsecutiveErrors config <=? e + 1)%Z;
        [simpl|rewrite IH]; apply Hl.
  - destruct (TerminateOnUnknown config); [reflexivity|apply IH].
Qed.

(** A batch of unknown calls, with [TerminateOnUnknown] off: one synthetic
    result and one increment per call, whatever the threshold. *)
Lemma process_all_unknown resp (calls : list functionCall) :
  TerminateOnUnknown config = false ->
  forallb (isUnknown toolMap) calls = true ->
  forall rm e (w : World) l,
    process resp calls rm e w l =
    Completed
      (rm ++ List.map (fun c => NewToolMessage (callID c)
                                  (AnyString "error: unknown tool")) calls)
      (e + Z.of_nat (length calls))%Z w l.
Proof.
  intros Ht. induction calls as [|c calls IH]; intros Hu rm e w l.
  - simpl. now rewrite app_nil_r, Z.add_0_r.
  - simpl in Hu. apply andb_prop in Hu. destruct Hu as [Hc Hcs].
    unfold isUnknown in Hc.
    destruct (toolMap !! callName c) as [t|] eqn:Ec; [discriminate|].
    rewrite process_unknown_continue by assumption.
    rewrite IH by assumption. simpl List.map. rewrite <- app_assoc. simpl app.
    f_equal. simpl length. lia.
Qed.


(** Whatever the batch, what it adds to the log are invocations of normal
    tools: a tool that needs approval or is declaration-only is never
    invoked. *)
Lemma process_invokes_normal resp (calls : list functionCall) :
  forall rm e (w : World) l,
    exists added,
      outcomeLog (process resp calls rm e w l) = l ++ added
      /\ forallb (invokesNormalTool toolMap) added = true.
Proof.
  induction calls as [|c calls IH]; intros rm e w l.
  - exists []. simpl. now rewrite app_nil_r.
  - simpl processCalls.
    destruct (toolMap !! callName c) as [t|] eqn:Ec.
    + destruct (toolApproval t =? ApprovalAlways)%string eqn:Ea;
        [exists []; simpl; now rewrite app_nil_r|].
      destruct (toolDeclarationOnly t) eqn:Ed;
        [exists []; simpl; now rewrite app_nil_r|].
      assert (Hn : invokesNormalTool toolMap
                     (ToolInvocation (callName c) (callArguments c)) = true).
      { simpl. unfold isNormalName, requiresApproval. now rewrite Ec, Ea, Ed. }
      destruct (invokeToolWithMiddleware t (callArguments c) fnMiddleware w)
        as [w1 [result|err]].
      * destruct (IH (rm ++ [NewToolMessage (callID c) result]) 0%Z w1
                    (l ++ [ToolInvocation (callName c) (callArguments c)]))
          as (added & -> & Ha).
        exists (ToolInvocation (callName c) (callArguments c) :: added).
        rewrite <- app_assoc. split; [reflexivity|].
        cbn [forallb]. now rewrite Hn, Ha.
      * destruct (MaxConsecutiveErrors config <=? e + 1)%Z.
        -- exists [ToolInvocation (callName c) (callArguments c)].
           split; [reflexivity|]. cbn [forallb]. now rewrite Hn.
        -- destruct (IH (rm ++ [NewToolMessage (callID c)
                                  (AnyString (if IncludeDetailedErrors config
                                              then foreignText err
                                              else "error invoking tool"))])
                       (e + 1)%Z w1
                       (l ++ [ToolInvocation (callName c) (callArguments c)]))
             as (added & -> & Ha).
           exists (ToolInvocation (callName c) (callArguments c) :: added).
           rewrite <- app_assoc. split; [reflexivity|].
           cbn [forallb]. now rewrite Hn, Ha.
    + destruct (TerminateOnUnknown config);
        [exists []; simpl; now rewrite app_nil_r | apply IH].
Qed.

End LoopFacts.

Section RunFacts.

Context {World : Type}.
Variable config : InvocationConfig.
Variable fnMiddleware : list (@FunctionMiddleware World).
Variable toolMap : gmap string (@Tool World).
Variable client : @ChatClient World.
Variable opts : @ChatOptions World.

#[local] Abbreviation step := (iteration config fnMiddleware toolMap client opts).
#[local] Abbreviation loop := (iterations config fnMiddleware toolMap client opts).
#[local] Abbreviation before := (stateBefore config fnMiddleware toolMap client opts).

(** Once the loop has reached iteration [i], the rest of the run is the loop
    from that state. *)
Lemma iterations_from (i : nat) :
  forall (n : nat) (st0 st : LoopState),
    before i st0 = Some st -> loop (i + n) st0 = loop n st.
Proof.
  induction i as [|j IH]; intros n st0 st H.
  - simpl in H. now injection H as ->.
  - simpl in H. destruct (before j st0) as [st1|] eqn:E1; [|discriminate].
    destruct (step st1) as [st2|x] eqn:E2; [|discriminate].
    injection H as ->.
    replace (S j + n)%nat with (j + S n)%nat by lia.
    rewrite (IH (S n) st0 st1 E1). simpl. now rewrite E2.
Qed.

(** An iteration that does not return called the backend once, got a response
    with at least one function call, and processed the whole batch. *)
Lemma iteration_continues (st st1 : LoopState) :
  step st = inl st1 ->
  exists w1 resp rm,
    client (messages st) opts (world st) = (w1, inl resp)
    /\ extractFunctionCalls resp <> []
    /\ processCalls config fnMiddleware toolMap resp (extractFunctionCalls resp) []
         (consecutiveErrors st) w1 (log st ++ [BackendCall (messages st)])
       = Completed rm (consecutiveErrors st1) (world st1) (log st1)
    /\ messages st1 = messages st ++ Messages resp ++ rm
    /\ backendCalls (log st1) = S (backendCalls (log st)).
Proof.
  unfold iteration. intros H.
  destruct (client (messages st) opts (world st)) as [w1 [resp|err]];
    [|discriminate].
  destruct (extractFunctionCalls resp) as [|c cs] eqn:Ec; [discriminate|].
  change (length (c :: cs) =? 0)%nat with false in H. cbv iota in H.
  pose proof (process_backendCalls config fnMiddleware toolMap resp (c :: cs) []
                (consecutiveErrors st) w1 (log st ++ [BackendCall (messages st)]))
    as Hb.
  destruct (processCalls config fnMiddleware toolMap resp (c :: cs) []
              (consecutiveErrors st) w1 (log st ++ [BackendCall (messages st)]))
    as [rm e w2 l2| |] eqn:Ep; try discriminate.
  injection H as <-. cbn [outcomeLog] in Hb.
  cbn [messages consecutiveErrors world log].
  exists w1, resp, rm.
  split; [reflexivity|]. split; [rewrite Ec; discriminate|].
  split; [rewrite Ec; exact Ep|]. split; [reflexivity|].
  rewrite Hb. unfold backendCalls. rewrite List.filter_app, length_app. simpl. lia.
Qed.

Lemma before_backendCalls (i : nat) :
  forall st0 st : LoopState,
    before i st0 = Some st ->
    backendCalls (log st) = (backendCalls (log st0) + i)%nat.
Proof.
  induction i as [|j IH]; intros st0 st H.
  - simpl in H. injection H as ->. lia.
  - simpl in H. destruct (before j st0) as [st1|] eqn:E1; [|discriminate].
    destruct (step st1) as [st2|x] eqn:E2; [|discriminate].
    injection H as ->. apply iteration_continues in E2.
    destruct E2 as (_ & _ & _ & _ & _ & _ & _ & Hb).
    rewrite Hb, (IH st0 st1 E1). lia.
Qed.

(** An iteration whose response holds no function call returns it. *)
Lemma iteration_final (st : LoopState) (w1 : World) (resp : ChatResponse) :
  client (messages st) opts (world st) = (w1, inl resp) ->
  extractFunctionCalls resp = [] ->
  step st = inr (mkExit (inl resp)
                   (mkLoopState (messages st) (consecutiveErrors st) w1
                      (log st ++ [BackendCall (messages st)]))).
Proof. unfold iteration. intros -> ->. reflexivity. Qed.


(** Against such a backend, with [TerminateOnUnknown] off, the loop uses up
    its iterations: the count grows by at least one per iteration and is
    never compared with the threshold. *)
Lemma loop_all_unknown :
  TerminateOnUnknown config = false ->
  asksUnknownTools toolMap client opts ->
  forall (n : nat) (st : LoopState),
    exists st1,
      loop n st = mkExit (inr (MaxIterationsReached (MaxIterations config))) st1
      /\ (consecutiveErrors st + Z.of_nat n <= consecutiveErrors st1)%Z
      /\ toolInvocations (log st1) = toolInvocations (log st).
Proof.
  intros Ht Hc. induction n as [|n IH]; intros st.
  - exists st. simpl. repeat split; lia.
  - destruct (Hc (messages st) (world st)) as (w1 & resp & Hr & Hne & Hu).
    simpl. unfold iteration. rewrite Hr.
    destruct (extractFunctionCalls resp) as [|c cs] eqn:Ec; [congruence|].
    change (length (c :: cs) =? 0)%nat with false. cbv iota.
    rewrite (process_all_unknown config fnMiddleware toolMap resp (c :: cs) Ht Hu).
    destruct (IH (mkLoopState
                    (messages st ++ Messages resp ++
                       [] ++ List.map (fun c0 => NewToolMessage (callID c0)
                                             (AnyString "error: unknown tool"))
                               (c :: cs))
                    (consecutiveErrors st + Z.of_nat (length (c :: cs)))%Z w1
                    (log st ++ [BackendCall (messages st)])))
      as (st1 & -> & He1 & Hi1).
    exists st1. split; [reflexivity|]. simpl in He1, Hi1. split; [lia|].
    rewrite Hi1. unfold toolInvocations. rewrite List.filter_app. simpl.
    now rewrite app_nil_r.
Qed.

End RunFacts.

(** ** A run of [invokeFunctions], one iteration at a time *)

Section RunSteps.

Context {World : Type}.
Variable client : @ChatClient World.
Variable msgs : list Message.
Variable opts : @ChatOptions World.
Variable config : InvocationConfig.
Variable fnMiddleware : list (@FunctionMiddleware World).
Variable w : World.

(** An iteration that returns, within the budget, is what the run returns. *)
Lemma run_exits_at (i : nat) (st : LoopState) (e : Exit) :
  stateAt client msgs opts config fnMiddleware w i = Some st ->
  (i < Z.to_nat (MaxIterations (withDefaults config)))%nat ->
  iteration (withDefaults config) fnMiddleware (buildToolMap (optTools opts))
    client opts st = inr e ->
  invokeFunctions client msgs opts config fnMiddleware w = e.
Proof.
  intros Hst Hi He. unfold invokeFunctions, stateAt in *.
  replace (Z.to_nat (MaxIterations (withDefaults config)))
    with (i + S (Z.to_nat (MaxIterations (withDefaults config)) - S i))%nat by lia.
  rewrite (iterations_from _ _ _ _ _ i _ _ _ Hst).
  simpl iterations. now rewrite He.
Qed.

(** An iteration that does not return leads to the next one. *)
Lemma run_goes_on (i : nat) (st st1 : LoopState) :
  stateAt client msgs opts config fnMiddleware w i = Some st ->
  iteration (withDefaults config) fnMiddleware (buildToolMap (optTools opts))
    client opts st = inl st1 ->
  stateAt client msgs opts config fnMiddleware w (S i) = Some st1.
Proof.
  unfold stateAt. intros Hst He. cbn [stateBefore]. now rewrite Hst, He.
Qed.

(** An iteration whose response holds function calls ends as their batch
    does. *)
Lemma iteration_batch (cfg : InvocationConfig) (toolMap : gmap string (@Tool World))
    (st : LoopState) (w0 : World) (resp : ChatResponse) :
  client (messages st) opts (world st) = (w0, inl resp) ->
  extractFunctionCalls resp <> [] ->
  iteration cfg fnMiddleware toolMap client opts st
  = match processCalls cfg fnMiddleware toolMap resp (extractFunctionCalls resp) []
            (consecutiveErrors st) w0 (log st ++ [BackendCall (messages st)]) with
    | Failed err errors w2 l2 =>
        inr (mkExit (inr err) (mkLoopState (messages st) errors w2 l2))
    | ReturnedEarly resp' errors w2 l2 =>
        inr (mkExit (inl resp') (mkLoopState (messages st) errors w2 l2))
    | Completed resultMessages errors w2 l2 =>
        inl (mkLoopState (messages st ++ Messages resp ++ resultMessages)
               errors w2 l2)
    end.
Proof.
  intros Hr Hne. unfold iteration. rewrite Hr.
  destruct (extractFunctionCalls resp) as [|c cs]; [congruence|]. reflexivity.
Qed.

(** The same, when the calls before one call have run to their end: the
    iteration ends as the batch from that call on does. *)
Lemma iteration_at_call (cfg : InvocationConfig) (toolMap : gmap string (@Tool World))
    (st : LoopState) (w0 : World) (resp : ChatResponse)
    (pre : list functionCall) (c : functionCall) (rest : list functionCall)
    (rm1 : list Message) (e1 : Z) (w1 : World) (l1 : list Event) :
  client (messages st) opts (world st) = (w0, inl resp) ->
  extractFunctionCalls resp = pre ++ c :: rest ->
  processCalls cfg fnMiddleware toolMap resp pre [] (consecutiveErrors st) w0
    (log st ++ [BackendCall (messages st)])
  = Completed rm1 e1 w1 l1 ->
  iteration cfg fnMiddleware toolMap client opts st
  = match processCalls cfg fnMiddleware toolMap resp (c :: rest) rm1 e1 w1 l1 with
    | Failed err errors w2 l2 =>
        inr (mkExit (inr err) (mkLoopState (messages st) errors w2 l2))
    | ReturnedEarly resp' errors w2 l2 =>
        inr (mkExit (inl resp') (mkLoopState (messages st) errors w2 l2))
    | Completed resultMessages errors w2 l2 =>
        inl (mkLoopState (messages st ++ Messages resp ++ resultMessages)
               errors w2 l2)
    end.
Proof.
  intros Hr Hcalls Hpre.
  rewrite (iteration_batch cfg toolMap st w0 resp Hr)
    by (rewrite Hcalls; destruct pre; discriminate).
  now rewrite Hcalls, processCalls_app, Hpre.
Qed.

End RunSteps.

(** C1 (as amended). In every run of [invokeFunctions]: if the loop reaches
    an iteration whose backend response holds no function-call item, it
    returns that very response with no error, and the backend call of that
    iteration is the last one; if each of the [MaxIterations] iterations gets a
    response with function calls and processes them to the end of the batch
    (no early return, no fatal error), the loop returns no response but an
    execution error that reports [MaxIterations] (the value in force, 40 when
    the configured one is not positive). *)
Theorem invokeFunctions_termination {World : Type} (client : @ChatClient World)
    (msgs : list Message) (opts : @ChatOptions World) (config : InvocationConfig)
    (fnMiddleware : list (@FunctionMiddleware World)) (w : World)
    (i : nat) (st : @LoopState World) :
  let limit := MaxIterations (withDefaults config) in
  stateAt client msgs opts config fnMiddleware w i = Some st ->
  (i <= Z.to_nat limit)%nat ->
  (forall w1 resp,
      (i < Z.to_nat limit)%nat ->
      client (messages st) opts (world st) = (w1, inl resp) ->
      extractFunctionCalls resp = [] ->
      invokeFunctions client msgs opts config fnMiddleware w
      = mkExit (inl resp)
          (mkLoopState (messages st) (consecutiveErrors st) w1
             (log st ++ [BackendCall (messages st)]))
      /\ backendCalls (log st ++ [BackendCall (messages st)]) = S i)
  /\ (i = Z.to_nat limit ->
      invokeFunctions client msgs opts config fnMiddleware w
      = mkExit (inr (MaxIterationsReached limit)) st
      /\ errorsIs (MaxIterationsReached limit) ErrExecution = true
      /\ backendCalls (log st) = Z.to_nat limit).
Proof.
  intros limit Hst Hi. unfold stateAt in Hst.
  pose proof (before_backendCalls _ _ _ _ _ i _ _ Hst) as Hb. simpl in Hb.
  split.
  - intros w1 resp Hlt Hc He. split.
    + unfold invokeFunctions. fold limit.
      replace (Z.to_nat limit) with (i + S (Z.to_nat limit - S i))%nat by lia.
      rewrite (iterations_from _ _ _ _ _ i _ _ _ Hst). simpl.
      now rewrite (iteration_final _ _ _ _ _ st w1 resp Hc He).
    + unfold backendCalls in *. rewrite List.filter_app, length_app, Hb.
      simpl. lia.
  - intros ->. split; [|split; [reflexivity | exact Hb]].
    unfold invokeFunctions. fold limit.
    replace (Z.to_nat limit) with (Z.to_nat limit + 0)%nat at 1 by lia.
    now rewrite (iterations_from _ _ _ _ _ _ _ _ _ Hst).
Qed.

(** C1, witness: the run of [TestAgent_WithToolInvocation] returns the answer
    on its second backend call; a backend that asks for [add] at every turn
    exhausts a budget of two iterations. *)
Lemma invokeFunctions_termination_witness :
  (invokeFunctions calcClient askMessages (toolOptions [addTool])
     DefaultInvocationConfig [] 0%nat
   = mkExit (inl (answerOf "The answer is 7."))
       (mkLoopState
          (askMessages
             ++ Messages (requestOf [mkCall "call-1" "add" addArguments])
             ++ [NewToolMessage "call-1" (AnyInt 7)])
          0%Z 2%nat
          [BackendCall askMessages;
           ToolInvocation "add" addArguments;
           BackendCall
             (askMessages
                ++ Messages (requestOf [mkCall "call-1" "add" addArguments])
                ++ [NewToolMessage "call-1" (AnyInt 7)])]))
  /\ returned
       (invokeFunctions (insistingClient [mkCall "call-1" "add" addArguments])
          askMessages (toolOptions [addTool]) (mkConfig 2 3 false false) [] 0%nat)
     = inr (MaxIterationsReached 2).
Proof.
  split.
  - eassert (E : stateAt calcClient askMessages (toolOptions [addTool])
                   DefaultInvocationConfig [] 0%nat 1 = Some _)
      by reflexivity.
    destruct (invokeFunctions_termination _ _ _ _ _ _ 1%nat _ E
                ltac:(simpl; lia)) as [Ha _].
    destruct (Ha 2%nat (answerOf "The answer is 7.")
                ltac:(simpl; lia) eq_refl eq_refl) as [-> _].
    reflexivity.
  - eassert (E : stateAt (insistingClient [mkCall "call-1" "add" addArguments])
                   askMessages (toolOptions [addTool])
                   (mkConfig 2 3 false false) [] 0%nat 2 = Some _)
      by reflexivity.
    destruct (invokeFunctions_termination _ _ _ _ _ _ 2%nat _ E
                ltac:(simpl; lia)) as [_ Hb].
    destruct (Hb eq_refl) as [-> _]. reflexivity.
Defined.




(** C3. For a call whose name is not in the registry.  With
    [TerminateOnUnknown] set the batch fails at once with a tool-execution
    error that carries the name, and that error is what [invokeFunctions]
    returns, with nothing invoked for the call.  With it unset the loop
    appends the tool message of the call (role "tool", one function-result
    item with the call id) whose result is the text "error: unknown tool",
    adds 1 to the consecutive error count and goes on to the next call,
    whatever the count and the threshold are; after a response whose calls
    are all unknown the loop goes on to the next iteration with one such
    message per call at the end of its messages, the count raised by the
    number of calls, and nothing invoked.  So against a backend that only
    ever asks for unknown tools the run never fails with the
    consecutive-error error: it uses up its iterations, invokes nothing, and
    ends with a count of at least [MaxIterations]; the count is compared with
    the threshold only when a known tool fails, and that failure is then
    fatal. *)
Theorem unknown_tool_handling {World : Type} (config : InvocationConfig)
    (fnMiddleware : list (@FunctionMiddleware World))
    (toolMap : gmap string (@Tool World)) :
  (forall resp c rest rm e w l,
      toolMap !! callName c = None ->
      TerminateOnUnknown config = true ->
      processCalls config fnMiddleware toolMap resp (c :: rest) rm e w l
      = Failed (UnknownTool (callName c)) e w l
      /\ errorsIs (UnknownTool (callName c)) ErrToolExecution = true)
  /\ (forall client msgs opts cfg w i st w0 resp pre c rest rm1 e1 w1 l1,
         stateAt client msgs opts cfg fnMiddleware w i = Some st ->
         (i < Z.to_nat (MaxIterations (withDefaults cfg)))%nat ->
         client (messages st) opts (world st) = (w0, inl resp) ->
         extractFunctionCalls resp = pre ++ c :: rest ->
         processCalls (withDefaults cfg) fnMiddleware (buildToolMap (optTools opts))
           resp pre [] (consecutiveErrors st) w0
           (log st ++ [BackendCall (messages st)])
         = Completed rm1 e1 w1 l1 ->
         buildToolMap (optTools opts) !! callName c = None ->
         TerminateOnUnknown cfg = true ->
         invokeFunctions client msgs opts cfg fnMiddleware w
         = mkExit (inr (UnknownTool (callName c)))
             (mkLoopState (messages st) e1 w1 l1))
  /\ (forall resp c rest rm e w l,
         toolMap !! callName c = None ->
         TerminateOnUnknown config = false ->
         processCalls config fnMiddleware toolMap resp (c :: rest) rm e w l
         = processCalls config fnMiddleware toolMap resp rest
             (rm ++ [mkMessage "tool"
                       [FunctionResultContent (callID c)
                          (AnyString "error: unknown tool")]
                       "" "" ∅ AnyNil])
             (e + 1)%Z w l)
  /\ (forall client msgs opts cfg w i st w0 resp,
         stateAt client msgs opts cfg fnMiddleware w i = Some st ->
         client (messages st) opts (world st) = (w0, inl resp) ->
         extractFunctionCalls resp <> [] ->
         forallb (isUnknown (buildToolMap (optTools opts))) (extractFunctionCalls resp)
         = true ->
         TerminateOnUnknown cfg = false ->
         stateAt client msgs opts cfg fnMiddleware w (S i)
         = Some (mkLoopState
                   (messages st ++ Messages resp
                    ++ List.map
                         (fun c => mkMessage "tool"
                                     [FunctionResultContent (callID c)
                                        (AnyString "error: unknown tool")]
                                     "" "" ∅ AnyNil)
                         (extractFunctionCalls resp))
                   (consecutiveErrors st
                    + Z.of_nat (length (extractFunctionCalls resp)))%Z
                   w0
                   (log st ++ [BackendCall (messages st)])))
  /\ (forall client msgs opts cfg w,
         TerminateOnUnknown cfg = false ->
         asksUnknownTools (buildToolMap (optTools opts)) client opts ->
         exists st1,
           invokeFunctions client msgs opts cfg fnMiddleware w
           = mkExit (inr (MaxIterationsReached (MaxIterations (withDefaults cfg)))) st1
           /\ (MaxIterations (withDefaults cfg) <= consecutiveErrors st1)%Z
           /\ toolInvocations (log st1) = 0%nat)
  /\ (forall resp c rest rm e w w1 l t err,
         toolMap !! callName c = Some t ->
         requiresApproval t = false ->
         toolDeclarationOnly t = false ->
         invokeToolWithMiddleware t (callArguments c) fnMiddleware w = (w1, inr err) ->
         (MaxConsecutiveErrors config <= e + 1)%Z ->
         processCalls config fnMiddleware toolMap resp (c :: rest) rm e w l
         = Failed (MaxConsecutiveErrorsReached (e + 1)) (e + 1)%Z w1
             (l ++ [ToolInvocation (callName c) (callArguments c)])).
Proof.
  repeat apply conj.
  - intros. split; [now apply process_unknown_terminate | reflexivity].
  - intros client msgs opts cfg w i st w0 resp pre c rest rm1 e1 w1 l1
      Hst Hi Hr Hcalls Hpre Hc Ht.
    apply (run_exits_at client msgs opts cfg fnMiddleware w i st _ Hst Hi).
    rewrite (iteration_at_call client opts fnMiddleware (withDefaults cfg)
               (buildToolMap (optTools opts)) st w0 resp pre c rest
               rm1 e1 w1 l1 Hr Hcalls Hpre).
    rewrite (process_unknown_terminate (withDefaults cfg) fnMiddleware (buildToolMap (optTools opts))
               resp c rest rm1 e1 w1 l1 Hc Ht).
    reflexivity.
  - intros. now apply process_unknown_continue.
  - intros client msgs opts cfg w i st w0 resp Hst Hr Hne Hu Ht.
    apply (run_goes_on client msgs opts cfg fnMiddleware w i st _ Hst).
    rewrite (iteration_batch client opts fnMiddleware (withDefaults cfg)
               (buildToolMap (optTools opts)) st w0 resp Hr Hne).
    rewrite (process_all_unknown (withDefaults cfg) fnMiddleware
               (buildToolMap (optTools opts)) resp (extractFunctionCalls resp) Ht Hu).
    reflexivity.
  - intros client msgs opts cfg w Ht Hc.
    destruct (loop_all_unknown (withDefaults cfg) fnMiddleware
                (buildToolMap (optTools opts)) client opts Ht Hc
                (Z.to_nat (MaxIterations (withDefaults cfg)))
                (mkLoopState msgs 0%Z w []))
      as (st1 & E & He & Hi).
    exists st1. split; [exact E|]. cbn [consecutiveErrors log] in He, Hi.
    split; [lia | exact Hi].
  - intros resp c rest rm e w w1 l t err Hc Ha Hd Hi Hm.
    rewrite (process_failure config fnMiddleware toolMap resp c rest rm e w w1 l t
               err Hc Ha Hd Hi).
    apply Z.leb_le in Hm. now rewrite Hm.
Qed.

(** C3, witness: with the default configuration (threshold 3), a backend that
    asks for the unregistered tool [ghost] at every turn ends the run with the
    max-iterations error and a count of 40, and its second backend call is
    sent the synthetic tool message; with [TerminateOnUnknown] set the run
    ends at the first call with the unknown-tool error for [ghost]. *)
Lemma unknown_tool_handling_witness :
  (exists st1,
      invokeFunctions (insistingClient [mkCall "call-1" "ghost" "{}"]) askMessages
        (toolOptions [addTool]) DefaultInvocationConfig [] 0%nat
      = mkExit (inr (MaxIterationsReached 40)) st1
      /\ (40 <= consecutiveErrors st1)%Z
      /\ toolInvocations (log st1) = 0%nat)
  /\ stateAt (insistingClient [mkCall "call-1" "ghost" "{}"]) askMessages
       (toolOptions [addTool]) DefaultInvocationConfig [] 0%nat 1
     = Some (mkLoopState
               (askMessages
                ++ Messages (requestOf [mkCall "call-1" "ghost" "{}"])
                ++ [mkMessage "tool"
                      [FunctionResultContent "call-1" (AnyString "error: unknown tool")]
                      "" "" ∅ AnyNil])
               1%Z 1%nat [BackendCall askMessages])
  /\ invokeFunctions (insistingClient [mkCall "call-1" "ghost" "{}"]) askMessages
       (toolOptions [addTool]) (mkConfig 40 3 true false) [] 0%nat
     = mkExit (inr (UnknownTool "ghost"))
         (mkLoopState askMessages 0%Z 1%nat [BackendCall askMessages]).
Proof.
  pose proof (unknown_tool_handling DefaultInvocationConfig
                (@nil (@FunctionMiddleware nat)) ∅)
    as (_ & Hterminate & _ & Hbatch & Hrun & _).
  repeat apply conj.
  - apply (Hrun (insistingClient [mkCall "call-1" "ghost" "{}"]) askMessages
             (toolOptions [addTool]) DefaultInvocationConfig 0%nat).
    + reflexivity.
    + intros msgs w. exists (S w), (requestOf [mkCall "call-1" "ghost" "{}"]).
      split; [reflexivity|]. split; [discriminate | reflexivity].
  - apply (Hbatch (insistingClient [mkCall "call-1" "ghost" "{}"]) askMessages
             (toolOptions [addTool]) DefaultInvocationConfig 0%nat 0%nat
             (initialState askMessages 0%nat) 1%nat
             (requestOf [mkCall "call-1" "ghost" "{}"])
             eq_refl eq_refl).
    + discriminate.
    + reflexivity.
    + reflexivity.
  - apply (Hterminate (insistingClient [mkCall "call-1" "ghost" "{}"]) askMessages
             (toolOptions [addTool]) (mkConfig 40 3 true false) 0%nat 0%nat
             (initialState askMessages 0%nat) 1%nat
             (requestOf [mkCall "call-1" "ghost" "{}"]) []
             (mkCall "call-1" "ghost" "{}") [] [] 0%Z 1%nat
             [BackendCall askMessages]
             eq_refl ltac:(simpl; lia) eq_refl eq_refl eq_refl eq_refl eq_refl).
Defined.

(** The approval request leaves the function calls of the response as they
    were. *)
Lemma withApprovalRequest_calls (resp : ChatResponse) (c : functionCall) :
  extractFunctionCalls (withApprovalRequest resp c) = extractFunctionCalls resp.
Proof.
  unfold extractFunctionCalls, withApprovalRequest. simpl.
  rewrite flat_map_app. simpl. now rewrite app_nil_r.
Qed.

(** C4. When the loop comes to a call that resolves to a tool whose approval
    mode is "always", it invokes nothing, appends to the response an assistant
    message holding one approval-request item with the call's id, name and
    arguments, and returns that response at once; when it comes to a call that
    resolves to a declaration-only tool (not needing approval), it invokes
    nothing and returns the response as it is. In both cases the calls after
    it are not processed and the function-call items of the response are
    intact, and the response is what [invokeFunctions] returns, in the world
    and with the log that the calls before left. In no batch at all is a tool
    invoked that needs approval or is declaration-only. *)
Theorem approval_and_declaration_only {World : Type} (config : InvocationConfig)
    (fnMiddleware : list (@FunctionMiddleware World))
    (toolMap : gmap string (@Tool World)) :
  (forall resp pre c rest rm rm1 e e1 (w w1 : World) l l1 t,
      processCalls config fnMiddleware toolMap resp pre rm e w l
      = Completed rm1 e1 w1 l1 ->
      toolMap !! callName c = Some t ->
      toolApproval t = ApprovalAlways ->
      processCalls config fnMiddleware toolMap resp (pre ++ c :: rest) rm e w l
      = ReturnedEarly (withApprovalRequest resp c) e1 w1 l1
      /\ Messages (withApprovalRequest resp c)
         = Messages resp
           ++ [messageOf RoleAssistant
                 [ApprovalRequestContent (callID c) (callName c) (callArguments c)]]
      /\ extractFunctionCalls (withApprovalRequest resp c)
         = extractFunctionCalls resp)
  /\ (forall resp pre c rest rm rm1 e e1 (w w1 : World) l l1 t,
         processCalls config fnMiddleware toolMap resp pre rm e w l
         = Completed rm1 e1 w1 l1 ->
         toolMap !! callName c = Some t ->
         toolApproval t <> ApprovalAlways ->
         toolDeclarationOnly t = true ->
         processCalls config fnMiddleware toolMap resp (pre ++ c :: rest) rm e w l
         = ReturnedEarly resp e1 w1 l1)
  /\ (forall resp calls rm e (w : World) l,
         exists added,
           outcomeLog (processCalls config fnMiddleware toolMap resp calls rm e w l)
           = l ++ added
           /\ forallb (invokesNormalTool toolMap) added = true)
  /\ (forall client msgs opts cfg w i st w0 resp pre c rest rm1 e1 w1 l1 t,
         stateAt client msgs opts cfg fnMiddleware w i = Some st ->
         (i < Z.to_nat (MaxIterations (withDefaults cfg)))%nat ->
         client (messages st) opts (world st) = (w0, inl resp) ->
         extractFunctionCalls resp = pre ++ c :: rest ->
         processCalls (withDefaults cfg) fnMiddleware (buildToolMap (optTools opts))
           resp pre [] (consecutiveErrors st) w0
           (log st ++ [BackendCall (messages st)])
         = Completed rm1 e1 w1 l1 ->
         buildToolMap (optTools opts) !! callName c = Some t ->
         toolApproval t = ApprovalAlways ->
         invokeFunctions client msgs opts cfg fnMiddleware w
         = mkExit
             (inl (mkChatResponse
                     (Messages resp
                      ++ [mkMessage "assistant"
                            [ApprovalRequestContent (callID c) (callName c)
                               (callArguments c)]
                            "" "" ∅ AnyNil])
                     (ResponseID resp) (ConversationID resp) (ModelID resp)
                     (CreatedAt resp) (respFinishReason resp) (Usage resp)
                     (Extra resp) (Raw resp)))
             (mkLoopState (messages st) e1 w1 l1))
  /\ (forall client msgs opts cfg w i st w0 resp pre c rest rm1 e1 w1 l1 t,
         stateAt client msgs opts cfg fnMiddleware w i = Some st ->
         (i < Z.to_nat (MaxIterations (withDefaults cfg)))%nat ->
         client (messages st) opts (world st) = (w0, inl resp) ->
         extractFunctionCalls resp = pre ++ c :: rest ->
         processCalls (withDefaults cfg) fnMiddleware (buildToolMap (optTools opts))
           resp pre [] (consecutiveErrors st) w0
           (log st ++ [BackendCall (messages st)])
         = Completed rm1 e1 w1 l1 ->
         buildToolMap (optTools opts) !! callName c = Some t ->
         toolApproval t <> ApprovalAlways ->
         toolDeclarationOnly t = true ->
         invokeFunctions client msgs opts cfg fnMiddleware w
         = mkExit (inl resp) (mkLoopState (messages st) e1 w1 l1)).
Proof.
  repeat apply conj.
  - intros resp pre c rest rm rm1 e e1 w w1 l l1 t Hpre Hc Ha.
    rewrite processCalls_app, Hpre.
    assert (Hr : requiresApproval t = true)
      by (unfold requiresApproval; rewrite Ha; reflexivity).
    rewrite (process_approval config fnMiddleware toolMap resp c rest rm1 e1 w1 l1 t
               Hc Hr).
    split; [reflexivity|]. split; [reflexivity|]. apply withApprovalRequest_calls.
  - intros resp pre c rest rm rm1 e e1 w w1 l l1 t Hpre Hc Ha Hd.
    rewrite processCalls_app, Hpre.
    assert (Hr : requiresApproval t = false).
    { unfold requiresApproval. apply String.eqb_neq. exact Ha. }
    apply (process_declaration_only config fnMiddleware toolMap resp c rest rm1 e1
             w1 l1 t Hc Hr Hd).
  - intros. apply process_invokes_normal.
  - intros client msgs opts cfg w i st w0 resp pre c rest rm1 e1 w1 l1 t
      Hst Hi Hr Hcalls Hpre Hc Ha.
    apply (run_exits_at client msgs opts cfg fnMiddleware w i st _ Hst Hi).
    rewrite (iteration_at_call client opts fnMiddleware (withDefaults cfg)
               (buildToolMap (optTools opts)) st w0 resp pre c rest
               rm1 e1 w1 l1 Hr Hcalls Hpre).
    assert (Hreq : requiresApproval t = true)
      by (unfold requiresApproval; rewrite Ha; reflexivity).
    rewrite (process_approval (withDefaults cfg) fnMiddleware (buildToolMap (optTools opts))
               resp c rest rm1 e1 w1 l1 t Hc Hreq).
    reflexivity.
  - intros client msgs opts cfg w i st w0 resp pre c rest rm1 e1 w1 l1 t
      Hst Hi Hr Hcalls Hpre Hc Ha Hd.
    apply (run_exits_at client msgs opts cfg fnMiddleware w i st _ Hst Hi).
    rewrite (iteration_at_call client opts fnMiddleware (withDefaults cfg)
               (buildToolMap (optTools opts)) st w0 resp pre c rest
               rm1 e1 w1 l1 Hr Hcalls Hpre).
    assert (Hreq : requiresApproval t = false).
    { unfold requiresApproval. apply String.eqb_neq. exact Ha. }
    rewrite (process_declaration_only (withDefaults cfg) fnMiddleware (buildToolMap (optTools opts))
               resp c rest rm1 e1 w1 l1 t Hc Hreq Hd).
    reflexivity.
Qed.

(** C4, witness: in a first run [add] is invoked, then [deploy] needs
    approval and [lookup], declaration-only, is never reached: the run returns
    the response with the approval request for [deploy]; in a second run
    [lookup] comes first and the run returns the response as it is, with
    nothing invoked. *)
Lemma approval_and_declaration_only_witness :
  let add := mkCall "call-1" "add" addArguments in
  let deploy := mkCall "call-2" "deploy" "{}" in
  let lookup := mkCall "call-3" "lookup" "{}" in
  let opts := toolOptions [addTool; deployTool; lookupTool] in
  invokeFunctions (insistingClient [add; deploy; lookup]) askMessages opts
    DefaultInvocationConfig [] 0%nat
  = mkExit
      (inl (mkChatResponse
              (Messages (requestOf [add; deploy; lookup])
               ++ [mkMessage "assistant"
                     [ApprovalRequestContent "call-2" "deploy" "{}"]
                     "" "" ∅ AnyNil])
              "" "" "" "" "" zeroUsage ∅ AnyNil))
      (mkLoopState askMessages 0%Z 1%nat
         [BackendCall askMessages; ToolInvocation "add" addArguments])
  /\ invokeFunctions (insistingClient [lookup; deploy]) askMessages opts
       DefaultInvocationConfig [] 0%nat
     = mkExit (inl (requestOf [lookup; deploy]))
         (mkLoopState askMessages 0%Z 1%nat [BackendCall askMessages]).
Proof.
  pose proof (approval_and_declaration_only DefaultInvocationConfig
                (@nil (@FunctionMiddleware nat)) ∅)
    as (_ & _ & _ & Happroval & Hdeclaration).
  split.
  - apply (Happroval
             (insistingClient
                [mkCall "call-1" "add" addArguments; mkCall "call-2" "deploy" "{}";
                 mkCall "call-3" "lookup" "{}"])
             askMessages (toolOptions [addTool; deployTool; lookupTool])
             DefaultInvocationConfig 0%nat 0%nat (initialState askMessages 0%nat)
             1%nat
             (requestOf
                [mkCall "call-1" "add" addArguments; mkCall "call-2" "deploy" "{}";
                 mkCall "call-3" "lookup" "{}"])
             [mkCall "call-1" "add" addArguments]
             (mkCall "call-2" "deploy" "{}")
             [mkCall "call-3" "lookup" "{}"]
             [NewToolMessage "call-1" (AnyInt 7)] 0%Z 1%nat
             [BackendCall askMessages; ToolInvocation "add" addArguments]
             deployTool
             eq_refl ltac:(simpl; lia) eq_refl eq_refl eq_refl eq_refl eq_refl).
  - apply (Hdeclaration
             (insistingClient
                [mkCall "call-3" "lookup" "{}"; mkCall "call-2" "deploy" "{}"])
             askMessages (toolOptions [addTool; deployTool; lookupTool])
             DefaultInvocationConfig 0%nat 0%nat (initialState askMessages 0%nat)
             1%nat
             (requestOf
                [mkCall "call-3" "lookup" "{}"; mkCall "call-2" "deploy" "{}"])
             []
             (mkCall "call-3" "lookup" "{}")
             [mkCall "call-2" "deploy" "{}"]
             [] 0%Z 1%nat [BackendCall askMessages] lookupTool
             eq_refl ltac:(simpl; lia) eq_refl eq_refl eq_refl eq_refl).
    + discriminate.
    + reflexivity.
Defined.

(** A batch that runs to its end has produced one result message per call. *)
Lemma process_completed_length {World : Type} (config : InvocationConfig)
    (fnMiddleware : list (@FunctionMiddleware World))
    (toolMap : gmap string (@Tool World)) (resp : ChatResponse)
    (calls : list functionCall) :
  forall rm e w l rm1 e1 w1 l1,
    processCalls config fnMiddleware toolMap resp calls rm e w l
    = Completed rm1 e1 w1 l1 ->
    length rm1 = (length rm + length calls)%nat.
Proof.
  induction calls as [|c calls IH]; intros rm e w l rm1 e1 w1 l1 H.
  - simpl in H. injection H as <- _ _ _. simpl. lia.
  - simpl in H.
    destruct (toolMap !! callName c) as [t|].
    + destruct (toolApproval t =? ApprovalAlways)%string; [discriminate|].
      destruct (toolDeclarationOnly t); [discriminate|].
      destruct (invokeToolWithMiddleware t (callArguments c) fnMiddleware w)
        as [w2 [result|err]].
      * apply IH in H. rewrite length_app in H. simpl in *. lia.
      * destruct (MaxConsecutiveErrors config <=? e + 1)%Z; [discriminate|].
        apply IH in H. rewrite length_app in H. simpl in *. lia.
    + destruct (TerminateOnUnknown config); [discriminate|].
      apply IH in H. rewrite length_app in H. simpl in *. lia.
Qed.

(** C10. Let the loop be at some iteration of a run, let the calls of that
    iteration's response be [pre ++ c :: rest], let the calls of [pre] have
    been processed to the end -- one tool-result message each, successful
    results and synthetic error results alike -- and let [c] resolve to a tool
    that needs approval or is declaration-only. Then [invokeFunctions] returns
    the backend's response, with at most the approval request appended, and
    the message list is the one the iteration started with: the result
    messages of [pre] are in neither. *)
Theorem early_return_discards_results {World : Type} (client : @ChatClient World)
    (msgs : list Message) (opts : @ChatOptions World) (config : InvocationConfig)
    (fnMiddleware : list (@FunctionMiddleware World)) (w : World)
    (i : nat) (st : @LoopState World) (w0 : World) (resp : ChatResponse)
    (pre : list functionCall) (c : functionCall) (rest : list functionCall)
    (rm1 : list Message) (e1 : Z) (w1 : World) (l1 : list Event) (t : @Tool World) :
  stateAt client msgs opts config fnMiddleware w i = Some st ->
  (i < Z.to_nat (MaxIterations (withDefaults config)))%nat ->
  client (messages st) opts (world st) = (w0, inl resp) ->
  extractFunctionCalls resp = pre ++ c :: rest ->
  processCalls (withDefaults config) fnMiddleware (buildToolMap (optTools opts))
    resp pre [] (consecutiveErrors st) w0 (log st ++ [BackendCall (messages st)])
  = Completed rm1 e1 w1 l1 ->
  buildToolMap (optTools opts) !! callName c = Some t ->
  toolApproval t = ApprovalAlways \/ toolDeclarationOnly t = true ->
  length rm1 = length pre
  /\ exists resp1,
      invokeFunctions client msgs opts config fnMiddleware w
      = mkExit (inl resp1) (mkLoopState (messages st) e1 w1 l1)
      /\ (resp1 = resp \/ resp1 = withApprovalRequest resp c)
      /\ (Messages resp1 = Messages resp
          \/ Messages resp1
             = Messages resp
               ++ [messageOf RoleAssistant
                     [ApprovalRequestContent (callID c) (callName c)
                        (callArguments c)]]).
Proof.
  intros Hst Hi Hr Hcalls Hpre Hc Hkind.
  split; [apply process_completed_length in Hpre; simpl in Hpre; exact Hpre|].
  assert (Hbatch :
            exists resp1,
              processCalls (withDefaults config) fnMiddleware
                (buildToolMap (optTools opts)) resp (pre ++ c :: rest) []
                (consecutiveErrors st) w0 (log st ++ [BackendCall (messages st)])
              = ReturnedEarly resp1 e1 w1 l1
              /\ (resp1 = resp \/ resp1 = withApprovalRequest resp c)).
  { rewrite processCalls_app, Hpre.
    destruct (requiresApproval t) eqn:Ha.
    - eexists. split; [|now right].
      apply (process_approval _ _ _ resp c rest rm1 e1 w1 l1 t Hc Ha).
    - destruct Hkind as [Hk|Hk].
      + unfold requiresApproval in Ha. rewrite Hk in Ha. discriminate.
      + eexists. split; [|now left].
        apply (process_declaration_only _ _ _ resp c rest rm1 e1 w1 l1 t Hc Ha Hk). }
  destruct Hbatch as (resp1 & Hb & Hresp1).
  exists resp1. split; [|split; [exact Hresp1|]].
  - unfold invokeFunctions.
    replace (Z.to_nat (MaxIterations (withDefaults config)))
      with (i + S (Z.to_nat (MaxIterations (withDefaults config)) - S i))%nat by lia.
    unfold stateAt in Hst.
    rewrite (iterations_from _ _ _ _ _ i _ _ _ Hst).
    simpl iterations. unfold iteration. rewrite Hr, Hcalls.
    destruct (pre ++ c :: rest) as [|x xs] eqn:Ex;
      [destruct pre; discriminate|].
    change (length (x :: xs) =? 0)%nat with false. cbv iota.
    rewrite Hb. reflexivity.
  - destruct Hresp1 as [-> | ->]; [now left | now right].
Qed.

(** C10, witness: the response asks for [add], for the unregistered [ghost]
    and for [deploy], which needs approval. [add] is invoked and [ghost] gets
    its synthetic error, yet the run returns the response with the approval
    request and the message list it was given. *)
Lemma early_return_discards_results_witness :
  let calls := [mkCall "call-1" "add" addArguments; mkCall "call-2" "ghost" "{}";
                mkCall "call-3" "deploy" "{}"] in
  length [NewToolMessage "call-1" (AnyInt 7);
          NewToolMessage "call-2" (AnyString "error: unknown tool")] = 2%nat
  /\ exists resp1,
      invokeFunctions (insistingClient calls) askMessages
        (toolOptions [addTool; deployTool]) DefaultInvocationConfig [] 0%nat
      = mkExit (inl resp1)
          (mkLoopState askMessages 1%Z 1%nat
             [BackendCall askMessages; ToolInvocation "add" addArguments])
      /\ (resp1 = requestOf calls
          \/ resp1 = withApprovalRequest (requestOf calls) (mkCall "call-3" "deploy" "{}"))
      /\ (Messages resp1 = Messages (requestOf calls)
          \/ Messages resp1
             = Messages (requestOf calls)
               ++ [messageOf RoleAssistant [ApprovalRequestContent "call-3" "deploy" "{}"]]).
Proof.
  exact (early_return_discards_results
           (insistingClient
              [mkCall "call-1" "add" addArguments; mkCall "call-2" "ghost" "{}";
               mkCall "call-3" "deploy" "{}"])
           askMessages (toolOptions [addTool; deployTool]) DefaultInvocationConfig
           [] 0%nat 0%nat (initialState askMessages 0%nat) 1%nat
           (requestOf
              [mkCall "call-1" "add" addArguments; mkCall "call-2" "ghost" "{}";
               mkCall "call-3" "deploy" "{}"])
           [mkCall "call-1" "add" addArguments; mkCall "call-2" "ghost" "{}"]
           (mkCall "call-3" "deploy" "{}") []
           [NewToolMessage "call-1" (AnyInt 7);
            NewToolMessage "call-2" (AnyString "error: unknown tool")]
           1%Z 1%nat
           [BackendCall askMessages; ToolInvocation "add" addArguments]
           deployTool
           eq_refl ltac:(simpl; lia) eq_refl eq_refl eq_refl eq_refl
           (or_introl eq_refl)).
Defined.

(** C1, the sentence as written fails: function calls that lead to a normal
    invocation in each of the [MaxIterations] iterations do not make the run
    end with the max-iterations error. With [MaxIterations = 3] and
    [MaxConsecutiveErrors = 3], a backend that asks for the (registered,
    normal) always failing tool at every turn is called three times, the tool
    is invoked three times, and the run ends with the tool-execution error of
    the consecutive-error breaker. *)
Lemma max_iterations_preempted_by_breaker :
  let call := mkCall "call-1" "flaky" "{}" in
  let run := invokeFunctions (insistingClient [call]) askMessages
               (toolOptions [flakyTool]) (mkConfig 3 3 false false) [] 0%nat in
  isNormal (buildToolMap [flakyTool]) call = true
  /\ backendCalls (log (finalState run)) = 3%nat
  /\ toolInvocations (log (finalState run)) = 3%nat
  /\ returned run = inr (MaxConsecutiveErrorsReached 3)
  /\ returned run <> inr (MaxIterationsReached 3)
  /\ errorsIs (MaxConsecutiveErrorsReached 3) ErrExecution = false.
Proof.
  repeat apply conj; try reflexivity.
  intros H. vm_compute in H. discriminate H.
Qed.

(* ===================================================================== *)
(** * Part II, continued. Properties of the rest of the package           *)
(* ===================================================================== *)

(** ** Text and merge *)

Lemma contentsText_app (a b : Contents) :
  contentsText (a ++ b) = String.append (contentsText a) (contentsText b).
Proof.
  induction a as [|c a IH]; [reflexivity|].
  destruct c; simpl; try exact IH. now rewrite IH, append_assoc.
Qed.

Lemma responseText_contents (r : ChatResponse) :
  responseText r = contentsText (responseContents r).
Proof.
  unfold responseText, responseContents, messageText.
  induction (Messages r) as [|m ms IH]; [reflexivity|].
  simpl. now rewrite contentsText_app, IH.
Qed.

Lemma contentsText_concat (us : list ChatResponseUpdate) :
  contentsText (List.concat (List.map updContents us))
  = fold_right String.append "" (List.map updateText us).
Proof.
  induction us as [|u us IH]; [reflexivity|].
  simpl. now rewrite contentsText_app, IH.
Qed.

(** X1. The text of the merged response is the texts of the updates, in
    order, one after the other: merging loses and adds no text. *)
Theorem merge_preserves_text (updates : list ChatResponseUpdate) :
  responseText (ChatResponseFromUpdates updates)
  = fold_right String.append "" (List.map updateText updates).
Proof.
  rewrite responseText_contents, responseContents_merge, collapseRuns_text.
  apply contentsText_concat.
Qed.

Lemma consText_collapsed (t : string) (r : Contents) :
  collapsed r = true -> collapsed (consText t r) = true.
Proof.
  intros Hr. destruct r as [|c r].
  - simpl. destruct (isEmpty t) eqn:Et; simpl; [reflexivity | now rewrite Et].
  - destruct c; simpl in *;
      try (destruct (isEmpty t) eqn:Et; simpl; [exact Hr | now rewrite Et, Hr]).
    apply andb_prop in Hr. destruct Hr as [Hr Hrest].
    apply andb_prop in Hr. destruct Hr as [Hne Hadj].
    rewrite isEmpty_append, Hadj, Hrest.
    destruct (isEmpty Text); [discriminate|]. now rewrite andb_false_r.
Qed.

Lemma collapseRuns_collapsed (cs : Contents) : collapsed (collapseRuns cs) = true.
Proof.
  induction cs as [|c cs IH]; [reflexivity|].
  destruct c; simpl; try exact IH. now apply consText_collapsed.
Qed.

Lemma collapsed_fixed (cs : Contents) : collapsed cs = true -> collapseRuns cs = cs.
Proof.
  induction cs as [|c cs IH]; intros H; [reflexivity|].
  destruct c; simpl in *; try (now rewrite IH).
  apply andb_prop in H. destruct H as [H Hrest].
  apply andb_prop in H. destruct H as [Hne Hadj].
  rewrite (IH Hrest).
  destruct cs as [|[] cs]; simpl in *; try discriminate;
    destruct (isEmpty Text); try discriminate; reflexivity.
Qed.

Lemma consText_length (t : string) (r : Contents) :
  (length (consText t r) <= S (length r))%nat.
Proof.
  destruct r as [|[] r]; simpl; try (destruct (isEmpty t); simpl; lia); lia.
Qed.

(** X2. What [mergeContentDeltas] returns holds no empty text item and no two
    adjacent text items, keeps the non-text items of its input in their
    order, and is never longer than its input; the sequences it leaves
    unchanged are exactly those of that shape. *)
Theorem mergeContentDeltas_shape (cs : Contents) :
  collapsed (mergeContentDeltas cs) = true
  /\ List.filter (fun c => negb (isTextItem c)) (mergeContentDeltas cs)
     = List.filter (fun c => negb (isTextItem c)) cs
  /\ (length (mergeContentDeltas cs) <= length cs)%nat
  /\ (mergeContentDeltas cs = cs <-> collapsed cs = true).
Proof.
  rewrite mergeContentDeltas_collapse.
  split; [apply collapseRuns_collapsed|].
  split; [apply collapseRuns_others|].
  split.
  - induction cs as [|c cs IH]; [simpl; lia|].
    destruct c; simpl; try lia.
    pose proof (consText_length Text (collapseRuns cs)). lia.
  - split.
    + intros E. rewrite <- E. apply collapseRuns_collapsed.
    + apply collapsed_fixed.
Qed.

(** The loop of [AgentResponseFromUpdates], on mapped chat updates. *)
Lemma absorbAgent_fold (agentID : string) (us : list ChatResponseUpdate) :
  forall (resp : AgentResponse) (cs : Contents),
    fold_left absorbAgentUpdate (List.map (toAgentUpdate agentID) us) (resp, cs) =
    (mkAgentResponse (arMessages resp)
       (lastSuch nonEmpty (arResponseID resp) (List.map updResponseID us))
       (match us with
        | [] => arAgentID resp
        | _ => if isEmpty agentID then arAgentID resp else agentID
        end)
       (lastSuch hasTotal (arUsage resp) (List.map updUsage us))
       (arExtra resp) (arRaw resp),
     cs ++ List.concat (List.map updContents us)).
Proof.
  induction us as [|u us IH]; intros resp cs.
  - simpl. rewrite app_nil_r. destruct resp; reflexivity.
  - simpl fold_left. rewrite IH. simpl.
    rewrite !lastSuch_cons, <- app_assoc. unfold nonEmpty, hasTotal.
    destruct us; destruct (isEmpty agentID), (isEmpty (updResponseID u)),
      (0 <? TotalTokens (updUsage u))%Z; reflexivity.
Qed.

(** X3. The response [AgentResponseFromUpdates] builds from the updates that
    [RunStream] hands out is, for messages, response id and usage, the
    response [ChatResponseFromUpdates] builds from the backend's updates; its
    agent id is the agent's as soon as there is one update, and its text is
    the texts of the updates, in order. *)
Theorem AgentResponseFromUpdates_of_stream (agentID : string)
    (updates : list ChatResponseUpdate) :
  let r := AgentResponseFromUpdates (List.map (toAgentUpdate agentID) updates) in
  let c := ChatResponseFromUpdates updates in
  arMessages r = Messages c
  /\ arResponseID r = ResponseID c
  /\ arUsage r = Usage c
  /\ arAgentID r = (match updates with [] => "" | _ => agentID end)
  /\ agentResponseText r
     = fold_right String.append ""
         (List.map agentUpdateText (List.map (toAgentUpdate agentID) updates)).
Proof.
  cbv zeta.
  assert (H : AgentResponseFromUpdates (List.map (toAgentUpdate agentID) updates)
              = mkAgentResponse (Messages (ChatResponseFromUpdates updates))
                  (ResponseID (ChatResponseFromUpdates updates))
                  (match updates with [] => "" | _ => agentID end)
                  (Usage (ChatResponseFromUpdates updates)) ∅ AnyNil).
  { rewrite merge_fields. unfold AgentResponseFromUpdates.
    rewrite absorbAgent_fold. rewrite mergeContentDeltas_collapse. simpl app.
    assert (Hid : (match updates with
                   | [] => ""
                   | _ => if isEmpty agentID then "" else agentID
                   end) = (match updates with [] => "" | _ => agentID end)).
    { destruct updates; [reflexivity|]. simpl.
      destruct (isEmpty agentID) eqn:E; [|reflexivity].
      apply isEmpty_true in E. now subst. }
    destruct (collapseRuns (List.concat (List.map updContents updates))) eqn:Ec;
      simpl; rewrite ?Hid; [reflexivity|].
    destruct updates as [|u us]; reflexivity. }
  rewrite H. simpl. repeat split.
  rewrite List.map_map.
  transitivity (responseText (ChatResponseFromUpdates updates)); [reflexivity|].
  rewrite responseText_contents, responseContents_merge, collapseRuns_text.
  apply contentsText_concat.
Qed.

(** X4. [PrependInstructions] puts at most one message in front of the list
    and changes nothing else; with non-empty instructions the result always
    holds a system message; a list that already holds one is returned as it
    is, so the instructions are then not used; applying it twice is applying
    it once. *)
Theorem PrependInstructions_once (msgs : list Message) (instructions : string) :
  (PrependInstructions msgs instructions = msgs
   \/ PrependInstructions msgs instructions = NewSystemMessage instructions :: msgs)
  /\ (isEmpty instructions = false ->
      hasSystemMessage (PrependInstructions msgs instructions) = true)
  /\ (hasSystemMessage msgs = true -> PrependInstructions msgs instructions = msgs)
  /\ PrependInstructions (PrependInstructions msgs instructions) instructions
     = PrependInstructions msgs instructions.
Proof.
  unfold PrependInstructions.
  destruct (isEmpty instructions) eqn:Ei.
  - repeat split; auto. discriminate.
  - destruct (hasSystemMessage msgs) eqn:Es.
    + rewrite Es. repeat split; auto.
    + repeat split; auto. discriminate.
Qed.

(** X5. When the loop returns for approval, the caller finds the request:
    [UserInputRequests] of the agent response holds the approval requests the
    backend's response already held, followed by the one the loop appended
    for the call. *)
Theorem UserInputRequests_after_approval (agentID : string) (resp : ChatResponse)
    (c : functionCall) :
  UserInputRequests (agentResponseOf agentID (withApprovalRequest resp c))
  = UserInputRequests (agentResponseOf agentID resp)
    ++ [ApprovalRequestContent (callID c) (callName c) (callArguments c)].
Proof.
  unfold UserInputRequests, agentResponseOf, withApprovalRequest. simpl.
  rewrite flat_map_app. reflexivity.
Qed.

(** ** [MergeChatOptions] *)

Section MergeFacts.

Context {World : Type}.

Lemma mergeMap_empty_r {V : Type} (base : gmap string V) : mergeMap base ∅ = base.
Proof. reflexivity. Qed.

Lemma mergeMap_empty_l {V : Type} (over : gmap string V) : mergeMap ∅ over = over.
Proof.
  unfold mergeMap. destruct (0 <? size over)%nat eqn:E.
  - apply map_eq. intros k. rewrite lookup_union, lookup_empty.
    now destruct (over !! k).
  - apply Nat.ltb_ge in E. symmetry. apply map_size_empty_inv. lia.
Qed.

Lemma mergeMap_lookup {V : Type} (base over : gmap string V) (k : string) :
  mergeMap base over !! k
  = match over !! k with Some v => Some v | None => base !! k end.
Proof.
  unfold mergeMap. destruct (0 <? size over)%nat eqn:E.
  - rewrite lookup_union. destruct (over !! k), (base !! k); reflexivity.
  - apply Nat.ltb_ge in E.
    assert (over = ∅) as -> by (apply map_size_empty_inv; lia).
    now rewrite lookup_empty.
Qed.

Lemma MergeChatOptions_empty_r (o : @ChatOptions World) :
  MergeChatOptions (Some o) (Some emptyOptions) = o.
Proof. destruct o. reflexivity. Qed.

Lemma MergeChatOptions_empty_l (o : @ChatOptions World) :
  MergeChatOptions (Some emptyOptions) (Some o) = o.
Proof.
  destruct o as [model temp topp maxt stop seed freq pres tools choice fmt meta
                   user instr conv st extra].
  unfold MergeChatOptions, emptyOptions, overlayString, overlayPtr, overlayAny,
    concatInstructions. simpl.
  rewrite mergeTools_nil_l, !mergeMap_empty_l.
  destruct model, temp, topp, maxt, stop, seed, freq, pres, choice, fmt, user,
    instr, conv, st; reflexivity.
Qed.

(** X6. Merging with nothing changes nothing: a nil option set and an empty
    one are both neutral, as base and as override. *)
Theorem MergeChatOptions_neutral (o : @ChatOptions World) :
  MergeChatOptions (Some o) None = o
  /\ MergeChatOptions None (Some o) = o
  /\ MergeChatOptions (Some o) (Some emptyOptions) = o
  /\ MergeChatOptions (Some emptyOptions) (Some o) = o.
Proof.
  split; [reflexivity|]. split; [reflexivity|].
  split; [apply MergeChatOptions_empty_r | apply MergeChatOptions_empty_l].
Qed.

(** X7. In the merged metadata and in the merged extra options every key of
    the override has the override's value, and every other key has the
    base's value, if any. *)
Theorem MergeChatOptions_maps (base over : @ChatOptions World) (k : string) :
  optMetadata (MergeChatOptions (Some base) (Some over)) !! k
  = match optMetadata over !! k with
    | Some v => Some v
    | None => optMetadata base !! k
    end
  /\ optExtra (MergeChatOptions (Some base) (Some over)) !! k
     = match optExtra over !! k with
       | Some v => Some v
       | None => optExtra base !! k
       end.
Proof. split; apply mergeMap_lookup. Qed.

(** *** The tools *)

Lemma lastNamed_app (name : string) (a b : list (@Tool World)) :
  lastNamed name (a ++ b)
  = match lastNamed name b with Some x => Some x | None => lastNamed name a end.
Proof.
  induction a as [|t a IH]; simpl.
  - now destruct (lastNamed name b).
  - rewrite IH. destruct (lastNamed name b); reflexivity.
Qed.

Lemma indexByName_lookup (ts : list (@Tool World)) :
  forall (m : gmap string (@Tool World)) (name : string),
    indexByName m ts !! name
    = match lastNamed name ts with Some t => Some t | None => m !! name end.
Proof.
  unfold indexByName.
  induction ts as [|t ts IH]; intros m name; [reflexivity|].
  simpl. rewrite IH. destruct (lastNamed name ts); [reflexivity|].
  destruct (String.eqb_spec (toolName t) name) as [->|Hne].
  - apply lookup_insert_eq.
  - now apply lookup_insert_ne.
Qed.

Lemma lastNamed_hasName (name : string) (ts : list (@Tool World)) :
  hasName name ts = match lastNamed name ts with Some _ => true | None => false end.
Proof.
  unfold hasName. induction ts as [|t ts IH]; [reflexivity|].
  cbn [existsb lastNamed]. rewrite IH.
  destruct (lastNamed name ts); [apply orb_true_r|].
  now destruct (toolName t =? name)%string.
Qed.

Lemma keepBase_fold (byName : gmap string (@Tool World)) (l : list (@Tool World)) :
  (forall t, In t l -> is_Some (byName !! toolName t)) ->
  forall acc seen,
    fold_left (keepBase byName) l (acc, seen)
    = (acc ++ List.map (fun t => default t (byName !! toolName t)) l,
       fold_left (fun s t => <[toolName t := true]> s) l seen).
Proof.
  induction l as [|t l IH]; intros Hl acc seen.
  - simpl. now rewrite app_nil_r.
  - simpl. destruct (Hl t (or_introl eq_refl)) as [x Hx].
    unfold keepBase at 2. rewrite Hx. simpl.
    rewrite IH by (intros; apply Hl; now right).
    now rewrite <- app_assoc.
Qed.

Lemma seen_lookup (l : list (@Tool World)) :
  forall (seen : gmap string bool) (name : string),
    default false (fold_left (fun s t => <[toolName t := true]> s) l seen !! name)
    = hasName name l || default false (seen !! name).
Proof.
  induction l as [|t l IH]; intros seen name; [reflexivity|].
  simpl. rewrite IH.
  destruct (String.eqb_spec (toolName t) name) as [->|Hne].
  - rewrite lookup_insert_eq. simpl. now rewrite !orb_true_r.
  - rewrite lookup_insert_ne by exact Hne. reflexivity.
Qed.

Lemma addUnseen_fold (seen : gmap string bool) (over : list (@Tool World)) :
  forall acc,
    fold_left (addUnseen seen) over acc
    = acc ++ List.filter (fun t => negb (default false (seen !! toolName t))) over.
Proof.
  induction over as [|t over IH]; intros acc; simpl.
  - now rewrite app_nil_r.
  - rewrite IH. unfold addUnseen.
    destruct (default false (seen !! toolName t)); simpl; [reflexivity|].
    now rewrite <- app_assoc.
Qed.

Lemma mergeTools_spec (base over : list (@Tool World)) :
  mergeTools base over = replaceAndAppend base over.
Proof.
  unfold mergeTools, replaceAndAppend.
  destruct over as [|o over]; [reflexivity|].
  change (0 <? length (o :: over))%nat with true. cbv iota.
  generalize (o :: over). intros ov.
  set (byName := indexByName (indexByName ∅ base) ov).
  assert (Hby : forall name, byName !! name = lastNamed name (base ++ ov)).
  { intros name. unfold byName. rewrite !indexByName_lookup, lastNamed_app.
    rewrite lookup_empty. destruct (lastNamed name ov); [reflexivity|].
    now destruct (lastNamed name base). }
  rewrite keepBase_fold.
  - rewrite addUnseen_fold, app_nil_l. f_equal.
    + apply List.map_ext. intros t. now rewrite Hby.
    + apply List.filter_ext. intros t. rewrite seen_lookup.
      rewrite lookup_empty. simpl. now rewrite orb_false_r.
  - intros t Ht. rewrite Hby, lastNamed_app.
    destruct (lastNamed (toolName t) ov); [eauto|].
    pose proof (lastNamed_hasName (toolName t) base) as Hn.
    assert (Hh : hasName (toolName t) base = true).
    { unfold hasName. apply existsb_exists. exists t. split; [exact Ht|].
      apply String.eqb_refl. }
    rewrite Hh in Hn. destruct (lastNamed (toolName t) base); [eauto|discriminate].
Qed.

Lemma lastNamed_name (name : string) (l : list (@Tool World)) (x : @Tool World) :
  lastNamed name l = Some x -> toolName x = name.
Proof.
  induction l as [|t l IH]; intros H; [discriminate|].
  simpl in H. destruct (lastNamed name l); [apply IH; exact H|].
  destruct (String.eqb_spec (toolName t) name) as [E|E]; [|discriminate].
  now injection H as <-.
Qed.

Lemma latest_name (l : list (@Tool World)) (t : @Tool World) : toolName (latest l t) = toolName t.
Proof.
  unfold latest. destruct (lastNamed (toolName t) l) eqn:E; [|reflexivity].
  apply (lastNamed_name _ _ _ E).
Qed.

Lemma lastNamed_in (t : @Tool World) (l : list (@Tool World)) :
  In t l -> exists x, lastNamed (toolName t) l = Some x.
Proof.
  intros Ht. pose proof (lastNamed_hasName (toolName t) l) as Hn.
  assert (Hh : hasName (toolName t) l = true).
  { unfold hasName. apply existsb_exists. exists t. split; [exact Ht|].
    apply String.eqb_refl. }
  rewrite Hh in Hn. destruct (lastNamed (toolName t) l); [eauto|discriminate].
Qed.

Lemma replaceAndAppend_cons (base over : list (@Tool World)) :
  over <> [] ->
  replaceAndAppend base over
  = List.map (latest (base ++ over)) base
    ++ List.filter (fun t => negb (hasName (toolName t) base)) over.
Proof. destruct over; [congruence | reflexivity]. Qed.

Lemma lastNamed_map (f : @Tool World -> @Tool World) (n : string) (l : list (@Tool World)) :
  (forall t, toolName (f t) = toolName t) ->
  lastNamed n (List.map f l) = option_map f (lastNamed n l).
Proof.
  intros Hf. induction l as [|t l IH]; [reflexivity|].
  simpl. rewrite IH, Hf. destruct (lastNamed n l); [reflexivity|].
  now destruct (toolName t =? n)%string.
Qed.

Lemma lastNamed_filter (p : string -> bool) (n : string) (l : list (@Tool World)) :
  lastNamed n (List.filter (fun t => p (toolName t)) l)
  = if p n then lastNamed n l else None.
Proof.
  induction l as [|t l IH]; simpl; [now destruct (p n)|].
  destruct (p (toolName t)) eqn:Ept; simpl; rewrite IH;
    destruct (String.eqb_spec (toolName t) n) as [E|E];
    try (rewrite E in Ept; rewrite Ept);
    try (destruct (p n)); try (destruct (lastNamed n l)); reflexivity.
Qed.

(** Looking a name up in the merged list is looking it up in the base tools
    followed by the override tools. *)
Lemma lastNamed_merged (n : string) (a b : list (@Tool World)) :
  lastNamed n (replaceAndAppend a b) = lastNamed n (a ++ b).
Proof.
  destruct b as [|t b]; [simpl; now rewrite app_nil_r|].
  rewrite replaceAndAppend_cons by discriminate.
  generalize (t :: b). clear t b. intros b.
  rewrite lastNamed_app.
  rewrite (lastNamed_filter (fun m => negb (hasName m a))).
  rewrite (lastNamed_map _ _ _ (latest_name (a ++ b))).
  rewrite lastNamed_app, (lastNamed_hasName n a).
  destruct (lastNamed n a) as [y|] eqn:Ea; simpl.
  - unfold latest. rewrite (lastNamed_name _ _ _ Ea), lastNamed_app, Ea.
    now destruct (lastNamed n b).
  - now destruct (lastNamed n b).
Qed.

Lemma hasName_merged (n : string) (a b : list (@Tool World)) :
  hasName n (replaceAndAppend a b) = hasName n a || hasName n b.
Proof.
  rewrite !lastNamed_hasName, lastNamed_merged, lastNamed_app.
  destruct (lastNamed n b), (lastNamed n a); reflexivity.
Qed.

Lemma filter_filter (p q : @Tool World -> bool) (l : list (@Tool World)) :
  List.filter p (List.filter q l) = List.filter (fun t => q t && p t) l.
Proof.
  induction l as [|t l IH]; [reflexivity|].
  simpl. destruct (q t); simpl; [destruct (p t)|]; now rewrite IH.
Qed.

Lemma filter_map_name (p : string -> bool) (f : @Tool World -> @Tool World)
    (l : list (@Tool World)) :
  (forall t, toolName (f t) = toolName t) ->
  List.filter (fun t => p (toolName t)) (List.map f l)
  = List.map f (List.filter (fun t => p (toolName t)) l).
Proof.
  intros Hf. induction l as [|t l IH]; [reflexivity|].
  simpl. rewrite Hf. destruct (p (toolName t)); simpl; now rewrite IH.
Qed.

Lemma replaceAndAppend_assoc (a b c : list (@Tool World)) :
  replaceAndAppend (replaceAndAppend a b) c
  = replaceAndAppend a (replaceAndAppend b c).
Proof.
  destruct c as [|c0 c]; [reflexivity|].
  destruct b as [|b0 b].
  { change (replaceAndAppend a []) with a.
    rewrite <- (mergeTools_spec [] (c0 :: c)), mergeTools_nil_l. reflexivity. }
  assert (Hc : c0 :: c <> []) by discriminate.
  assert (Hb : b0 :: b <> []) by discriminate.
  revert Hc Hb. generalize (c0 :: c). generalize (b0 :: b). clear. intros b c Hc Hb.
  assert (Hy : replaceAndAppend b c <> []).
  { rewrite replaceAndAppend_cons by exact Hc. destruct b; [congruence | discriminate]. }
  rewrite (replaceAndAppend_cons _ c Hc).
  rewrite (replaceAndAppend_cons a _ Hy).
  assert (Hl : forall t, latest (replaceAndAppend a b ++ c) t = latest (a ++ b ++ c) t).
  { intros t. unfold latest. rewrite lastNamed_app, lastNamed_merged.
    rewrite <- lastNamed_app, <- app_assoc. reflexivity. }
  assert (Hr : forall t, latest (a ++ replaceAndAppend b c) t = latest (a ++ b ++ c) t).
  { intros t. unfold latest.
    rewrite lastNamed_app, lastNamed_merged, <- lastNamed_app. reflexivity. }
  rewrite (List.map_ext _ _ Hl), (List.map_ext _ _ Hr).
  rewrite (replaceAndAppend_cons a b Hb), (replaceAndAppend_cons b c Hc).
  rewrite List.map_app, List.map_map, <- app_assoc. f_equal.
  - apply List.map_ext_in. intros t Ht.
    destruct (lastNamed_in t (a ++ b ++ c)) as [x Hx]; [apply in_or_app; now left|].
    unfold latest at 1. rewrite latest_name, Hx. unfold latest. now rewrite Hx.
  - rewrite List.filter_app. f_equal.
    + rewrite (filter_map_name (fun n => negb (hasName n a)) _ _ (latest_name (b ++ c))).
      apply List.map_ext_in. intros t Ht. apply List.filter_In in Ht.
      destruct Ht as [Ht Hn]. unfold latest. rewrite (lastNamed_app _ a).
      destruct (lastNamed_in t (b ++ c)) as [x Hx]; [apply in_or_app; now left|].
      now rewrite Hx.
    + rewrite filter_filter. apply List.filter_ext. intros t.
      rewrite <- (replaceAndAppend_cons a b Hb), hasName_merged.
      destruct (hasName (toolName t) a), (hasName (toolName t) b); reflexivity.
Qed.

Lemma mergeTools_assoc (a b c : list (@Tool World)) :
  mergeTools (mergeTools a b) c = mergeTools a (mergeTools b c).
Proof. rewrite !mergeTools_spec. apply replaceAndAppend_assoc. Qed.

Lemma mergeMap_assoc {V : Type} (a b c : gmap string V) :
  mergeMap (mergeMap a b) c = mergeMap a (mergeMap b c).
Proof.
  apply map_eq. intros k. rewrite !mergeMap_lookup.
  now destruct (c !! k).
Qed.

Lemma overlayString_assoc (a b c : string) :
  overlayString (overlayString a b) c = overlayString a (overlayString b c).
Proof. unfold overlayString. destruct c; [reflexivity|]. reflexivity. Qed.

Lemma overlayPtr_assoc {A : Type} (a b c : option A) :
  overlayPtr (overlayPtr a b) c = overlayPtr a (overlayPtr b c).
Proof. destruct c; reflexivity. Qed.

Lemma overlayAny_assoc (a b c : Any) :
  overlayAny (overlayAny a b) c = overlayAny a (overlayAny b c).
Proof.
  unfold overlayAny. destruct (anyIsNil c) eqn:Ec; [reflexivity|]. now rewrite Ec.
Qed.

Lemma concatInstructions_assoc (a b c : string) :
  concatInstructions (concatInstructions a b) c
  = concatInstructions a (concatInstructions b c).
Proof.
  unfold concatInstructions.
  destruct (isEmpty c) eqn:Ec; [reflexivity|].
  destruct (isEmpty b) eqn:Eb.
  - rewrite Ec. reflexivity.
  - destruct (isEmpty a) eqn:Ea.
    + rewrite Eb, isEmpty_append, Eb. reflexivity.
    + rewrite !isEmpty_append, Ea, Eb. simpl. rewrite !append_assoc. reflexivity.
Qed.

(** X8. The tool list [MergeChatOptions] computes, without its maps: every
    base tool stays at its place, replaced by the last override tool of the
    same name if there is one (and otherwise by the last base tool of that
    name); the override tools whose name no base tool has follow in their
    order, each of them, also when two share a name; with no override tool the
    base tools are returned as they are. So the names are the base names
    followed by the new override names. *)
Theorem mergeTools_replace_and_append (base over : list (@Tool World)) :
  mergeTools base over = replaceAndAppend base over
  /\ List.map toolName (mergeTools base over)
     = List.map toolName base
       ++ List.filter (fun n => negb (hasName n base)) (List.map toolName over)
  /\ (forall i t x,
         base !! i = Some t ->
         lastNamed (toolName t) over = Some x ->
         mergeTools base over !! i = Some x).
Proof.
  split; [apply mergeTools_spec|]. split.
  - rewrite mergeTools_spec. unfold replaceAndAppend.
    destruct over as [|o over].
    + simpl. now rewrite app_nil_r.
    + rewrite List.map_app. f_equal.
      * rewrite List.map_map. apply List.map_ext_in. intros t Ht.
        apply (latest_name (base ++ o :: over) t).
      * generalize (o :: over). intros l. induction l as [|t l IH]; [reflexivity|].
        simpl. destruct (hasName (toolName t) base); simpl; now rewrite IH.
  - intros i t x Hi Hx. rewrite mergeTools_spec. unfold replaceAndAppend.
    destruct over as [|o over]; [discriminate|].
    rewrite lookup_app_l by (rewrite length_map; eapply lookup_lt_Some; eauto).
    rewrite list_lookup_fmap, Hi. simpl. rewrite lastNamed_app, Hx. reflexivity.
Qed.

(** X20. [MergeChatOptions] is associative: overlaying [c] on the merge of
    [a] and [b] gives the option set that overlaying the merge of [b] and [c]
    on [a] gives, every field, the merged tool list included, and also when
    some of the three are nil. *)
Theorem MergeChatOptions_assoc (a b c : option (@ChatOptions World)) :
  MergeChatOptions (Some (MergeChatOptions a b)) c
  = MergeChatOptions a (Some (MergeChatOptions b c)).
Proof.
  destruct a as [a|], b as [b|], c as [c|]; try reflexivity.
  - unfold MergeChatOptions.
    cbn [optModelID optTemperature optTopP optMaxTokens optStop optSeed
         optFrequencyPenalty optPresencePenalty optTools optToolChoice
         optResponseFormat optMetadata optUser optInstructions optConversationID
         optStore optExtra].
    rewrite !overlayString_assoc, !overlayPtr_assoc, overlayAny_assoc,
      !mergeMap_assoc, concatInstructions_assoc, mergeTools_assoc.
    f_equal. destruct (optStop c); [reflexivity|]. reflexivity.
  - cbn [MergeChatOptions]. symmetry. apply MergeChatOptions_empty_r.
  - cbn [MergeChatOptions]. apply MergeChatOptions_empty_l.
Qed.

End MergeFacts.

(** ** Middleware chains *)

(** X21. Chaining the middleware of two lists, one after the other, is
    chaining the second list around the handler and then the first list
    around the result: middleware added later, as the [With...Middleware]
    options of the agent append it, sits inside the middleware added
    before.  The same for the three chain functions. *)
Theorem chain_append {World : Type} :
  (forall (handler : @AgentHandler World) (first second : list AgentMiddleware),
      chainAgentMiddleware handler (first ++ second)
      = chainAgentMiddleware (chainAgentMiddleware handler second) first)
  /\ (forall (handler : @ChatHandler World) (first second : list ChatMiddleware),
         chainChatMiddleware handler (first ++ second)
         = chainChatMiddleware (chainChatMiddleware handler second) first)
  /\ (forall (handler : @FunctionHandler World)
             (first second : list FunctionMiddleware),
         chainFunctionMiddleware handler (first ++ second)
         = chainFunctionMiddleware (chainFunctionMiddleware handler second) first).
Proof.
  unfold chainAgentMiddleware, chainChatMiddleware, chainFunctionMiddleware.
  repeat apply conj; intros handler first second;
    (transitivity (nest (first ++ second) handler); [apply chainFrom_nest|]);
    (transitivity (nest first (nest second handler)); [apply fold_right_app|]);
    symmetry; (etransitivity; [apply chainFrom_nest|]);
    f_equal; apply chainFrom_nest.
Qed.

(** ** Errors *)

(** X9. [errors.Is] among the sentinels of the package is a partial order
    that follows the wrap chain, and the kinds of the errors the loop and the
    session return are: max-iterations is an execution and an agent error and
    nothing else; unknown-tool and max-consecutive-errors are tool-execution
    and tool errors and nothing else (not agent errors); the two mode errors
    are mode-locked, session and agent errors and nothing else. *)
Theorem error_kinds :
  (forall s, sentinelIs s s = true)
  /\ (forall a b c, sentinelIs a b = true -> sentinelIs b c = true ->
                    sentinelIs a c = true)
  /\ (forall a b, sentinelIs a b = true -> sentinelIs b a = true -> a = b)
  /\ (forall s p, parentOf s = Some p -> sentinelIs s p = true)
  /\ (forall n t, errorsIs (MaxIterationsReached n) t = true
                  <-> t = ErrExecution \/ t = ErrAgent)
  /\ (forall name t, errorsIs (UnknownTool name) t = true
                     <-> t = ErrToolExecution \/ t = ErrTool)
  /\ (forall n t, errorsIs (MaxConsecutiveErrorsReached n) t = true
                  <-> t = ErrToolExecution \/ t = ErrTool)
  /\ (forall t, errorsIs CannotSwitchToServiceMode t = true
                <-> t = ErrSessionModeLocked \/ t = ErrSession \/ t = ErrAgent)
  /\ (forall t, errorsIs CannotSwitchToLocalMode t = true
                <-> t = ErrSessionModeLocked \/ t = ErrSession \/ t = ErrAgent).
Proof.
  repeat apply conj.
  - intros []; reflexivity.
  - intros [] [] []; simpl; intros; try reflexivity; discriminate.
  - intros [] []; simpl; intros; try reflexivity; discriminate.
  - intros [] p H; simpl in H; try discriminate; injection H as <-; reflexivity.
  - intros n []; simpl; split; intros H; try discriminate; auto;
      destruct H as [H|H]; discriminate.
  - intros n []; simpl; split; intros H; try discriminate; auto;
      destruct H as [H|H]; discriminate.
  - intros n []; simpl; split; intros H; try discriminate; auto;
      destruct H as [H|H]; discriminate.
  - intros []; simpl; split; intros H; try discriminate; auto;
      destruct H as [H|[H|H]]; discriminate.
  - intros []; simpl; split; intros H; try discriminate; auto;
      destruct H as [H|[H|H]]; discriminate.
Qed.

(** ** More on the loop *)

Section BatchShape.

Context {World : Type}.
Variable config : InvocationConfig.
Variable fnMiddleware : list (@FunctionMiddleware World).
Variable toolMap : gmap string (@Tool World).

#[local] Abbreviation process := (processCalls config fnMiddleware toolMap).

(** The result messages of a batch that runs to its end. *)
Lemma process_completed_answers resp (calls : list functionCall) :
  forall rm e (w : World) l rm1 e1 w1 l1,
    process resp calls rm e w l = Completed rm1 e1 w1 l1 ->
    exists new, rm1 = rm ++ new /\ Forall2 answers calls new.
Proof.
  induction calls as [|c calls IH]; intros rm e w l rm1 e1 w1 l1 H.
  - simpl in H. injection H as <- _ _ _. exists []. rewrite app_nil_r.
    split; [reflexivity | constructor].
  - simpl in H.
    assert (Hstep : forall m e' w' l',
               answers c m ->
               process resp calls (rm ++ [m]) e' w' l' = Completed rm1 e1 w1 l1 ->
               exists new, rm1 = rm ++ new /\ Forall2 answers (c :: calls) new).
    { intros m e' w' l' Hm Hp. apply IH in Hp. destruct Hp as (new & -> & Hn).
      exists (m :: new). rewrite <- app_assoc. split; [reflexivity|].
      constructor; assumption. }
    destruct (toolMap !! callName c) as [t|].
    + destruct (toolApproval t =? ApprovalAlways)%string; [discriminate|].
      destruct (toolDeclarationOnly t); [discriminate|].
      destruct (invokeToolWithMiddleware t (callArguments c) fnMiddleware w)
        as [w2 [result|err]].
      * eapply Hstep; [|exact H]. now exists result.
      * destruct (MaxConsecutiveErrors config <=? e + 1)%Z; [discriminate|].
        eapply Hstep; [|exact H]. eexists. reflexivity.
    + destruct (TerminateOnUnknown config); [discriminate|].
      eapply Hstep; [|exact H]. eexists. reflexivity.
Qed.

(** How a batch can return early. *)
Lemma process_returned_early resp (calls : list functionCall) :
  forall rm e (w : World) l resp1 e1 w1 l1,
    process resp calls rm e w l = ReturnedEarly resp1 e1 w1 l1 ->
    exists c t,
      In c calls /\ toolMap !! callName c = Some t
      /\ ((requiresApproval t = true /\ resp1 = withApprovalRequest resp c)
          \/ (requiresApproval t = false /\ toolDeclarationOnly t = true
              /\ resp1 = resp)).
Proof.
  induction calls as [|c calls IH]; intros rm e w l resp1 e1 w1 l1 H;
    [discriminate|].
  simpl in H.
  assert (Hrest : forall rm' e' w' l',
             process resp calls rm' e' w' l' = ReturnedEarly resp1 e1 w1 l1 ->
             exists c0 t,
               In c0 (c :: calls) /\ toolMap !! callName c0 = Some t
               /\ ((requiresApproval t = true /\ resp1 = withApprovalRequest resp c0)
                   \/ (requiresApproval t = false /\ toolDeclarationOnly t = true
                       /\ resp1 = resp))).
  { intros rm' e' w' l' Hp. apply IH in Hp. destruct Hp as (c0 & t & Hin & Hrest).
    exists c0, t. split; [now right | exact Hrest]. }
  destruct (toolMap !! callName c) as [t|] eqn:Ec.
  - destruct (toolApproval t =? ApprovalAlways)%string eqn:Ea.
    + injection H as <- _ _ _. exists c, t.
      split; [now left|]. split; [exact Ec|]. left. split; [exact Ea|reflexivity].
    + destruct (toolDeclarationOnly t) eqn:Ed.
      * injection H as <- _ _ _. exists c, t.
        split; [now left|]. split; [exact Ec|]. right. auto.
      * destruct (invokeToolWithMiddleware t (callArguments c) fnMiddleware w)
          as [w2 [result|err]].
        -- eapply Hrest, H.
        -- destruct (MaxConsecutiveErrors config <=? e + 1)%Z; [discriminate|].
           eapply Hrest, H.
  - destruct (TerminateOnUnknown config); [discriminate|]. eapply Hrest, H.
Qed.

(** How a batch can fail. *)
Lemma process_failed resp (calls : list functionCall) :
  forall rm e (w : World) l err e1 w1 l1,
    process resp calls rm e w l = Failed err e1 w1 l1 ->
    (exists c, In c calls /\ toolMap !! callName c = None
               /\ TerminateOnUnknown config = true /\ err = UnknownTool (callName c))
    \/ (err = MaxConsecutiveErrorsReached e1
        /\ (MaxConsecutiveErrors config <= e1)%Z
        /\ exists c, In c calls /\ isNormal toolMap c = true).
Proof.
  induction calls as [|c calls IH]; intros rm e w l err e1 w1 l1 H;
    [discriminate|].
  simpl in H.
  assert (Hrest : forall rm' e' w' l',
             process resp calls rm' e' w' l' = Failed err e1 w1 l1 ->
             (exists c0, In c0 (c :: calls) /\ toolMap !! callName c0 = None
                         /\ TerminateOnUnknown config = true
                         /\ err = UnknownTool (callName c0))
             \/ (err = MaxConsecutiveErrorsReached e1
                 /\ (MaxConsecutiveErrors config <= e1)%Z
                 /\ exists c0, In c0 (c :: calls) /\ isNormal toolMap c0 = true)).
  { intros rm' e' w' l' Hp. apply IH in Hp.
    destruct Hp as [(c0 & Hin & Hrest)|(He & Hm & c0 & Hin & Hn)].
    - left. exists c0. split; [now right | exact Hrest].
    - right. split; [exact He|]. split; [exact Hm|]. exists c0.
      split; [now right | exact Hn]. }
  destruct (toolMap !! callName c) as [t|] eqn:Ec.
  - destruct (toolApproval t =? ApprovalAlways)%string eqn:Ea; [discriminate|].
    destruct (toolDeclarationOnly t) eqn:Ed; [discriminate|].
    destruct (invokeToolWithMiddleware t (callArguments c) fnMiddleware w)
      as [w2 [result|errInvoke]].
    + eapply Hrest, H.
    + destruct (MaxConsecutiveErrors config <=? e + 1)%Z eqn:Em.
      * injection H as <- <- _ _. right. split; [reflexivity|].
        split; [now apply Z.leb_le|]. exists c. split; [now left|].
        unfold isNormal, isNormalName, requiresApproval. now rewrite Ec, Ea, Ed.
      * eapply Hrest, H.
  - destruct (TerminateOnUnknown config) eqn:Et.
    + injection H as <- _ _ _. left. exists c. repeat split; auto. now left.
    + eapply Hrest, H.
Qed.

End BatchShape.

Section RunShape.

Context {World : Type}.
Variable config : InvocationConfig.
Variable fnMiddleware : list (@FunctionMiddleware World).
Variable toolMap : gmap string (@Tool World).
Variable client : @ChatClient World.
Variable opts : @ChatOptions World.

#[local] Abbreviation step := (iteration config fnMiddleware toolMap client opts).
#[local] Abbreviation loop := (iterations config fnMiddleware toolMap client opts).
#[local] Abbreviation before := (stateBefore config fnMiddleware toolMap client opts).

(** Either the loop gets through [n] iterations, or one of them returns. *)
Lemma before_or_exit (n : nat) (st0 : LoopState) :
  (exists st, before n st0 = Some st)
  \/ (exists i st e, (i < n)%nat /\ before i st0 = Some st /\ step st = inr e).
Proof.
  induction n as [|n IH]; [left; eexists; reflexivity|].
  destruct IH as [(st & Hst)|(i & st & e & Hi & Hst & He)].
  - destruct (step st) as [st1|e] eqn:Es.
    + left. exists st1. simpl. now rewrite Hst, Es.
    + right. exists n, st, e. auto.
  - right. exists i, st, e. split; [lia | auto].
Qed.

(** Every run is some iterations that go on, and then either the end of the
    budget or an iteration that returns. *)
Lemma loop_shape (n : nat) (st0 : LoopState) :
  (exists st, before n st0 = Some st
              /\ loop n st0
                 = mkExit (inr (MaxIterationsReached (MaxIterations config))) st)
  \/ (exists i st e, (i < n)%nat /\ before i st0 = Some st /\ step st = inr e
                     /\ loop n st0 = e).
Proof.
  destruct (before_or_exit n st0) as [(st & Hst)|(i & st & e & Hi & Hst & He)].
  - left. exists st. split; [exact Hst|].
    replace n with (n + 0)%nat at 1 by lia.
    now rewrite (iterations_from _ _ _ _ _ n 0 st0 st Hst).
  - right. exists i, st, e. repeat split; auto.
    replace n with (i + S (n - S i))%nat at 1 by lia.
    rewrite (iterations_from _ _ _ _ _ i _ st0 st Hst). simpl. now rewrite He.
Qed.

(** How an iteration can return. *)
Lemma step_exit (st : LoopState) (e : Exit) :
  step st = inr e ->
  messages (finalState e) = messages st
  /\ (exists added,
         log (finalState e) = log st ++ BackendCall (messages st) :: added
         /\ forallb (invokesNormalTool toolMap) added = true)
  /\ match returned e with
     | inl resp =>
         extractFunctionCalls resp = []
         /\ client (messages st) opts (world st) = (world (finalState e), inl resp)
         \/ exists c t,
             In c (extractFunctionCalls resp)
             /\ toolMap !! callName c = Some t
             /\ (requiresApproval t = true \/ toolDeclarationOnly t = true)
     | inr err =>
         (exists f, err = Foreign f
                    /\ client (messages st) opts (world st)
                       = (world (finalState e), inr f))
         \/ (exists name, err = UnknownTool name
                          /\ TerminateOnUnknown config = true
                          /\ toolMap !! name = None)
         \/ (err = MaxConsecutiveErrorsReached (consecutiveErrors (finalState e))
             /\ (MaxConsecutiveErrors config
                 <= consecutiveErrors (finalState e))%Z)
     end.
Proof.
  unfold iteration. intros H.
  destruct (client (messages st) opts (world st)) as [w1 [resp|err]].
  - destruct (extractFunctionCalls resp) as [|c cs] eqn:Ec.
    + injection H as <-. simpl. split; [reflexivity|].
      split; [exists []; split; reflexivity|]. left. now rewrite Ec.
    + change (length (c :: cs) =? 0)%nat with false in H. cbv iota in H.
      destruct (process_invokes_normal config fnMiddleware toolMap resp (c :: cs) []
                  (consecutiveErrors st) w1 (log st ++ [BackendCall (messages st)]))
        as (added & Hlog & Hadded).
      destruct (processCalls config fnMiddleware toolMap resp (c :: cs) []
                  (consecutiveErrors st) w1 (log st ++ [BackendCall (messages st)]))
        as [rm e1 w2 l2|resp1 e1 w2 l2|err e1 w2 l2] eqn:Ep; [discriminate| |];
        injection H as <-; simpl in Hlog |- *;
        (split; [reflexivity|]);
        (split; [exists added; rewrite Hlog, <- app_assoc; split;
                 [reflexivity | exact Hadded]|]).
      * right. apply process_returned_early in Ep.
        destruct Ep as (c0 & t & Hin & Ht & Hk). exists c0, t.
        destruct Hk as [[Ha ->]|(Ha & Hd & ->)].
        -- rewrite withApprovalRequest_calls, Ec. auto.
        -- rewrite Ec. auto.
      * apply process_failed in Ep.
        destruct Ep as [(c0 & _ & Hn & Ht & ->)|(-> & Hm & _)].
        -- right. left. exists (callName c0). auto.
        -- right. right. auto.
  - injection H as <-. simpl. split; [reflexivity|].
    split; [exists []; split; reflexivity|]. left. eauto.
Qed.

(** An invocation the loop logs is an allowed event. *)
Lemma invoked_allowed (msgs : list Message) (added : list Event) :
  forallb (invokesNormalTool toolMap) added = true ->
  Forall (allowedEvent toolMap msgs) added.
Proof.
  induction added as [|ev added IH]; intros H; [constructor|].
  simpl in H. apply andb_prop in H. destruct H as [Hev Ha].
  constructor; [|now apply IH]. destruct ev as [ms|name args]; [discriminate|].
  simpl in Hev |- *. unfold isNormalName in Hev.
  destruct (toolMap !! name) as [t|]; [|discriminate].
  apply andb_prop in Hev. destruct Hev as [H1 H2].
  exists t. repeat apply conj; [reflexivity| |];
    [now destruct (requiresApproval t) | now destruct (toolDeclarationOnly t)].
Qed.

(** What holds of every state the loop reaches: the message list and the log
    have only grown, by allowed events, and the first event of a run is the
    backend call with the messages the run started from. *)
Lemma before_grows (i : nat) :
  forall st0 st : LoopState,
    before i st0 = Some st ->
    (exists more, messages st = messages st0 ++ more)
    /\ exists added,
         log st = log st0 ++ added
         /\ Forall (allowedEvent toolMap (messages st0)) added
         /\ (i = 0%nat /\ st = st0 /\ added = []
             \/ exists rest, added = BackendCall (messages st0) :: rest).
Proof.
  induction i as [|j IH]; intros st0 st H.
  - simpl in H. injection H as ->. split; [exists []; now rewrite app_nil_r|].
    exists []. rewrite app_nil_r. repeat apply conj; auto.
  - simpl in H. destruct (before j st0) as [st1|] eqn:E1; [|discriminate].
    destruct (step st1) as [st2|x] eqn:E2; [|discriminate].
    injection H as ->.
    destruct (IH st0 st1 E1) as [(more & Hm) (added & Hl & Ha & Hfirst)].
    pose proof E2 as E3. apply iteration_continues in E3.
    destruct E3 as (w1 & resp & rm & _ & _ & Hp & Hmsgs & _).
    split.
    + exists (more ++ Messages resp ++ rm). rewrite Hmsgs, Hm.
      now rewrite <- app_assoc.
    + pose proof (process_invokes_normal config fnMiddleware toolMap resp
                    (extractFunctionCalls resp) [] (consecutiveErrors st1) w1
                    (log st1 ++ [BackendCall (messages st1)]))
        as (added1 & Hlog & Hadded).
      rewrite Hp in Hlog. simpl in Hlog.
      exists (added ++ BackendCall (messages st1) :: added1).
      repeat apply conj.
      * rewrite Hlog, Hl, <- !app_assoc. reflexivity.
      * apply Forall_app. split; [exact Ha|].
        constructor; [simpl; eauto | now apply invoked_allowed].
      * right. destruct Hfirst as [(_ & -> & ->)|(rest & ->)].
        -- eexists. reflexivity.
        -- eexists. simpl. reflexivity.
Qed.

(** A backend call followed by invocations counts as one backend call. *)
Lemma backendCalls_turn (l : list Event) (ms : list Message) (added : list Event) :
  forallb (invokesNormalTool toolMap) added = true ->
  backendCalls (l ++ BackendCall ms :: added) = S (backendCalls l).
Proof.
  intros H. unfold backendCalls. rewrite List.filter_app, length_app. simpl.
  assert (Hn : List.filter isBackendCall added = []).
  { induction added as [|ev added IH]; [reflexivity|].
    simpl in H. apply andb_prop in H. destruct H as [Hev Ha].
    destruct ev; [discriminate|]. simpl. now apply IH. }
  rewrite Hn. simpl. lia.
Qed.

End RunShape.

(** ** Runs of [invokeFunctions] *)

(** X10. Every run of [invokeFunctions] calls the backend at least once and
    at most [MaxIterations] times (the value in force, which is at least 1),
    whatever the backend and the tools do. *)
Theorem invokeFunctions_call_budget {World : Type} (client : @ChatClient World)
    (msgs : list Message) (opts : @ChatOptions World) (config : InvocationConfig)
    (fnMiddleware : list (@FunctionMiddleware World)) (w : World) :
  let r := invokeFunctions client msgs opts config fnMiddleware w in
  let limit := Z.to_nat (MaxIterations (withDefaults config)) in
  (1 <= limit)%nat
  /\ (1 <= backendCalls (log (finalState r)))%nat
  /\ (backendCalls (log (finalState r)) <= limit)%nat.
Proof.
  cbv zeta. unfold invokeFunctions.
  set (cfg := withDefaults config). set (tm := buildToolMap (optTools opts)).
  assert (Hlimit : (1 <= Z.to_nat (MaxIterations cfg))%nat).
  { unfold cfg, withDefaults. simpl.
    destruct (Z.leb_spec (MaxIterations config) 0); lia. }
  split; [exact Hlimit|].
  destruct (loop_shape cfg fnMiddleware tm client opts
              (Z.to_nat (MaxIterations cfg)) (mkLoopState msgs 0%Z w []))
    as [(st & Hb & ->)|(i & st & e & Hi & Hb & He & ->)];
    apply before_backendCalls in Hb; cbn [log] in Hb;
    change (backendCalls []) with 0%nat in Hb.
  - cbn [finalState]. lia.
  - apply step_exit in He. destruct He as (_ & (added & -> & Ha) & _).
    rewrite (backendCalls_turn tm _ _ _ Ha). lia.
Qed.

(** X11. The log of every run of [invokeFunctions] starts with the backend
    call that sends the messages the run was given; every later backend call
    sends these messages followed by more; every tool that is invoked is
    registered in the tool map, needs no approval and is not
    declaration-only; and the message list the loop ends with extends the one
    it was given. *)
Theorem invokeFunctions_log_discipline {World : Type} (client : @ChatClient World)
    (msgs : list Message) (opts : @ChatOptions World) (config : InvocationConfig)
    (fnMiddleware : list (@FunctionMiddleware World)) (w : World) :
  let r := invokeFunctions client msgs opts config fnMiddleware w in
  (exists rest, log (finalState r) = BackendCall msgs :: rest)
  /\ Forall (allowedEvent (buildToolMap (optTools opts)) msgs) (log (finalState r))
  /\ (exists more, messages (finalState r) = msgs ++ more).
Proof.
  cbv zeta. unfold invokeFunctions.
  set (cfg := withDefaults config). set (tm := buildToolMap (optTools opts)).
  assert (Hlimit : (1 <= Z.to_nat (MaxIterations cfg))%nat).
  { unfold cfg, withDefaults. simpl.
    destruct (Z.leb_spec (MaxIterations config) 0); lia. }
  destruct (loop_shape cfg fnMiddleware tm client opts
              (Z.to_nat (MaxIterations cfg)) (mkLoopState msgs 0%Z w []))
    as [(st & Hb & ->)|(i & st & e & Hi & Hb & He & ->)];
    apply before_grows in Hb; cbn [messages log app] in Hb;
    destruct Hb as [(more & Hm) (added & Hl & Ha & Hfirst)].
  - cbn [finalState]. rewrite Hl. repeat apply conj; [|exact Ha|eauto].
    destruct Hfirst as [(H0 & _)|(rest & ->)]; [lia | eauto].
  - apply step_exit in He.
    destruct He as (Hmsgs & (added1 & -> & Ha1) & _).
    rewrite Hmsgs, Hl. repeat apply conj; [| |eauto].
    + destruct Hfirst as [(_ & -> & ->)|(rest & ->)]; simpl; eauto.
    + apply Forall_app. split; [exact Ha|].
      constructor; [simpl; eauto | now apply invoked_allowed].
Qed.

(** X12. How a run of [invokeFunctions] can end.  A response it returns
    either holds no function call and is the response of the last backend
    call, or holds a call to a registered tool that needs approval or is
    declaration-only.  An error it returns is the error of the last backend
    call, unchanged; or the unknown-tool error, for a name that is not in the
    tool map and with [TerminateOnUnknown] on; or the consecutive-errors
    error, which reports the count the loop ends with, a count that has
    reached the threshold in force; or the max-iterations error, after
    exactly [MaxIterations] backend calls. *)
Theorem invokeFunctions_exits {World : Type} (client : @ChatClient World)
    (msgs : list Message) (opts : @ChatOptions World) (config : InvocationConfig)
    (fnMiddleware : list (@FunctionMiddleware World)) (w : World) :
  let r := invokeFunctions client msgs opts config fnMiddleware w in
  let cfg := withDefaults config in
  let toolMap := buildToolMap (optTools opts) in
  let final := finalState r in
  match returned r with
  | inl resp =>
      (extractFunctionCalls resp = []
       /\ exists w0, client (messages final) opts w0 = (world final, inl resp))
      \/ exists c t,
          In c (extractFunctionCalls resp)
          /\ toolMap !! callName c = Some t
          /\ (toolApproval t = ApprovalAlways \/ toolDeclarationOnly t = true)
  | inr err =>
      (exists f, err = Foreign f
                 /\ exists w0, client (messages final) opts w0 = (world final, inr f))
      \/ (exists name, err = UnknownTool name
                       /\ TerminateOnUnknown config = true
                       /\ toolMap !! name = None)
      \/ (err = MaxConsecutiveErrorsReached (consecutiveErrors final)
          /\ (MaxConsecutiveErrors cfg <= consecutiveErrors final)%Z)
      \/ (err = MaxIterationsReached (MaxIterations cfg)
          /\ backendCalls (log final) = Z.to_nat (MaxIterations cfg))
  end.
Proof.
  cbv zeta. unfold invokeFunctions.
  set (cfg := withDefaults config). set (tm := buildToolMap (optTools opts)).
  destruct (loop_shape cfg fnMiddleware tm client opts
              (Z.to_nat (MaxIterations cfg)) (mkLoopState msgs 0%Z w []))
    as [(st & Hb & ->)|(i & st & e & Hi & Hb & He & ->)].
  - cbn [returned finalState]. right. right. right. split; [reflexivity|].
    apply before_backendCalls in Hb. cbn [log] in Hb.
    change (backendCalls []) with 0%nat in Hb. lia.
  - apply step_exit in He. destruct He as (Hmsgs & _ & He). rewrite Hmsgs.
    destruct (returned e) as [resp|err].
    + destruct He as [[Hc Hr]|(c & t & Hin & Ht & Hk)]; [left; eauto|].
      right. exists c, t. repeat apply conj; [exact Hin | exact Ht |].
      destruct Hk as [Hk|Hk]; [left|now right].
      unfold requiresApproval in Hk. now apply String.eqb_eq in Hk.
    + destruct He as [(f & -> & Hf)|[(name & -> & Ht & Hn)|[-> Hm]]].
      * left. eauto.
      * right. left. eauto.
      * right. right. left. auto.
Qed.

(** X13. When the loop reaches a further iteration, the message list has
    grown by the messages of the backend's response followed by exactly one
    tool message per function call of that response, in the order of the
    calls: each is a message of role "tool" whose only content is one
    function-result item carrying its call's id. *)
Theorem tool_results_in_call_order {World : Type} (client : @ChatClient World)
    (msgs : list Message) (opts : @ChatOptions World) (config : InvocationConfig)
    (fnMiddleware : list (@FunctionMiddleware World)) (w : World) (i : nat)
    (st1 : LoopState) :
  stateAt client msgs opts config fnMiddleware w (S i) = Some st1 ->
  exists st w1 resp results,
    stateAt client msgs opts config fnMiddleware w i = Some st
    /\ client (messages st) opts (world st) = (w1, inl resp)
    /\ messages st1 = messages st ++ Messages resp ++ results
    /\ Forall2 answers (extractFunctionCalls resp) results.
Proof.
  unfold stateAt. cbn [stateBefore]. intros H.
  destruct (stateBefore _ _ _ _ _ i _) as [st|]; [|discriminate].
  destruct (iteration _ _ _ _ _ st) as [st2|x] eqn:E; [|discriminate].
  injection H as ->. apply iteration_continues in E.
  destruct E as (w1 & resp & rm & Hc & _ & Hp & Hm & _).
  apply process_completed_answers in Hp. destruct Hp as (new & -> & Hn).
  exists st, w1, resp, new. auto.
Qed.

(** The run of [TestAgent_WithToolInvocation]: the second iteration starts
    with the question, the request for [add] and the result 7. *)
Lemma tool_results_in_call_order_witness :
  stateAt calcClient askMessages (toolOptions [addTool]) DefaultInvocationConfig
    [] 0%nat 1
  = Some (mkLoopState
            (askMessages
             ++ Messages (requestOf [mkCall "call-1" "add" addArguments])
             ++ [NewToolMessage "call-1" (AnyInt 7)])
            0%Z 1%nat
            [BackendCall askMessages; ToolInvocation "add" addArguments])
  /\ exists st w1 resp results,
      stateAt calcClient askMessages (toolOptions [addTool]) DefaultInvocationConfig
        [] 0%nat 0 = Some st
      /\ calcClient (messages st) (toolOptions [addTool]) (world st) = (w1, inl resp)
      /\ askMessages
           ++ Messages (requestOf [mkCall "call-1" "add" addArguments])
           ++ [NewToolMessage "call-1" (AnyInt 7)]
         = messages st ++ Messages resp ++ results
      /\ Forall2 answers (extractFunctionCalls resp) results.
Proof.
  split; [reflexivity|].
  exact (tool_results_in_call_order calcClient askMessages (toolOptions [addTool])
           DefaultInvocationConfig [] 0%nat 0%nat _ eq_refl).
Defined.

(** ** The session *)

Lemma persist_stores (r : nat) (request : list Message) (resp : ChatResponse)
    (h : Stores) :
  persist r request resp h
  = (<[r := storedMessages r h ++ request ++ Messages resp]> h, None).
Proof.
  unfold persist, AddMessages. cbv beta iota. unfold storedMessages at 1.
  rewrite lookup_insert_eq. simpl. rewrite insert_insert_eq, <- app_assoc. reflexivity.
Qed.

Lemma new_store_is_new (h : Stores) : h !! fresh (dom h) = None.
Proof. apply not_elem_of_dom. apply is_fresh. Qed.

(** X14. After an update of the session that returns no error and leaves
    the session in local mode, the session's store lists what it listed
    before (nothing, when the store was created by this update), followed by
    the request messages and then the response's messages; every other store
    is as it was; and a store the update created did not exist before. *)
Theorem updateSession_persists (session : Session) (request : list Message)
    (resp : ChatResponse) (h h1 : Stores) (s1 : Session) (r : nat) :
  updateSession session request resp h = (h1, s1, None) ->
  store s1 = Some r ->
  ListMessages r h1 = inl (history session h ++ request ++ Messages resp)
  /\ (forall r', r' <> r -> h1 !! r' = h !! r')
  /\ (store session = None -> h !! r = None)
  /\ (store session = Some r \/ store session = None).
Proof.
  unfold updateSession, history, ListMessages. intros H Hr.
  destruct session as [id sid st locked]. cbn [store] in *.
  destruct st as [r0|].
  - rewrite persist_stores in H. injection H as <- <-. cbn [store] in Hr.
    injection Hr as ->. unfold storedMessages at 1. rewrite lookup_insert_eq.
    repeat apply conj; [reflexivity | | discriminate | now left].
    intros r' Hne. now apply lookup_insert_ne.
  - destruct (isEmpty (ConversationID resp)); cbn [negb] in H; cbv iota in H.
    + unfold NewInMemoryStore, SetStore in H. cbv zeta in H.
      cbn [modeLocked serviceID] in H.
      destruct (locked && negb (isEmpty sid)); [discriminate|].
      rewrite persist_stores in H. injection H as <- <-. cbn [store] in Hr.
      injection Hr as <-. unfold storedMessages. rewrite !lookup_insert_eq.
      repeat apply conj; [reflexivity | | intros _; apply new_store_is_new | now right].
      intros r' Hne. rewrite insert_insert_eq. now apply lookup_insert_ne.
    + unfold SetServiceID in H. cbn [modeLocked store isNil negb] in H.
      rewrite andb_false_r in H. injection H as _ <-. discriminate.
Qed.

(** A second turn of a conversation held in store 0. *)
Lemma updateSession_persists_witness :
  let session := WithSessionStore (Some 0%nat) (NewSession "s-1") in
  let h : Stores := {[0%nat := [NewUserMessage "hi"; NewAssistantMessage "hello"]]} in
  let h1 : Stores :=
    {[0%nat := [NewUserMessage "hi"; NewAssistantMessage "hello";
                NewUserMessage "What is 3+4?"; NewAssistantMessage "The answer is 7."]]} in
  updateSession session askMessages (answerOf "The answer is 7.") h = (h1, session, None)
  /\ store session = Some 0%nat
  /\ ListMessages 0%nat h1
     = inl (history session h ++ askMessages ++ Messages (answerOf "The answer is 7."))
  /\ (forall r', r' <> 0%nat -> h1 !! r' = h !! r')
  /\ (store session = None -> h !! 0%nat = None)
  /\ (store session = Some 0%nat \/ store session = None).
Proof.
  cbv zeta.
  assert (H : updateSession (WithSessionStore (Some 0%nat) (NewSession "s-1"))
                askMessages (answerOf "The answer is 7.")
                ({[0%nat := [NewUserMessage "hi"; NewAssistantMessage "hello"]]} : Stores)
              = ({[0%nat := [NewUserMessage "hi"; NewAssistantMessage "hello";
                             NewUserMessage "What is 3+4?";
                             NewAssistantMessage "The answer is 7."]]},
                 WithSessionStore (Some 0%nat) (NewSession "s-1"), None))
    by reflexivity.
  split; [exact H|]. split; [reflexivity|].
  exact (updateSession_persists _ _ _ _ _ _ _ H eq_refl).
Defined.

(** X15. [updateSession] fails exactly when the session has no store, is
    locked with a service id, and the response carries no conversation id;
    the error is then the mode-locked error, the session is unchanged and no
    existing store is touched.  A session without a store takes the
    conversation id of the response as its service id, whatever it was locked
    into, and nothing is stored.  A session with a store is never changed.
    A session that is in at most one mode stays so, and the session id never
    changes. *)
Theorem updateSession_modes (session : Session) (request : list Message)
    (resp : ChatResponse) (h : Stores) :
  let out := updateSession session request resp h in
  let h1 := out.1.1 in
  let s1 := out.1.2 in
  let err := out.2 in
  ((exists e, err = Some e)
   <-> store session = None /\ isEmpty (ConversationID resp) = true
       /\ modeLocked session = true /\ isEmpty (serviceID session) = false)
  /\ ((exists e, err = Some e) ->
      err = Some CannotSwitchToLocalMode /\ s1 = session
      /\ forall r, r ∈ dom h -> h1 !! r = h !! r)
  /\ (store session = None -> isEmpty (ConversationID resp) = false ->
      err = None /\ h1 = h
      /\ s1 = mkSession (sessID session) (ConversationID resp) None true)
  /\ (forall r, store session = Some r -> s1 = session)
  /\ (oneMode session = true -> oneMode s1 = true)
  /\ sessID s1 = sessID session.
Proof.
  cbv zeta. unfold updateSession.
  destruct session as [id sid st locked]. cbn [store sessID modeLocked serviceID].
  assert (Hfresh : forall r, r ∈ dom h -> <[fresh (dom h) := []]> h !! r = h !! r).
  { intros r Hr. apply lookup_insert_ne. intros <-. apply (is_fresh (dom h)), Hr. }
  destruct st as [r0|].
  - rewrite persist_stores. cbn [fst snd].
    repeat apply conj; try reflexivity; try discriminate; auto;
      try (intros [e He]; discriminate); intros (H1 & _); discriminate.
  - destruct (isEmpty (ConversationID resp)) eqn:Ec; cbn [negb]; cbv iota.
    + unfold NewInMemoryStore, SetStore. cbv zeta. cbn [modeLocked serviceID].
      destruct locked, (isEmpty sid) eqn:Es; cbn [andb negb]; cbv iota;
        rewrite ?persist_stores; cbn [fst snd];
        repeat apply conj; try reflexivity; try discriminate; auto;
        try (intros [e He]; discriminate);
        try (intros (_ & _ & H1 & H2); discriminate);
        try (unfold oneMode; cbn [store serviceID modeLocked isNil sessID];
             rewrite ?Es; cbn; intros; try reflexivity; discriminate);
        eauto.
    + unfold SetServiceID. cbn [modeLocked store isNil negb].
      rewrite andb_false_r. cbn [fst snd].
      repeat apply conj; try reflexivity; try discriminate; auto;
        try (intros [e He]; discriminate);
        try (intros (_ & H1 & _); discriminate).
      intros _. unfold oneMode. cbn [store serviceID modeLocked isNil orb andb].
      apply orb_true_r.
Qed.

(** ** Session ids *)

Lemma all_bytes (f : Z -> bool) :
  forallb f (List.map Z.of_nat (seq 0 256)) = true ->
  forall b, isByte b -> f b = true.
Proof.
  intros H b Hb. rewrite forallb_forall in H. apply H.
  rewrite <- (Z2Nat.id b) by (unfold isByte in Hb; lia).
  apply in_map, in_seq. unfold isByte in Hb. lia.
Qed.

Lemma hexDigit_char (n : Z) :
  (0 <= n < 16)%Z ->
  exists c, hexDigit n = String c "" /\ isHexDigit (String c "") = true.
Proof.
  intros Hn. rewrite <- (Z2Nat.id n) by lia.
  assert (Hk : (Z.to_nat n < 16)%nat) by lia.
  revert Hk. generalize (Z.to_nat n). clear Hn. intros k Hk.
  do 16 (destruct k as [|k]; [eexists; split; reflexivity|]). lia.
Qed.

(** A byte prints as two characters, both hexadecimal digits. *)
Lemma hex_of_byte (b : Z) :
  isByte b ->
  exists c d, hexByte b = String c (String d "")
              /\ hexDigit (b / 16) = String c ""
              /\ isHexDigit (String c "") = true /\ isHexDigit (String d "") = true.
Proof.
  intros Hb. unfold isByte in Hb. unfold hexByte.
  destruct (hexDigit_char (b / 16)%Z) as (c & Ec & Hc);
    [split; [apply Z.div_pos; lia | apply Z.div_lt_upper_bound; lia]|].
  destruct (hexDigit_char (b mod 16)%Z) as (d & Ed & Hd); [apply Z.mod_pos_bound; lia|].
  exists c, d. rewrite Ec, Ed. auto.
Qed.

Lemma version_byte (b : Z) :
  isByte b ->
  isByte (Z.lor (Z.land b 15) 64) /\ hexDigit (Z.lor (Z.land b 15) 64 / 16) = "4".
Proof.
  intros Hb.
  pose proof (all_bytes (fun b => (0 <=? Z.lor (Z.land b 15) 64)%Z
                                  && (Z.lor (Z.land b 15) 64 <? 256)%Z
                                  && (Z.lor (Z.land b 15) 64 / 16 =? 4)%Z)
                eq_refl b Hb) as H.
  apply andb_prop in H. destruct H as [H H3]. apply andb_prop in H.
  destruct H as [H1 H2]. apply Z.eqb_eq in H3. rewrite H3.
  unfold isByte. split; [lia | reflexivity].
Qed.

Lemma variant_byte (b : Z) :
  isByte b ->
  isByte (Z.lor (Z.land b 63) 128)
  /\ In (hexDigit (Z.lor (Z.land b 63) 128 / 16)) ["8"; "9"; "a"; "b"].
Proof.
  intros Hb.
  pose proof (all_bytes (fun b => (0 <=? Z.lor (Z.land b 63) 128)%Z
                                  && (Z.lor (Z.land b 63) 128 <? 256)%Z
                                  && (8 <=? Z.lor (Z.land b 63) 128 / 16)%Z
                                  && (Z.lor (Z.land b 63) 128 / 16 <=? 11)%Z)
                eq_refl b Hb) as H.
  apply andb_prop in H. destruct H as [H H4]. apply andb_prop in H.
  destruct H as [H H3]. apply andb_prop in H. destruct H as [H1 H2].
  unfold isByte. split; [lia|].
  assert (Hc : (Z.lor (Z.land b 63) 128 / 16 = 8 \/ Z.lor (Z.land b 63) 128 / 16 = 9
               \/ Z.lor (Z.land b 63) 128 / 16 = 10
               \/ Z.lor (Z.land b 63) 128 / 16 = 11)%Z) by lia.
  destruct Hc as [-> | [-> | [-> | ->]]]; simpl; auto.
Qed.

(** X16. Whatever the 16 random bytes are, [newUUID] returns a version 4
    UUID in its text form: 36 characters, a dash at the indices 8, 13, 18 and
    23, the digit 4 at index 14, one of 8, 9, a, b at index 19, and lower-case
    hexadecimal digits everywhere else. *)
Theorem newUUID_format (random : list Z) :
  length random = 16%nat ->
  Forall isByte random ->
  let id := newUUID random in
  String.length id = 36%nat
  /\ (forall i, In i [8; 13; 18; 23]%nat -> charAt i id = "-")
  /\ charAt 14 id = "4"
  /\ In (charAt 19 id) ["8"; "9"; "a"; "b"]
  /\ (forall i, (i < 36)%nat -> ~ In i [8; 13; 18; 23]%nat ->
                 isHexDigit (charAt i id) = true).
Proof.
  intros Hlen Hall.
  do 17 (destruct random as [|? random]; try discriminate). clear Hlen.
  repeat match goal with
         | H : Forall _ (_ :: _) |- _ =>
             let Hb := fresh "Hb" in apply Forall_cons in H; destruct H as [Hb H]
         end.
  cbv zeta. unfold newUUID, slice.
  cbn [nth insert list_insert take drop Nat.sub hexBytes fold_right].
  apply version_byte in Hb5. destruct Hb5 as [Hb5 Hver].
  apply variant_byte in Hb7. destruct Hb7 as [Hb7 Hvar].
  repeat match goal with
         | H : isByte ?b |- _ =>
             let c := fresh "c" in
             let d := fresh "d" in
             let Hd := fresh "Hd" in
             let Hc := fresh "Hc" in
             let Hh := fresh "Hh" in
             destruct (hex_of_byte b H) as (c & d & -> & Hh & Hc & Hd);
             try rewrite Hh in *; clear H
         end.
  cbn [String.append]. unfold charAt.
  repeat apply conj.
  - reflexivity.
  - intros i [<-|[<-|[<-|[<-|[]]]]]; reflexivity.
  - exact Hver.
  - exact Hvar.
  - intros i Hi Hn.
    do 36 (destruct i as [|i];
           [first [exfalso; apply Hn; simpl; tauto | cbn; assumption]|]).
    lia.
Qed.

(** The bytes 01 23 45 67 89 ab cd ef fe dc ba 98 76 54 32 10. *)
Lemma newUUID_format_witness :
  let random := [1; 35; 69; 103; 137; 171; 205; 239; 254; 220; 186; 152; 118; 84; 50; 16]%Z in
  length random = 16%nat
  /\ Forall isByte random
  /\ newUUID random = "01234567-89ab-4def-bedc-ba9876543210"
  /\ String.length (newUUID random) = 36%nat
  /\ (forall i, In i [8; 13; 18; 23]%nat -> charAt i (newUUID random) = "-")
  /\ charAt 14 (newUUID random) = "4"
  /\ In (charAt 19 (newUUID random)) ["8"; "9"; "a"; "b"]
  /\ (forall i, (i < 36)%nat -> ~ In i [8; 13; 18; 23]%nat ->
                 isHexDigit (charAt i (newUUID random)) = true).
Proof.
  cbv zeta.
  assert (Hb : Forall isByte
                 [1; 35; 69; 103; 137; 171; 205; 239; 254; 220; 186; 152; 118; 84; 50; 16]%Z)
    by (repeat constructor; unfold isByte; lia).
  split; [reflexivity|]. split; [exact Hb|]. split; [reflexivity|].
  exact (newUUID_format
           [1; 35; 69; 103; 137; 171; 205; 239; 254; 220; 186; 152; 118; 84; 50; 16]%Z
           eq_refl Hb).
Defined.

(** X17. A session made by [Agent.NewSession] starts with a new, empty store
    of its own, no service id, and a mode that is not locked.  An update
    stores the request and the response in it and never fails, locks or
    changes the session, also when the response carries a conversation id.
    Since the mode is not locked, [SetServiceID] succeeds on such a session,
    which then has both a store and a service id. *)
Theorem AgentNewSession_not_locked (random : list Z) (h : Stores)
    (request : list Message) (resp : ChatResponse) (id : string) :
  let made := AgentNewSession random h in
  let h1 := made.1 in
  let s := made.2 in
  let updated := updateSession s request resp h1 in
  (exists r, store s = Some r /\ h !! r = None /\ h1 !! r = Some [])
  /\ serviceID s = "" /\ modeLocked s = false /\ oneMode s = true
  /\ updated.2 = None /\ updated.1.2 = s
  /\ history s updated.1.1 = request ++ Messages resp
  /\ SetServiceID id s = (mkSession (sessID s) id (store s) true, None)
  /\ (isEmpty id = false -> oneMode (SetServiceID id s).1 = false).
Proof.
  cbv zeta. unfold AgentNewSession, NewInMemoryStore. cbv zeta.
  cbn [fst snd]. unfold WithSessionStore, NewSession.
  cbn [store serviceID modeLocked sessID].
  unfold updateSession. cbn [store]. rewrite persist_stores. cbn [fst snd].
  repeat apply conj; try reflexivity.
  - exists (fresh (dom h)). repeat apply conj; [reflexivity | | apply lookup_insert_eq].
    apply not_elem_of_dom, is_fresh.
  - unfold history, storedMessages. cbn [store]. rewrite !lookup_insert_eq. reflexivity.
  - intros Hid. unfold SetServiceID. cbn. unfold oneMode. cbn [store serviceID modeLocked isNil]. now rewrite Hid.
Qed.

(** ** Function tools *)

Section FunctionToolFacts.

Context {World : Type}.
Variable quoted : string -> string.

#[local] Abbreviation FunctionTool := (@FunctionTool World).
#[local] Abbreviation applyToolOption := (@applyToolOption World).
#[local] Abbreviation NewTool := (@NewTool World).
#[local] Abbreviation asTool := (@asTool World quoted).
#[local] Abbreviation ToolError := (ToolError quoted).

Lemma options_fold (opts : list ToolOption) :
  forall t : FunctionTool,
    let t1 := fold_left applyToolOption opts t in
    ftName t1 = ftName t /\ ftDescription t1 = ftDescription t
    /\ ftParameters t1 = ftParameters t /\ ftFn t1 = ftFn t
    /\ ftDeclarationOnly t1 = ftDeclarationOnly t || existsb isDeclarationOption opts
    /\ ftApprovalMode t1
       = if existsb isApprovalOption opts then ApprovalAlways else ftApprovalMode t.
Proof.
  induction opts as [|opt opts IH]; intros t; cbv zeta.
  - simpl. rewrite orb_false_r. repeat apply conj; reflexivity.
  - cbn [fold_left existsb].
    destruct (IH (applyToolOption t opt)) as (H1 & H2 & H3 & H4 & H5 & H6).
    rewrite H1, H2, H3, H4, H5, H6.
    destruct opt; cbn; repeat apply conj; try reflexivity.
    + now destruct (existsb isApprovalOption opts).
    + now rewrite orb_true_r.
Qed.

(** X18. The tool [NewTool] builds has the name, description and parameters
    it was given; it is declaration-only exactly when [WithDeclarationOnly]
    is among the options and needs approval exactly when
    [WithApprovalRequired] is, its approval mode being the empty string
    otherwise; the order and the repetition of options do not matter, and
    [WithMaxInvocations] changes nothing a [Tool] method returns.  Its
    [Invoke] runs the function, and without a function fails with a tool
    error in a world it leaves unchanged. *)
Theorem NewTool_options (name description parameters : string)
    (fn : option (string -> World -> World * (Any + ForeignError)))
    (opts : list ToolOption) :
  let t := asTool (NewTool name description parameters fn opts) in
  toolName t = name /\ toolDescription t = description
  /\ toolParameters t = parameters
  /\ toolDeclarationOnly t = existsb isDeclarationOption opts
  /\ toolApproval t = (if existsb isApprovalOption opts then ApprovalAlways else "")
  /\ (forall args w,
         toolInvoke t args w
         = match fn with
           | Some f => f args w
           | None =>
               (w, inr (ToolError name "tool is declaration-only and cannot be invoked"))
           end).
Proof.
  cbv zeta. unfold NewTool, asTool. cbn [toolName toolDescription toolParameters
    toolDeclarationOnly toolApproval toolInvoke].
  destruct (options_fold opts (mkFunctionTool name description parameters fn false "" 0%Z))
    as (H1 & H2 & H3 & H4 & H5 & H6).
  cbn [ftName ftDescription ftParameters ftFn ftDeclarationOnly ftApprovalMode] in *.
  repeat apply conj; auto.
  intros args w. unfold Invoke. rewrite H4, H1. reflexivity.
Qed.

(** X19. A tool that was given no function and neither [WithDeclarationOnly]
    nor [WithApprovalRequired] is not declaration-only for the loop: with no
    function middleware a call to it is logged as an invocation, fails in an
    unchanged world and counts as a consecutive error, which is fatal at the
    threshold. *)
Theorem tool_without_function (config : InvocationConfig)
    (toolMap : gmap string (@Tool World)) (name description parameters : string)
    (opts : list ToolOption) (resp : ChatResponse) (c : functionCall)
    (rest : list functionCall) (rm : list Message) (e : Z) (w : World)
    (l : list Event) :
  toolMap !! callName c = Some (asTool (NewTool name description parameters None opts)) ->
  existsb isApprovalOption opts = false ->
  existsb isDeclarationOption opts = false ->
  processCalls config [] toolMap resp (c :: rest) rm e w l
  = if (MaxConsecutiveErrors config <=? e + 1)%Z
    then Failed (MaxConsecutiveErrorsReached (e + 1)) (e + 1)%Z w
           (l ++ [ToolInvocation (callName c) (callArguments c)])
    else processCalls config [] toolMap resp rest
           (rm ++ [NewToolMessage (callID c)
                     (AnyString
                        (if IncludeDetailedErrors config
                         then foreignText
                                (ToolError name
                                   "tool is declaration-only and cannot be invoked")
                         else "error invoking tool"))])
           (e + 1)%Z w
           (l ++ [ToolInvocation (callName c) (callArguments c)]).
Proof.
  intros Hc Ha Hd.
  destruct (options_fold opts (mkFunctionTool name description parameters None false "" 0%Z))
    as (H1 & H2 & H3 & H4 & H5 & H6).
  cbn [ftName ftDescription ftParameters ftFn ftDeclarationOnly ftApprovalMode] in *.
  rewrite Ha in H6. rewrite Hd in H5.
  apply (process_failure config [] toolMap resp c rest rm e w w l _ _ Hc).
  - unfold requiresApproval, asTool, NewTool. cbn [toolApproval].
    rewrite H6. reflexivity.
  - unfold asTool, NewTool. cbn [toolDeclarationOnly]. exact H5.
  - unfold invokeToolWithMiddleware, chainFunctionMiddleware, asTool, NewTool.
    cbn [length chainFrom toolInvoke]. unfold Invoke. rewrite H4, H1. reflexivity.
Qed.


End FunctionToolFacts.

(** A tool named [ghost] with no function: the first call to it is answered
    with the generic error text. *)
Lemma tool_without_function_witness :
  let ghost : @FunctionTool nat :=
    NewTool "ghost" "" "{}" None [WithMaxInvocations 1] in
  let toolMap := buildToolMap [asTool plainQuote ghost] in
  let c := mkCall "call-1" "ghost" "{}" in
  toolMap !! callName c = Some (asTool plainQuote ghost)
  /\ processCalls DefaultInvocationConfig [] toolMap (requestOf [c]) [c] [] 0%Z 0%nat []
     = Completed [NewToolMessage "call-1" (AnyString "error invoking tool")] 1%Z 0%nat
         [ToolInvocation "ghost" "{}"].
Proof.
  cbv zeta. split; [reflexivity|].
  exact (tool_without_function plainQuote DefaultInvocationConfig
           (buildToolMap
              [asTool plainQuote (NewTool "ghost" "" "{}" None [WithMaxInvocations 1])])
           "ghost" "" "{}"
           [WithMaxInvocations 1] (requestOf [mkCall "call-1" "ghost" "{}"])
           (mkCall "call-1" "ghost" "{}") [] [] 0%Z 0%nat [] eq_refl eq_refl eq_refl).
Defined.
